(** * A shallow embedding of Spike's cache simulator (riscv/cachesim.cc)

    The simulator tracks, for a stream of memory references, which lines are
    resident in a set-associative (or fully-associative) cache, under one of
    three replacement policies (random, LRU, FIFO), and forwards misses and
    dirty evictions to a next-level handler.

    Conventions of the embedding:
    - [uint64_t] and [size_t] values are [Z] in [0, 2^64), with wrap-around
      written out ([wrap64]); [int] values are [Z] with two's-complement
      wrap-around ([wrap_int]);
    - arrays are lists, read and written through [rd] and [wr], which fail
      out of range; a call that would have undefined behaviour in C++ (an
      out-of-range index, a remainder by zero, a null dereference) is [None];
    - a [uint64_t*] returned by [check_tag] is a [way_ptr];
    - the next-level handler is abstract: any state type [H] with an access
      function, so that levels compose into a hierarchy. *)

From Stdlib Require Import ZArith Lia String Ascii QArith.
From stdpp Require Import base option list.

Local Open Scope Z_scope.

(** ** Machine integers *)

Definition wrap64 (x : Z) : Z := x mod 2 ^ 64.

(** [int] arithmetic: overflow wraps, as on the usual two's-complement
    targets. *)
Definition wrap_int (x : Z) : Z := (x + 2 ^ 31) mod 2 ^ 32 - 2 ^ 31.

(** [~x] on a [uint64_t]. *)
Definition not64 (x : Z) : Z := wrap64 (Z.lnot x).

(** [x << n] on a [uint64_t]. *)
Definition shl64 (x n : Z) : Z := wrap64 (Z.shiftl x n).

(** Modelled from the spec: the two reserved flag bits packed into a tag
    word.  Their declarations are in cachesim.h, which is not among the
    sources at hand; they are the two top bits of the word, above every
    line address of a line of at least eight bytes. *)
Definition VALID : Z := 2 ^ 63.
Definition DIRTY : Z := 2 ^ 62.

(** ** Arrays *)

Definition rd (a : list Z) (k : Z) : option Z := a !! Z.to_nat k.

Definition wr (a : list Z) (k v : Z) : option (list Z) :=
  if k <? Z.of_nat (length a) then Some (<[Z.to_nat k := v]> a) else None.

(** ** The external pseudo-random generator *)

(** Modelled from the spec: the generator is an opaque source that produces
    an unsigned integer on demand (its class is declared in cachesim.h).  Its
    state is the sequence of the draws to come and the number of draws
    made. *)
Record lfsr_t := mk_lfsr { draws : nat -> N; drawn : nat }.

Definition lfsr_next (l : lfsr_t) : Z * lfsr_t :=
  (Z.of_N (draws l (drawn l)), mk_lfsr (draws l) (S (drawn l))).

(** ** The dynamic tag map of the fully-associative variant *)

(** Modelled from the spec: a dynamic associative structure keyed by line
    tag (its declaration is in cachesim.h); entries are kept in increasing
    key order, the order in which an ordered map is traversed. *)
Definition tagmap := list (Z * Z).

Fixpoint tm_find (k : Z) (m : tagmap) : option Z :=
  match m with
  | [] => None
  | (k', v) :: m' => if k =? k' then Some v else tm_find k m'
  end.

Fixpoint tm_put (k v : Z) (m : tagmap) : tagmap :=
  match m with
  | [] => [(k, v)]
  | (k', v') :: m' =>
      if k <? k' then (k, v) :: m
      else if k =? k' then (k, v) :: m'
      else (k', v') :: tm_put k v m'
  end.

(** ** The active policy *)

(** [policy] is process-wide storage shared by all cache instances: every
    operation takes it as an argument.  [policy_is p s] is [!strcmp(p, s)]. *)
Definition policy_is (policy s : string) : bool := String.eqb policy s.

(** ** Observable events of one access *)

Inductive event :=
| MissTrace (name : string) (store : bool) (addr : Z)
| Forward (addr bytes : Z) (store : bool).

Definition forwards (tr : list event) : list (Z * Z * bool) :=
  omap (fun e => match e with
                 | Forward a b s => Some (a, b, s)
                 | MissTrace _ _ _ => None
                 end) tr.

(** A pointer to a tag word: into the tag array, or to the value of an
    entry of the tag map. *)
Inductive way_ptr :=
| InArray (k : Z)
| InMap (key : Z).

(** ** Construction outcomes *)

Inductive construction (A : Type) :=
| Exit (err : list string) (status : Z)
| Built (a : A).
Arguments Exit {A} err status.
Arguments Built {A} a.

Definition help_text : list string :=
  [ "Cache configurations must be of the form";
    "  sets:ways:blocksize";
    "where sets, ways, and blocksize are positive integers, with";
    "sets and blocksize both powers of two and blocksize at least 8." ]%string.

Definition help {A : Type} : construction A := Exit help_text 1.

(** The loop of [init] that counts the halvings of the line size. *)
Fixpoint idx_shift_loop (fuel : nat) (x acc : Z) : Z :=
  match fuel with
  | O => acc
  | S fuel' =>
      if 1 <? x then idx_shift_loop fuel' (Z.shiftr x 1) (acc + 1) else acc
  end.

(** The geometry that the usage text asks for, in the spec's words: a
    number of sets and a line size that are powers of two, the line size
    at least 8. *)
Definition power_of_two (n : Z) : Prop := exists k, 0 <= k /\ n = 2 ^ k.

Definition valid_geometry (sets linesz : Z) : Prop :=
  power_of_two sets /\ power_of_two linesz /\ 8 <= linesz.

Section Model.

Context {H : Type}.

(** ** The cache object

    [fa_tags] is [Some m] for an object of class [fa_cache_sim_t], whose tag
    map is [m], and [None] for an object of class [cache_sim_t]. *)
Record cache_sim_t := mk_cache {
  sets : Z;
  ways : Z;
  linesz : Z;
  idx_shift : Z;
  name : string;
  log : bool;
  lfsr : lfsr_t;
  tags : list Z;
  LRUCount : Z;
  FIFOCount : Z;
  LRUTime : list Z;
  FIFOTime : list Z;
  read_accesses : Z;
  read_misses : Z;
  bytes_read : Z;
  write_accesses : Z;
  write_misses : Z;
  bytes_written : Z;
  writebacks : Z;
  miss_handler : option H;
  fa_tags : option tagmap
}.

Definition set_lfsr (v : lfsr_t) (c : cache_sim_t) : cache_sim_t :=
  mk_cache (sets c) (ways c) (linesz c) (idx_shift c) (name c) (log c)
    v (tags c) (LRUCount c) (FIFOCount c) (LRUTime c) (FIFOTime c)
    (read_accesses c) (read_misses c) (bytes_read c) (write_accesses c)
    (write_misses c) (bytes_written c) (writebacks c) (miss_handler c)
    (fa_tags c).

Definition set_tags (v : list Z) (c : cache_sim_t) : cache_sim_t :=
  mk_cache (sets c) (ways c) (linesz c) (idx_shift c) (name c) (log c)
    (lfsr c) v (LRUCount c) (FIFOCount c) (LRUTime c) (FIFOTime c)
    (read_accesses c) (read_misses c) (bytes_read c) (write_accesses c)
    (write_misses c) (bytes_written c) (writebacks c) (miss_handler c)
    (fa_tags c).

Definition set_LRUCount (v : Z) (c : cache_sim_t) : cache_sim_t :=
  mk_cache (sets c) (ways c) (linesz c) (idx_shift c) (name c) (log c)
    (lfsr c) (tags c) v (FIFOCount c) (LRUTime c) (FIFOTime c)
    (read_accesses c) (read_misses c) (bytes_read c) (write_accesses c)
    (write_misses c) (bytes_written c) (writebacks c) (miss_handler c)
    (fa_tags c).

Definition set_FIFOCount (v : Z) (c : cache_sim_t) : cache_sim_t :=
  mk_cache (sets c) (ways c) (linesz c) (idx_shift c) (name c) (log c)
    (lfsr c) (tags c) (LRUCount c) v (LRUTime c) (FIFOTime c)
    (read_accesses c) (read_misses c) (bytes_read c) (write_accesses c)
    (write_misses c) (bytes_written c) (writebacks c) (miss_handler c)
    (fa_tags c).

Definition set_LRUTime (v : list Z) (c : cache_sim_t) : cache_sim_t :=
  mk_cache (sets c) (ways c) (linesz c) (idx_shift c) (name c) (log c)
    (lfsr c) (tags c) (LRUCount c) (FIFOCount c) v (FIFOTime c)
    (read_accesses c) (read_misses c) (bytes_read c) (write_accesses c)
    (write_misses c) (bytes_written c) (writebacks c) (miss_handler c)
    (fa_tags c).

Definition set_FIFOTime (v : list Z) (c : cache_sim_t) : cache_sim_t :=
  mk_cache (sets c) (ways c) (linesz c) (idx_shift c) (name c) (log c)
    (lfsr c) (tags c) (LRUCount c) (FIFOCount c) (LRUTime c) v
    (read_accesses c) (read_misses c) (bytes_read c) (write_accesses c)
    (write_misses c) (bytes_written c) (writebacks c) (miss_handler c)
    (fa_tags c).

Definition set_read_accesses (v : Z) (c : cache_sim_t) : cache_sim_t :=
  mk_cache (sets c) (ways c) (linesz c) (idx_shift c) (name c) (log c)
    (lfsr c) (tags c) (LRUCount c) (FIFOCount c) (LRUTime c) (FIFOTime c)
    v (read_misses c) (bytes_read c) (write_accesses c)
    (write_misses c) (bytes_written c) (writebacks c) (miss_handler c)
    (fa_tags c).

Definition set_read_misses (v : Z) (c : cache_sim_t) : cache_sim_t :=
  mk_cache (sets c) (ways c) (linesz c) (idx_shift c) (name c) (log c)
    (lfsr c) (tags c) (LRUCount c) (FIFOCount c) (LRUTime c) (FIFOTime c)
    (read_accesses c) v (bytes_read c) (write_accesses c)
    (write_misses c) (bytes_written c) (writebacks c) (miss_handler c)
    (fa_tags c).

Definition set_bytes_read (v : Z) (c : cache_sim_t) : cache_sim_t :=
  mk_cache (sets c) (ways c) (linesz c) (idx_shift c) (name c) (log c)
    (lfsr c) (tags c) (LRUCount c) (FIFOCount c) (LRUTime c) (FIFOTime c)
    (read_accesses c) (read_misses c) v (write_accesses c)
    (write_misses c) (bytes_written c) (writebacks c) (miss_handler c)
    (fa_tags c).

Definition set_write_accesses (v : Z) (c : cache_sim_t) : cache_sim_t :=
  mk_cache (sets c) (ways c) (linesz c) (idx_shift c) (name c) (log c)
    (lfsr c) (tags c) (LRUCount c) (FIFOCount c) (LRUTime c) (FIFOTime c)
    (read_accesses c) (read_misses c) (bytes_read c) v
    (write_misses c) (bytes_written c) (writebacks c) (miss_handler c)
    (fa_tags c).

Definition set_write_misses (v : Z) (c : cache_sim_t) : cache_sim_t :=
  mk_cache (sets c) (ways c) (linesz c) (idx_shift c) (name c) (log c)
    (lfsr c) (tags c) (LRUCount c) (FIFOCount c) (LRUTime c) (FIFOTime c)
    (read_accesses c) (read_misses c) (bytes_read c) (write_accesses c)
    v (bytes_written c) (writebacks c) (miss_handler c)
    (fa_tags c).

Definition set_bytes_written (v : Z) (c : cache_sim_t) : cache_sim_t :=
  mk_cache (sets c) (ways c) (linesz c) (idx_shift c) (name c) (log c)
    (lfsr c) (tags c) (LRUCount c) (FIFOCount c) (LRUTime c) (FIFOTime c)
    (read_accesses c) (read_misses c) (bytes_read c) (write_accesses c)
    (write_misses c) v (writebacks c) (miss_handler c)
    (fa_tags c).

Definition set_writebacks (v : Z) (c : cache_sim_t) : cache_sim_t :=
  mk_cache (sets c) (ways c) (linesz c) (idx_shift c) (name c) (log c)
    (lfsr c) (tags c) (LRUCount c) (FIFOCount c) (LRUTime c) (FIFOTime c)
    (read_accesses c) (read_misses c) (bytes_read c) (write_accesses c)
    (write_misses c) (bytes_written c) v (miss_handler c)
    (fa_tags c).

Definition set_miss_handler (v : option H) (c : cache_sim_t) : cache_sim_t :=
  mk_cache (sets c) (ways c) (linesz c) (idx_shift c) (name c) (log c)
    (lfsr c) (tags c) (LRUCount c) (FIFOCount c) (LRUTime c) (FIFOTime c)
    (read_accesses c) (read_misses c) (bytes_read c) (write_accesses c)
    (write_misses c) (bytes_written c) (writebacks c) v
    (fa_tags c).

Definition set_fa_tags (v : option tagmap) (c : cache_sim_t) : cache_sim_t :=
  mk_cache (sets c) (ways c) (linesz c) (idx_shift c) (name c) (log c)
    (lfsr c) (tags c) (LRUCount c) (FIFOCount c) (LRUTime c) (FIFOTime c)
    (read_accesses c) (read_misses c) (bytes_read c) (write_accesses c)
    (write_misses c) (bytes_written c) (writebacks c) (miss_handler c)
    v.

(** ** Construction: [cache_sim_t::cache_sim_t] and [cache_sim_t::init]

    [gen] is the generator the object is born with. *)

Definition init (gen : lfsr_t) (sets ways linesz : Z) (name : string)
  : construction cache_sim_t :=
  if (sets =? 0) || negb (Z.land sets (wrap64 (sets - 1)) =? 0) then help
  else if (linesz <? 8) || negb (Z.land linesz (wrap64 (linesz - 1)) =? 0)
  then help
  else
    let cells := Z.to_nat (wrap64 (sets * ways)) in
    Built (mk_cache sets ways linesz (idx_shift_loop 64 linesz 0) name false
             gen
             (replicate cells 0) 0 0 (replicate cells 0) (replicate cells 0)
             0 0 0 0 0 0 0 None None).

(** ** Address decomposition *)

Definition set_index (c : cache_sim_t) (addr : Z) : Z :=
  Z.land (Z.shiftr addr (idx_shift c)) (wrap64 (sets c - 1)).

Definition line_tag (c : cache_sim_t) (addr : Z) : Z :=
  Z.lor (Z.shiftr addr (idx_shift c)) VALID.

(** [idx*ways + i], in [size_t] arithmetic. *)
Definition slot (c : cache_sim_t) (idx i : Z) : Z :=
  wrap64 (idx * ways c + i).

(** The storage of an object agrees with its geometry: what [init]
    establishes for a positive number of ways, and every operation keeps. *)
Definition geometry_ok (c : cache_sim_t) : bool :=
  (0 <? ways c) && (0 <? sets c) && (sets c * ways c <? 2 ^ 64)
  && (3 <=? idx_shift c) && (idx_shift c <? 64)
  && (linesz c =? 2 ^ idx_shift c)
  && (Z.of_nat (length (tags c)) =? sets c * ways c)
  && (Z.of_nat (length (LRUTime c)) =? sets c * ways c)
  && (Z.of_nat (length (FIFOTime c)) =? sets c * ways c).

(** The same, as a proposition. *)
Record geometry (c : cache_sim_t) : Prop := {
  geo_ways : 0 < ways c;
  geo_sets : 0 < sets c;
  geo_cells : sets c * ways c < 2 ^ 64;
  geo_shift : 3 <= idx_shift c < 64;
  geo_linesz : linesz c = 2 ^ idx_shift c;
  geo_tags : Z.of_nat (length (tags c)) = sets c * ways c;
  geo_lru : Z.of_nat (length (LRUTime c)) = sets c * ways c;
  geo_fifo : Z.of_nat (length (FIFOTime c)) = sets c * ways c
}.

(** The stamp that a hit leaves under the LRU policy. *)
Definition stamp_hit (policy : string) (c : cache_sim_t) (k : Z)
  : cache_sim_t :=
  if policy_is policy "L"
  then set_LRUTime (<[Z.to_nat k := LRUCount c]> (LRUTime c)) c
  else c.

(** ** Tag lookup *)

(** The scan of [cache_sim_t::check_tag]: [n] iterations are left, the
    next one looks at way [i]. *)
Fixpoint check_tag_loop (policy : string) (c : cache_sim_t) (idx tag : Z)
    (n : nat) (i : Z) : option (cache_sim_t * option way_ptr) :=
  match n with
  | O => Some (c, None)
  | S n' =>
      t ← rd (tags c) (slot c idx i);
      if tag =? Z.land t (not64 DIRTY) then
        c' ← (if policy_is policy "L"
              then a ← wr (LRUTime c) (slot c idx i) (LRUCount c);
                   Some (set_LRUTime a c)
              else Some c);
        Some (c', Some (InArray (slot c idx i)))
      else check_tag_loop policy c idx tag n' (i + 1)
  end.

Definition cache_sim_t_check_tag (policy : string) (c : cache_sim_t)
    (addr : Z) : option (cache_sim_t * option way_ptr) :=
  check_tag_loop policy c (set_index c addr) (line_tag c addr)
    (Z.to_nat (ways c)) 0.

Definition fa_cache_sim_t_check_tag (m : tagmap) (c : cache_sim_t)
    (addr : Z) : option (cache_sim_t * option way_ptr) :=
  let key := Z.shiftr addr (idx_shift c) in
  match tm_find key m with
  | Some _ => Some (c, Some (InMap key))
  | None => Some (c, None)
  end.

(** The virtual call [check_tag(addr)]. *)
Definition check_tag (policy : string) (c : cache_sim_t) (addr : Z)
  : option (cache_sim_t * option way_ptr) :=
  match fa_tags c with
  | None => cache_sim_t_check_tag policy c addr
  | Some m => fa_cache_sim_t_check_tag m c addr
  end.

(** [*p |= DIRTY]. *)
Definition or_dirty (p : way_ptr) (c : cache_sim_t) : option cache_sim_t :=
  match p with
  | InArray k =>
      t ← rd (tags c) k;
      a ← wr (tags c) k (Z.lor t DIRTY);
      Some (set_tags a c)
  | InMap key =>
      m ← fa_tags c;
      t ← tm_find key m;
      Some (set_fa_tags (Some (tm_put key (Z.lor t DIRTY) m)) c)
  end.

(** ** Victim selection *)

Definition cache_sim_t_victimize (c : cache_sim_t) (addr : Z)
  : option (cache_sim_t * Z) :=
  let idx := set_index c addr in
  let '(r, g) := lfsr_next (lfsr c) in
  let c := set_lfsr g c in
  if ways c =? 0 then None
  else
    let way := r mod ways c in
    victim ← rd (tags c) (slot c idx way);
    a ← wr (tags c) (slot c idx way) (line_tag c addr);
    Some (set_tags a c, victim).

Definition fa_cache_sim_t_victimize (m : tagmap) (c : cache_sim_t) (addr : Z)
  : option (cache_sim_t * Z) :=
  let key := Z.shiftr addr (idx_shift c) in
  '(c, m, old_tag) ←
    (if Z.of_nat (length m) =? ways c then
       let '(r, g) := lfsr_next (lfsr c) in
       let c := set_lfsr g c in
       if ways c =? 0 then None
       else
         let pos := Z.to_nat (r mod ways c) in
         e ← m !! pos;
         Some (c, delete pos m, snd e)
     else Some (c, m, 0));
  Some (set_fa_tags (Some (tm_put key (Z.lor key VALID) m)) c, old_tag).

(** The virtual call [victimize(addr)]. *)
Definition victimize (c : cache_sim_t) (addr : Z) : option (cache_sim_t * Z) :=
  match fa_tags c with
  | None => cache_sim_t_victimize c addr
  | Some m => fa_cache_sim_t_victimize m c addr
  end.

(** The first loop of [LRU] and of [FIFO]: the first way of the set whose
    tag word is zero, if there is one. *)
Fixpoint first_empty (c : cache_sim_t) (idx : Z) (n : nat) (i : Z)
  : option (option Z) :=
  match n with
  | O => Some None
  | S n' =>
      t ← rd (tags c) (slot c idx i);
      if t =? 0 then Some (Some i) else first_empty c idx n' (i + 1)
  end.

(** The second loop of [LRU] and of [FIFO], over the stamp array [time]:
    [way] is the best way so far and [count] its stamp. *)
Fixpoint oldest (c : cache_sim_t) (time : list Z) (idx : Z) (n : nat)
    (i way count : Z) : option Z :=
  match n with
  | O => Some way
  | S n' =>
      t ← rd time (slot c idx i);
      if t <? count then oldest c time idx n' (i + 1) i t
      else oldest c time idx n' (i + 1) way count
  end.

Definition LRU (c : cache_sim_t) (addr : Z) : option (cache_sim_t * Z) :=
  let idx := set_index c addr in
  e ← first_empty c idx (Z.to_nat (ways c)) 0;
  '(c, way) ←
    match e with
    | Some i =>
        a ← wr (LRUTime c) (slot c idx i) (LRUCount c);
        Some (set_LRUCount (wrap_int (LRUCount c + 1)) (set_LRUTime a c), i)
    | None =>
        way ← oldest c (LRUTime c) idx (Z.to_nat (ways c)) 0 0 2147483647;
        Some (c, way)
    end;
  victim ← rd (tags c) (slot c idx way);
  a ← wr (LRUTime c) (slot c idx way) (LRUCount c);
  let c := set_LRUCount (wrap_int (LRUCount c + 1)) (set_LRUTime a c) in
  t ← wr (tags c) (slot c idx way) (line_tag c addr);
  Some (set_tags t c, victim).

Definition FIFO (c : cache_sim_t) (addr : Z) : option (cache_sim_t * Z) :=
  let idx := set_index c addr in
  e ← first_empty c idx (Z.to_nat (ways c)) 0;
  '(c, way) ←
    match e with
    | Some i =>
        a ← wr (FIFOTime c) (slot c idx i) (FIFOCount c);
        Some (set_FIFOTime a c, i)
    | None =>
        way ← oldest c (FIFOTime c) idx (Z.to_nat (ways c)) 0 0 2147483647;
        Some (c, way)
    end;
  victim ← rd (tags c) (slot c idx way);
  a ← wr (FIFOTime c) (slot c idx way) (FIFOCount c);
  let c := set_FIFOTime a c in
  t ← wr (tags c) (slot c idx way) (line_tag c addr);
  Some (set_tags t c, victim).

(** The policy dispatch of [access]; with none of the three policies
    active the victim stays 0 and nothing is installed. *)
Definition select_victim (policy : string) (c : cache_sim_t) (addr : Z)
  : option (cache_sim_t * Z) :=
  if policy_is policy "R" then victimize c addr
  else if policy_is policy "L" then LRU c addr
  else if policy_is policy "F" then FIFO c addr
  else Some (c, 0).

(** The state after a victim selection on the tag array: the new tag word
    is in cell [k]; the generator, the LRU counter and the two stamp arrays
    are as given; all else is as in [c]. *)
Definition installed (c : cache_sim_t) (k tag : Z) (g : lfsr_t) (n : Z)
    (a f : list Z) : cache_sim_t :=
  set_tags (<[Z.to_nat k := tag]> (tags c))
    (set_lfsr g (set_LRUCount n (set_LRUTime a (set_FIFOTime f c)))).

(** A set of two ways whose first way is empty and whose second holds the
    line of address 40, in a cache of one set and lines of eight bytes. *)
Definition half_full_set (gen : lfsr_t) : cache_sim_t :=
  mk_cache 1 2 8 3 "" false gen [0; Z.lor 5 VALID] 0 0 [0; 0] [0; 0]
    0 0 0 0 0 0 0 None None.

(** ** Access *)

(** The access function of the next level. *)
Context (next_access : H -> Z -> Z -> bool -> option H).

(** [if (miss_handler) miss_handler->access(addr, bytes, store)]. *)
Definition forward (c : cache_sim_t) (addr bytes : Z) (store : bool)
  : option (cache_sim_t * list event) :=
  match miss_handler c with
  | None => Some (c, [])
  | Some h =>
      h' ← next_access h addr bytes store;
      Some (set_miss_handler (Some h') c, [Forward addr bytes store])
  end.

Definition valid_dirty (victim : Z) : bool :=
  Z.land victim (Z.lor VALID DIRTY) =? Z.lor VALID DIRTY.

(** The policy counter and the access statistics, updated at the start of
    every access. *)
Definition count_access (policy : string) (c : cache_sim_t) (bytes : Z)
    (store : bool) : cache_sim_t :=
  let c := if policy_is policy "L"
           then set_LRUCount (wrap_int (LRUCount c + 1)) c else c in
  let c := if policy_is policy "F"
           then set_FIFOCount (wrap_int (FIFOCount c + 1)) c else c in
  let c := if store then set_write_accesses (wrap64 (write_accesses c + 1)) c
           else set_read_accesses (wrap64 (read_accesses c + 1)) c in
  if store then set_bytes_written (wrap64 (bytes_written c + bytes)) c
  else set_bytes_read (wrap64 (bytes_read c + bytes)) c.

Definition count_miss (c : cache_sim_t) (store : bool) : cache_sim_t :=
  if store then set_write_misses (wrap64 (write_misses c + 1)) c
  else set_read_misses (wrap64 (read_misses c + 1)) c.

Definition miss_trace (c : cache_sim_t) (addr : Z) (store : bool)
  : list event :=
  if log c then [MissTrace (name c) store addr] else [].

Definition dirty_addr (c : cache_sim_t) (victim : Z) : Z :=
  shl64 (Z.land victim (not64 (Z.lor VALID DIRTY))) (idx_shift c).

(** The write-back of the victim, when it is valid and dirty. *)
Definition writeback (c : cache_sim_t) (victim : Z)
  : option (cache_sim_t * list event) :=
  if valid_dirty victim then
    '(c, tr) ← forward c (dirty_addr c victim) (linesz c) true;
    Some (set_writebacks (wrap64 (writebacks c + 1)) c, tr)
  else Some (c, []).

(** The fill of the new line. *)
Definition fill (c : cache_sim_t) (addr : Z)
  : option (cache_sim_t * list event) :=
  forward c (Z.land addr (not64 (wrap64 (linesz c - 1)))) (linesz c) false.

(** [if (store) *check_tag(addr) |= DIRTY], at the end of a miss. *)
Definition mark_new_line (policy : string) (c : cache_sim_t) (addr : Z)
    (store : bool) : option cache_sim_t :=
  if store then
    '(c, p) ← check_tag policy c addr;
    match p with
    | Some p => or_dirty p c
    | None => None
    end
  else Some c.

Definition access (policy : string) (c : cache_sim_t) (addr bytes : Z)
    (store : bool) : option (cache_sim_t * list event) :=
  '(c, hit_way) ← check_tag policy (count_access policy c bytes store) addr;
  match hit_way with
  | Some p =>
      c ← (if store then or_dirty p c else Some c);
      Some (c, [])
  | None =>
      let c := count_miss c store in
      let tr_log := miss_trace c addr store in
      '(c, victim) ← select_victim policy c addr;
      '(c, tr_wb) ← writeback c victim;
      '(c, tr_fill) ← fill c addr;
      c ← mark_new_line policy c addr store;
      Some (c, tr_log ++ tr_wb ++ tr_fill)
  end.

(** A next level that serves every request: [Inv] holds of the states it
    goes through, and in such a state every access returns. *)
Definition serves (Inv : H -> Prop) : Prop :=
  forall h a b s, Inv h -> 0 <= a < 2 ^ 64 ->
    exists h', next_access h a b s = Some h' /\ Inv h'.

Definition handler_ok (Inv : H -> Prop) (c : cache_sim_t) : Prop :=
  forall h, miss_handler c = Some h -> Inv h.

(** A cache as the next level of another one. *)
Definition as_next_level (policy : string) (c : cache_sim_t)
    (addr bytes : Z) (store : bool) : option cache_sim_t :=
  '(c', _) ← access policy c addr bytes store; Some c'.

(** A trace of references, one after the other; the result carries the
    events of all of them, in order. *)
Fixpoint run (policy : string) (c : cache_sim_t)
    (refs : list (Z * Z * bool)) : option (cache_sim_t * list event) :=
  match refs with
  | [] => Some (c, [])
  | (addr, bytes, store) :: refs' =>
      '(c, tr) ← access policy c addr bytes store;
      '(c, tr') ← run policy c refs';
      Some (c, tr ++ tr')
  end.

Definition misses (c : cache_sim_t) : Z :=
  wrap64 (read_misses c + write_misses c).

(** The hit/miss sequence of a trace, read off the miss counters: [true]
    for a reference that left them as they were. *)
Fixpoint hit_sequence (policy : string) (c : cache_sim_t)
    (refs : list (Z * Z * bool)) : option (list bool) :=
  match refs with
  | [] => Some []
  | (addr, bytes, store) :: refs' =>
      '(c', _) ← access policy c addr bytes store;
      hs ← hit_sequence policy c' refs';
      Some ((misses c' =? misses c) :: hs)
  end.

(** ** Reporting *)

(** The quotient 100 * misses / accesses of [print_stats], as an exact
    rational; nothing is reported when there was no access.  [print_stats]
    computes the quotient in single precision, which rounds the counts, the
    product and the quotient: the two values agree where all of these are
    representable, as the counts 3 and 4 of the scenario below are, with
    300 and 75. *)
Definition miss_rate (c : cache_sim_t) : option Q :=
  if wrap64 (read_accesses c + write_accesses c) =? 0 then None
  else Some (Qmake (100 * misses c)
               (Z.to_pos (wrap64 (read_accesses c + write_accesses c)))).

End Model.

Arguments cache_sim_t H : clear implicits.

(** [fa_cache_sim_t::fa_cache_sim_t]: a [cache_sim_t] of one set, with an
    empty tag map. *)
Definition fa_init {H : Type} (gen : lfsr_t) (ways linesz : Z) (name : string)
  : construction (cache_sim_t H) :=
  match init gen 1 ways linesz name with
  | Built c => Built (set_fa_tags (Some []) c)
  | Exit err status => Exit err status
  end.

(** What [construct] does with the fields it has parsed from the
    configuration string. *)
Definition construct_parsed {H : Type} (gen : lfsr_t) (sets ways linesz : Z)
    (name : string) : construction (cache_sim_t H) :=
  if (4 <? ways) && (sets =? 1) then fa_init gen ways linesz name
  else init gen sets ways linesz name.

(** ** One set under LRU, as lists

    The cells of one set, as a window on the tag array and on the stamp
    array, and the scans of [check_tag] and [LRU] over the lists of the
    cells: the array code is related to them below. *)

Fixpoint scan_tag (tag : Z) (ts : list Z) (i : Z) : option Z :=
  match ts with
  | [] => None
  | t :: ts' =>
      if tag =? Z.land t (not64 DIRTY) then Some i
      else scan_tag tag ts' (i + 1)
  end.

Fixpoint scan_empty (ts : list Z) (i : Z) : option Z :=
  match ts with
  | [] => None
  | t :: ts' => if t =? 0 then Some i else scan_empty ts' (i + 1)
  end.

Fixpoint scan_oldest (ss : list Z) (i way count : Z) : Z :=
  match ss with
  | [] => way
  | s :: ss' =>
      if s <? count then scan_oldest ss' (i + 1) i s
      else scan_oldest ss' (i + 1) way count
  end.

(** One access under the LRU policy, on the tag words [ts] and the stamps
    [ss] of the target set, with the LRU counter at [cnt]: the new words,
    stamps and counter, and the victim of a miss. *)
Definition lru_set_access (tag : Z) (store : bool) (ts ss : list Z) (cnt : Z)
  : option (list Z * list Z * Z * option Z) :=
  let cnt := wrap_int (cnt + 1) in
  match scan_tag tag ts 0 with
  | Some j =>
      t ← ts !! Z.to_nat j;
      Some (if store then <[Z.to_nat j := Z.lor t DIRTY]> ts else ts,
            <[Z.to_nat j := cnt]> ss, cnt, None)
  | None =>
      let '(way, ss, cnt) :=
        match scan_empty ts 0 with
        | Some i => (i, <[Z.to_nat i := cnt]> ss, wrap_int (cnt + 1))
        | None => (scan_oldest ss 0 0 2147483647, ss, cnt)
        end in
      victim ← ts !! Z.to_nat way;
      let ss := <[Z.to_nat way := cnt]> ss in
      let cnt := wrap_int (cnt + 1) in
      let ts := <[Z.to_nat way := tag]> ts in
      if store then
        j ← scan_tag tag ts 0;
        t ← ts !! Z.to_nat j;
        Some (<[Z.to_nat j := Z.lor t DIRTY]> ts, <[Z.to_nat j := cnt]> ss,
              cnt, Some victim)
      else Some (ts, ss, cnt, Some victim)
  end.

(** A sequence of accesses to one set, given by their tags and
    directions: the final words, stamps and counter, and the victims. *)
Fixpoint lru_set_run (refs : list (Z * bool)) (ts ss : list Z) (cnt : Z)
  : option (list Z * list Z * Z * list (option Z)) :=
  match refs with
  | [] => Some (ts, ss, cnt, [])
  | (tag, store) :: refs' =>
      '(ts, ss, cnt, r) ← lru_set_access tag store ts ss cnt;
      '(ts, ss, cnt, rs) ← lru_set_run refs' ts ss cnt;
      Some (ts, ss, cnt, r :: rs)
  end.

(** What the scans need to know of the tag word [t] of a line: the word and
    its dirty form are not zero, and both compare as [t]. *)
Definition tag_word (t : Z) : Prop :=
  Z.land t (not64 DIRTY) = t /\
  Z.land (Z.lor t DIRTY) (not64 DIRTY) = t /\
  (t =? 0) = false /\ (Z.lor t DIRTY =? 0) = false.

(** [w] lists the cells of set [idx] in the array [l]. *)
Definition window {H : Type} (c : cache_sim_t H) (l : list Z) (idx : Z)
    (w : list Z) : Prop :=
  Z.of_nat (length w) = ways c /\
  forall i, 0 <= i < ways c -> rd l (slot c idx i) = w !! Z.to_nat i.

(** A last-level cache on the tag array, with its miss log off, whose set
    [idx] holds the tag words [ts] with the LRU stamps [ss], with its LRU
    counter at [cnt] and its access and miss counters as given. *)
Record lru_set {H : Type} (c : cache_sim_t H) (idx : Z) (ts ss : list Z)
    (cnt ra rm wa wm : Z) : Prop := {
  ls_geometry : geometry c;
  ls_array : fa_tags c = None;
  ls_last : miss_handler c = None;
  ls_quiet : log c = false;
  ls_tags : window c (tags c) idx ts;
  ls_stamps : window c (LRUTime c) idx ss;
  ls_count : LRUCount c = cnt;
  ls_read_accesses : read_accesses c = ra;
  ls_read_misses : read_misses c = rm;
  ls_write_accesses : write_accesses c = wa;
  ls_write_misses : write_misses c = wm
}.

(** ** Scenarios *)

(** The end of a hierarchy: no next level is attached, and none is called. *)
Definition last_level : unit -> Z -> Z -> bool -> option unit :=
  fun _ _ _ _ => None.

(** A next level that records the requests it receives. *)
Definition recorder (h : list (Z * Z * bool)) (addr bytes : Z) (store : bool)
  : option (list (Z * Z * bool)) :=
  Some (h ++ [(addr, bytes, store)]).

(** A generator whose draws are all [d]. *)
Definition constant_draws (d : N) : lfsr_t := mk_lfsr (fun _ => d) 0.

(** The object of a construction that succeeds. *)
Definition built {A : Type} (r : construction A) : option A :=
  match r with
  | Built a => Some a
  | Exit _ _ => None
  end.

(** A fresh last-level cache of one set of two ways, with lines of eight
    bytes. *)
Definition fresh_two_ways : cache_sim_t unit :=
  mk_cache 1 2 8 3 "" false (constant_draws 0) [0; 0] 0 0 [0; 0] [0; 0]
    0 0 0 0 0 0 0 None None.

(** The same cache after one read of address 0 under LRU. *)
Definition warm_two_ways : cache_sim_t unit :=
  mk_cache 1 2 8 3 "" false (constant_draws 0) [Z.lor 0 VALID; 0] 3 0
    [2; 0] [0; 0] 1 1 1 0 0 0 0 None None.

(** A fresh last-level cache of one set of four ways. *)
Definition fresh_four_ways : cache_sim_t unit :=
  mk_cache 1 4 8 3 "" false (constant_draws 0) [0; 0; 0; 0] 0 0 [0; 0; 0; 0]
    [0; 0; 0; 0] 0 0 0 0 0 0 0 None None.

(** A cache of one way whose line, of line address 5, is dirty, with a
    recorder as its next level. *)
Definition dirty_line : cache_sim_t (list (Z * Z * bool)) :=
  mk_cache 1 1 8 3 "" false (constant_draws 0) [Z.lor (Z.lor 5 VALID) DIRTY]
    0 0 [0] [0] 0 0 0 0 0 0 0 (Some []) None.

(** Reads of one byte at the given addresses. *)
Definition reads (addrs : list Z) : list (Z * Z * bool) :=
  map (fun a => (a, 1, false)) addrs.

(** ** Measures of a trace and of the tag array *)

(** The number of references of a trace in one direction, and the bytes
    they ask for. *)
Fixpoint references (store : bool) (refs : list (Z * Z * bool)) : Z :=
  match refs with
  | [] => 0
  | (_, _, s) :: refs' => Z.b2z (eqb s store) + references store refs'
  end.

Fixpoint bytes_of (store : bool) (refs : list (Z * Z * bool)) : Z :=
  match refs with
  | [] => 0
  | (_, b, s) :: refs' =>
      (if eqb s store then b else 0) + bytes_of store refs'
  end.

(** The number of tag words that are valid and dirty. *)
Fixpoint dirty_lines (l : list Z) : Z :=
  match l with
  | [] => 0
  | t :: l' => Z.b2z (valid_dirty t) + dirty_lines l'
  end.

(** The keys of a tag map are in increasing order, as the entries of an
    ordered map are when it is traversed. *)
Fixpoint tm_sorted (m : tagmap) : Prop :=
  match m with
  | [] => True
  | (k, _) :: m' => Forall (fun e : Z * Z => k < e.1) m' /\ tm_sorted m'
  end.

(** ** The configuration string

    A C string is the string of its characters; a pointer into it is the
    part of the string that starts there. *)

(** [strchr(s, ch)]: the string from the first [ch] on, if there is one. *)
Fixpoint strchr (s : string) (ch : ascii) : option string :=
  match s with
  | EmptyString => None
  | String a s' => if Ascii.eqb a ch then Some s else strchr s' ch
  end.

(** [p + 1], for a pointer to a character. *)
Definition next_char (p : string) : string :=
  match p with
  | String _ p' => p'
  | EmptyString => EmptyString
  end.

(** [std::string(p, q)], for a pointer [q] into the string at [p]: the
    characters from [p] up to [q]. *)
Definition range (p q : string) : string :=
  substring 0 (String.length p - String.length q) p.

Definition isspace (a : ascii) : bool :=
  let n := nat_of_ascii a in
  Nat.eqb n 32 || (Nat.leb 9 n && Nat.leb n 13).

Definition digit_of (a : ascii) : option Z :=
  let n := Z.of_nat (nat_of_ascii a) in
  if (48 <=? n) && (n <=? 57) then Some (n - 48) else None.

Fixpoint skip_spaces (s : string) : string :=
  match s with
  | String a s' => if isspace a then skip_spaces s' else s
  | EmptyString => s
  end.

Fixpoint atoi_digits (s : string) (acc : Z) : Z :=
  match s with
  | String a s' =>
      match digit_of a with
      | Some d => atoi_digits s' (10 * acc + d)
      | None => acc
      end
  | EmptyString => acc
  end.

(** The C library's [atoi]: white space, an optional sign, and decimal
    digits up to the first character that is not one; the result is not
    defined when it does not fit an [int]. *)
Definition atoi (s : string) : option Z :=
  let s := skip_spaces s in
  let '(neg, s) :=
    match s with
    | String "-" s' => (true, s')
    | String "+" s' => (false, s')
    | _ => (false, s)
    end in
  let v := atoi_digits s 0 in
  let v := if neg then - v else v in
  if (- 2 ^ 31 <=? v) && (v <? 2 ^ 31) then Some v else None.

(** [cache_sim_t::construct]: the object, or the exit of [help], and the
    policy string that the call leaves in the process-wide [policy].  The
    three numbers are converted from [int] to [size_t].  Without a third
    separator, [cp] is null and is dereferenced. *)
Definition construct {H : Type} (gen : lfsr_t) (policy config name : string)
  : option (construction (cache_sim_t H) * string) :=
  match strchr config ":" with
  | None => Some (help, policy)
  | Some w =>
      let wp := next_char w in
      match strchr wp ":" with
      | None => Some (help, policy)
      | Some b =>
          let bp := next_char b in
          cp ← strchr bp ":";
          sets ← atoi (range config wp);
          ways ← atoi (range wp bp);
          linesz ← atoi (range bp cp);
          let policy :=
            match next_char cp with
            | String a _ => String a EmptyString
            | EmptyString => EmptyString
            end in
          Some (construct_parsed gen (wrap64 sets) (wrap64 ways)
                  (wrap64 linesz) name, policy)
      end
  end.

(** A decimal numeral, from its digits, and its value. *)
Definition digit_char (d : Z) : ascii := ascii_of_nat (Z.to_nat (48 + d)).

Definition numeral (ds : list Z) : string :=
  foldr (fun d s => String (digit_char d) s) EmptyString ds.

Definition numeral_value (ds : list Z) : Z :=
  fold_left (fun acc d => 10 * acc + d) ds 0.

(** No line is in two ways of a set: a valid tag word matches no other
    word of its set. *)
Definition lines_distinct {H : Type} (c : cache_sim_t H) : Prop :=
  forall idx i j t t',
    0 <= idx < sets c -> 0 <= i < ways c -> 0 <= j < ways c -> i <> j ->
    rd (tags c) (slot c idx i) = Some t ->
    rd (tags c) (slot c idx j) = Some t' ->
    Z.testbit t 63 = true ->
    Z.land t (not64 DIRTY) <> Z.land t' (not64 DIRTY).

(** A set of two ways that holds the lines of addresses 8 and 16, the
    first one touched last and installed first. *)
Definition full_two_ways : cache_sim_t unit :=
  mk_cache 1 2 8 3 "" false (constant_draws 0)
    [Z.lor 1 VALID; Z.lor 2 VALID] 6 2 [5; 3] [1; 2]
    3 2 3 0 0 0 0 None None.

(** A fully-associative object of eight ways, as [construct] builds it. *)
Definition fresh_fully_associative : cache_sim_t unit :=
  mk_cache 1 8 64 6 "" false (constant_draws 0) (replicate 8 0) 0 0
    (replicate 8 0) (replicate 8 0) 0 0 0 0 0 0 0 None (Some []).

(** A first level of one way over a second level of two ways. *)
Definition two_levels : cache_sim_t (cache_sim_t unit) :=
  mk_cache 1 1 8 3 "" false (constant_draws 0) [0] 0 0 [0] [0]
    0 0 0 0 0 0 0 (Some fresh_two_ways) None.

(** A fresh last-level cache of four sets of two ways, with lines of 64
    bytes, as [init] builds it. *)
Definition fresh_four_sets : cache_sim_t unit :=
  mk_cache 4 2 64 6 "" false (constant_draws 0) (replicate 8 0) 0 0
    (replicate 8 0) (replicate 8 0) 0 0 0 0 0 0 0 None None.

(** * Properties *)

(** ** Machine integers and flag bits *)

Lemma wrap64_small (x : Z) : 0 <= x < 2 ^ 64 -> wrap64 x = x.
Proof. intros Hx. unfold wrap64. now apply Z.mod_small. Qed.

Lemma wrap64_range (x : Z) : 0 <= wrap64 x < 2 ^ 64.
Proof. unfold wrap64. apply Z.mod_pos_bound. lia. Qed.

Lemma land_le_r (a b : Z) : 0 <= b -> Z.land a b <= b.
Proof.
  intros Hb.
  assert (Hsplit : Z.land a b + Z.ldiff b a = b).
  { rewrite Z.add_nocarry_lxor.
    - apply Z.bits_inj'. intros n Hn.
      rewrite Z.lxor_spec, Z.land_spec, Z.ldiff_spec.
      destruct (Z.testbit a n), (Z.testbit b n); reflexivity.
    - apply Z.bits_inj'. intros n Hn.
      rewrite !Z.land_spec, Z.ldiff_spec, Z.bits_0.
      destruct (Z.testbit a n), (Z.testbit b n); reflexivity. }
  assert (0 <= Z.ldiff b a) by (apply Z.ldiff_nonneg; lia).
  lia.
Qed.

Lemma land_le_l (a b : Z) : 0 <= a -> Z.land a b <= a.
Proof. intros Ha. rewrite Z.land_comm. now apply land_le_r. Qed.

Lemma not64_testbit (x n : Z) :
  0 <= n -> Z.testbit (not64 x) n = (n <? 64) && negb (Z.testbit x n).
Proof.
  intros Hn. unfold not64, wrap64.
  rewrite Z.testbit_mod_pow2 by lia. now rewrite Z.lnot_spec by lia.
Qed.

Lemma testbit_above (x k n : Z) :
  0 <= x < 2 ^ k -> k <= n -> Z.testbit x n = false.
Proof.
  intros [Hx0 Hxk] Hn.
  destruct (Z.eq_dec x 0) as [->|Hne]; [apply Z.bits_0|].
  apply Z.bits_above_log2; [lia|].
  assert (Z.log2 x < k); [|lia].
  apply Z.log2_lt_pow2; lia.
Qed.

(** Rewriting of the bits of a tag word, for a bit position [n] known to be
    non-negative. *)
Ltac tag_bits n Hn :=
  unfold VALID, DIRTY;
  repeat first
    [ rewrite Z.land_spec | rewrite Z.lor_spec
    | rewrite (not64_testbit _ n Hn)
    | rewrite (Z.pow2_bits_eqb 63 n) by lia
    | rewrite (Z.pow2_bits_eqb 62 n) by lia ].

Lemma tag_word_clean (x : Z) :
  0 <= x < 2 ^ 61 -> Z.land (Z.lor x VALID) (not64 DIRTY) = Z.lor x VALID.
Proof.
  intros Hx. apply Z.bits_inj'. intros n Hn. tag_bits n Hn.
  destruct (Z.ltb_spec n 64), (Z.eqb_spec 62 n), (Z.eqb_spec 63 n);
    try lia; rewrite ?(testbit_above x 61 n) by lia; simpl;
    rewrite ?andb_true_r, ?andb_false_r, ?orb_false_r; reflexivity.
Qed.

Lemma tag_word_dirty_clean (x : Z) :
  0 <= x < 2 ^ 61 ->
  Z.land (Z.lor (Z.lor x VALID) DIRTY) (not64 DIRTY) = Z.lor x VALID.
Proof.
  intros Hx. apply Z.bits_inj'. intros n Hn. tag_bits n Hn.
  destruct (Z.ltb_spec n 64), (Z.eqb_spec 62 n), (Z.eqb_spec 63 n);
    try lia; rewrite ?(testbit_above x 61 n) by lia; simpl;
    rewrite ?andb_true_r, ?andb_false_r, ?orb_false_r; reflexivity.
Qed.

Lemma tag_word_strip (x : Z) :
  0 <= x < 2 ^ 61 ->
  Z.land (Z.lor (Z.lor x VALID) DIRTY) (not64 (Z.lor VALID DIRTY)) = x.
Proof.
  intros Hx. apply Z.bits_inj'. intros n Hn. tag_bits n Hn.
  destruct (Z.ltb_spec n 64), (Z.eqb_spec 62 n), (Z.eqb_spec 63 n);
    try lia; rewrite ?(testbit_above x 61 n) by lia; simpl;
    rewrite ?andb_true_r, ?andb_false_r, ?orb_false_r; reflexivity.
Qed.

Lemma tag_word_valid (x : Z) : 0 <= x -> 2 ^ 63 <= Z.lor x VALID.
Proof.
  intros Hx.
  assert (Hv : Z.land (Z.lor x VALID) VALID = VALID).
  { apply Z.bits_inj'. intros n Hn. rewrite Z.land_spec, Z.lor_spec.
    destruct (Z.testbit x n), (Z.testbit VALID n); reflexivity. }
  assert (0 <= Z.lor x VALID) by (apply Z.lor_nonneg; unfold VALID; lia).
  pose proof (land_le_l (Z.lor x VALID) VALID). unfold VALID in *. lia.
Qed.

Lemma tag_word_inj (x y : Z) :
  0 <= x < 2 ^ 61 -> 0 <= y < 2 ^ 61 ->
  Z.lor x VALID = Z.lor y VALID -> x = y.
Proof.
  intros Hx Hy Heq. apply Z.bits_inj'. intros n Hn.
  apply (f_equal (fun z => Z.testbit z n)) in Heq.
  revert Heq. tag_bits n Hn.
  destruct (Z.eqb_spec 63 n) as [<-|Hne].
  - now rewrite !(testbit_above _ 61 63) by lia.
  - now rewrite !orb_false_r.
Qed.

Lemma line_address_range (addr s : Z) :
  0 <= addr < 2 ^ 64 -> 3 <= s -> 0 <= Z.shiftr addr s < 2 ^ 61.
Proof.
  intros Ha Hs. rewrite Z.shiftr_div_pow2 by lia.
  assert (0 < 2 ^ s) by (apply Z.pow_pos_nonneg; lia).
  split; [apply Z.div_pos; lia|].
  apply Z.div_lt_upper_bound; [lia|].
  assert (2 ^ 3 <= 2 ^ s) by (apply Z.pow_le_mono_r; lia).
  change (2 ^ 64) with (2 ^ 3 * 2 ^ 61) in Ha. nia.
Qed.

(** ** Arrays *)

Lemma rd_wr_same (a a' : list Z) (k v : Z) :
  0 <= k -> wr a k v = Some a' -> rd a' k = Some v.
Proof.
  unfold wr, rd. intros Hk. destruct (Z.ltb_spec k (Z.of_nat (length a)));
    [|discriminate].
  intros [= <-]. apply list_lookup_insert_eq. lia.
Qed.

Lemma rd_wr_other (a a' : list Z) (k k' v : Z) :
  0 <= k -> 0 <= k' -> k <> k' -> wr a k v = Some a' -> rd a' k' = rd a k'.
Proof.
  unfold wr, rd. intros Hk Hk' Hne.
  destruct (Z.ltb_spec k (Z.of_nat (length a))); [|discriminate].
  intros [= <-]. apply list_lookup_insert_ne. lia.
Qed.

Lemma wr_length (a a' : list Z) (k v : Z) :
  wr a k v = Some a' -> length a' = length a.
Proof.
  unfold wr. destruct (k <? Z.of_nat (length a)); [|discriminate].
  intros [= <-]. apply length_insert.
Qed.

Lemma wr_in_range (a : list Z) (k v : Z) :
  k < Z.of_nat (length a) -> wr a k v = Some (<[Z.to_nat k := v]> a).
Proof.
  intros Hk. unfold wr. now destruct (Z.ltb_spec k (Z.of_nat (length a))); [|lia].
Qed.

Lemma rd_in_range (a : list Z) (k : Z) :
  0 <= k < Z.of_nat (length a) -> exists t, rd a k = Some t.
Proof.
  intros Hk. unfold rd.
  destruct (lookup_lt_is_Some_2 a (Z.to_nat k)) as [t Ht]; [lia|]. eauto.
Qed.

Lemma rd_Some_lt (a : list Z) (k t : Z) :
  rd a k = Some t -> k < Z.of_nat (length a).
Proof. unfold rd. intros Hk. apply lookup_lt_Some in Hk. lia. Qed.

(** Cells and tags are computed from the geometry, which no setter of the
    proofs below changes: name them after the state [c] throughout. *)
Ltac same_geometry c :=
  repeat match goal with
    | |- context [slot ?c' ?i ?j] =>
        lazymatch c' with
        | c => fail
        | _ => change (slot c' i j) with (slot c i j)
        end
    | |- context [line_tag ?c' ?a] =>
        lazymatch c' with
        | c => fail
        | _ => change (line_tag c' a) with (line_tag c a)
        end
    | |- context [set_index ?c' ?a] =>
        lazymatch c' with
        | c => fail
        | _ => change (set_index c' a) with (set_index c a)
        end
    end.

Section Proofs.

Context {H : Type}.
Implicit Types c : cache_sim_t H.

(** ** Geometry *)

Lemma geometry_okP c : geometry_ok c = true <-> geometry c.
Proof.
  unfold geometry_ok. rewrite !andb_true_iff.
  rewrite !Z.ltb_lt, !Z.eqb_eq, Z.leb_le.
  split.
  - intros [[[[[[[[? ?] ?] ?] ?] ?] ?] ?] ?]. now constructor.
  - intros []. tauto.
Qed.

Lemma slot_in_range c idx i :
  geometry c -> 0 <= idx < sets c -> 0 <= i < ways c ->
  slot c idx i = idx * ways c + i /\ 0 <= idx * ways c + i < sets c * ways c.
Proof.
  intros G Hidx Hi. destruct G.
  assert (0 <= idx * ways c + i < sets c * ways c) by nia.
  split; [|assumption]. unfold slot. apply wrap64_small. lia.
Qed.

Lemma slot_inj c idx i j :
  geometry c -> 0 <= idx < sets c -> 0 <= i < ways c -> 0 <= j < ways c ->
  slot c idx i = slot c idx j -> i = j.
Proof.
  intros G Hidx Hi Hj.
  destruct (slot_in_range c idx i G Hidx Hi) as [-> _].
  destruct (slot_in_range c idx j G Hidx Hj) as [-> _]. lia.
Qed.

Lemma set_index_range c addr :
  geometry c -> 0 <= set_index c addr < sets c.
Proof.
  intros G. destruct G. unfold set_index.
  assert (sets c < 2 ^ 64) by nia.
  rewrite wrap64_small by lia. split.
  - apply Z.land_nonneg. right. lia.
  - pose proof (land_le_r (Z.shiftr addr (idx_shift c)) (sets c - 1)). lia.
Qed.

Lemma line_tag_clean c addr :
  geometry c -> 0 <= addr < 2 ^ 64 ->
  Z.land (line_tag c addr) (not64 DIRTY) = line_tag c addr.
Proof.
  intros G Ha. unfold line_tag. apply tag_word_clean.
  apply line_address_range; [assumption|]. destruct G. lia.
Qed.

(** ** The tag scan *)

Lemma check_tag_loop_hit policy c idx tag n i c2 p :
  check_tag_loop policy c idx tag n i = Some (c2, Some p) ->
  exists j t,
    i <= j < i + Z.of_nat n /\ p = InArray (slot c idx j) /\
    rd (tags c) (slot c idx j) = Some t /\
    tag = Z.land t (not64 DIRTY) /\
    (policy_is policy "L" = true ->
     slot c idx j < Z.of_nat (length (LRUTime c))) /\
    c2 = stamp_hit policy c (slot c idx j).
Proof.
  revert i. induction n as [|n IH]; intros i; simpl; [discriminate|].
  destruct (rd (tags c) (slot c idx i)) as [t|] eqn:Hrd; simpl;
    [|discriminate].
  destruct (Z.eqb_spec tag (Z.land t (not64 DIRTY))) as [Heq|Hne].
  - unfold stamp_hit, wr.
    destruct (policy_is policy "L"); simpl.
    + destruct (Z.ltb_spec (slot c idx i) (Z.of_nat (length (LRUTime c))));
        simpl; [|discriminate].
      intros [= <- <-]. exists i, t. repeat split; auto; lia.
    + intros [= <- <-]. exists i, t. repeat split; auto; lia.
  - intros Hloop. destruct (IH _ Hloop) as (j & t' & Hj & Hrest).
    exists j, t'. split; [lia|exact Hrest].
Qed.

Lemma check_tag_loop_miss policy c idx tag n i c2 :
  check_tag_loop policy c idx tag n i = Some (c2, None) ->
  c2 = c /\
  forall j, i <= j < i + Z.of_nat n ->
    exists t, rd (tags c) (slot c idx j) = Some t /\
              tag <> Z.land t (not64 DIRTY).
Proof.
  revert i. induction n as [|n IH]; intros i; simpl.
  - intros [= <-]. split; [reflexivity|]. intros j Hj. lia.
  - destruct (rd (tags c) (slot c idx i)) as [t|] eqn:Hrd; simpl;
      [|discriminate].
    destruct (Z.eqb_spec tag (Z.land t (not64 DIRTY))) as [Heq|Hne].
    + destruct (policy_is policy "L"); simpl;
        [destruct (wr _ _ _); simpl|]; discriminate.
    + intros Hloop. destruct (IH _ Hloop) as [-> Hall].
      split; [reflexivity|]. intros j Hj.
      destruct (Z.eq_dec j i) as [->|Hji]; [eauto|]. apply Hall. lia.
Qed.

Lemma check_tag_loop_total policy c idx tag n i :
  geometry c -> 0 <= idx < sets c -> 0 <= i ->
  i + Z.of_nat n <= ways c ->
  exists c2 r, check_tag_loop policy c idx tag n i = Some (c2, r).
Proof.
  intros G Hidx. revert i. induction n as [|n IH]; intros i Hi Hn; simpl.
  - eauto.
  - destruct (slot_in_range c idx i G Hidx) as [Hs Hr]; [lia|].
    destruct (rd_in_range (tags c) (slot c idx i)) as [t Ht].
    { rewrite Hs. destruct G. lia. }
    rewrite Ht. simpl.
    destruct (tag =? Z.land t (not64 DIRTY)).
    + destruct (policy_is policy "L"); simpl; [|eauto].
      rewrite wr_in_range by (rewrite Hs; destruct G; lia). simpl. eauto.
    + apply IH; lia.
Qed.

(** A line of the set that carries the tag is found. *)
Lemma check_tag_loop_found policy c idx tag j t :
  geometry c -> 0 <= idx < sets c -> 0 <= j < ways c ->
  rd (tags c) (slot c idx j) = Some t -> tag = Z.land t (not64 DIRTY) ->
  exists c2 p,
    check_tag_loop policy c idx tag (Z.to_nat (ways c)) 0 = Some (c2, Some p).
Proof.
  intros G Hidx Hj Hrd Htag.
  destruct (check_tag_loop_total policy c idx tag (Z.to_nat (ways c)) 0)
    as (c2 & [p|] & Hloop); auto; try lia; [eauto|].
  apply check_tag_loop_miss in Hloop as [_ Hall].
  destruct (Hall j) as (t' & Hrd' & Hne); [lia|]. congruence.
Qed.

(** ** Victim selection *)

Lemma first_empty_total c idx n i :
  geometry c -> 0 <= idx < sets c -> 0 <= i ->
  i + Z.of_nat n <= ways c ->
  exists e, first_empty c idx n i = Some e /\
    forall w, e = Some w ->
      i <= w < i + Z.of_nat n /\ rd (tags c) (slot c idx w) = Some 0.
Proof.
  intros G Hidx. revert i. induction n as [|n IH]; intros i Hi Hn; simpl.
  - eexists. split; [reflexivity|]. discriminate.
  - destruct (slot_in_range c idx i G Hidx) as [Hs Hr]; [lia|].
    destruct (rd_in_range (tags c) (slot c idx i)) as [t Ht].
    { rewrite Hs. destruct G. lia. }
    rewrite Ht. simpl. destruct (Z.eqb_spec t 0) as [->|Hne].
    + eexists. split; [reflexivity|]. intros w [= <-]. split; [lia|exact Ht].
    + destruct (IH (i + 1)) as (e & He & Hw); [lia|lia|].
      exists e. split; [exact He|]. intros w Hew.
      destruct (Hw w Hew). split; [lia|assumption].
Qed.

Lemma oldest_total c time idx n i way count :
  geometry c -> Z.of_nat (length time) = sets c * ways c ->
  0 <= idx < sets c -> 0 <= i -> i + Z.of_nat n <= ways c ->
  0 <= way < ways c ->
  exists w, oldest c time idx n i way count = Some w /\ 0 <= w < ways c.
Proof.
  intros G Hlen Hidx. revert i way count.
  induction n as [|n IH]; intros i way count Hi Hn Hway; simpl.
  - eauto.
  - destruct (slot_in_range c idx i G Hidx) as [Hs Hr]; [lia|].
    destruct (rd_in_range time (slot c idx i)) as [t Ht]; [lia|].
    rewrite Ht. simpl. destruct (t <? count); apply IH; lia.
Qed.

Lemma LRU_spec c addr :
  geometry c ->
  exists way victim n a,
    0 <= way < ways c /\
    rd (tags c) (slot c (set_index c addr) way) = Some victim /\
    length a = length (LRUTime c) /\
    LRU c addr =
      Some (installed c (slot c (set_index c addr) way) (line_tag c addr)
              (lfsr c) n a (FIFOTime c), victim).
Proof.
  intros G. pose proof (set_index_range c addr G) as Hidx.
  unfold LRU. set (idx := set_index c addr) in *.
  destruct (first_empty_total c idx (Z.to_nat (ways c)) 0 G Hidx)
    as (e & -> & He); [lia|destruct G; lia|]. simpl.
  assert (Hcell : forall w, 0 <= w < ways c ->
            0 <= slot c idx w < Z.of_nat (length (tags c)) /\
            slot c idx w < Z.of_nat (length (LRUTime c))).
  { intros w Hw. destruct (slot_in_range c idx w G Hidx Hw) as [-> ?].
    destruct G. lia. }
  destruct e as [w|].
  - destruct (He w eq_refl) as [Hw Hrd].
    assert (Hw' : 0 <= w < ways c) by lia.
    destruct (Hcell w Hw') as [Ht Hl].
    rewrite wr_in_range by exact Hl. simpl. same_geometry c.
    rewrite Hrd. simpl.
    rewrite wr_in_range by (rewrite length_insert; exact Hl). simpl.
    same_geometry c. rewrite wr_in_range by lia. simpl.
    exists w, 0, (wrap_int (wrap_int (LRUCount c + 1) + 1)),
      (<[Z.to_nat (slot c idx w) := wrap_int (LRUCount c + 1)]>
         (<[Z.to_nat (slot c idx w) := LRUCount c]> (LRUTime c))).
    split; [lia|]. split; [exact Hrd|].
    split; [now rewrite !length_insert|]. destruct c; reflexivity.
  - destruct (oldest_total c (LRUTime c) idx (Z.to_nat (ways c)) 0 0
                2147483647 G) as (w & -> & Hw);
      try (destruct G; lia). simpl.
    destruct (Hcell w Hw) as [Ht Hl].
    destruct (rd_in_range (tags c) (slot c idx w) Ht) as [v Hv].
    rewrite Hv. simpl.
    rewrite wr_in_range by exact Hl. simpl. same_geometry c.
    rewrite wr_in_range by lia. simpl.
    exists w, v, (wrap_int (LRUCount c + 1)),
      (<[Z.to_nat (slot c idx w) := LRUCount c]> (LRUTime c)).
    split; [lia|]. split; [exact Hv|].
    split; [now rewrite length_insert|]. destruct c; reflexivity.
Qed.

Lemma FIFO_spec c addr :
  geometry c ->
  exists way victim f,
    0 <= way < ways c /\
    rd (tags c) (slot c (set_index c addr) way) = Some victim /\
    length f = length (FIFOTime c) /\
    FIFO c addr =
      Some (installed c (slot c (set_index c addr) way) (line_tag c addr)
              (lfsr c) (LRUCount c) (LRUTime c) f, victim).
Proof.
  intros G. pose proof (set_index_range c addr G) as Hidx.
  unfold FIFO. set (idx := set_index c addr) in *.
  destruct (first_empty_total c idx (Z.to_nat (ways c)) 0 G Hidx)
    as (e & -> & He); [lia|destruct G; lia|]. simpl.
  assert (Hcell : forall w, 0 <= w < ways c ->
            0 <= slot c idx w < Z.of_nat (length (tags c)) /\
            slot c idx w < Z.of_nat (length (FIFOTime c))).
  { intros w Hw. destruct (slot_in_range c idx w G Hidx Hw) as [-> ?].
    destruct G. lia. }
  destruct e as [w|].
  - destruct (He w eq_refl) as [Hw Hrd].
    assert (Hw' : 0 <= w < ways c) by lia.
    destruct (Hcell w Hw') as [Ht Hl].
    rewrite wr_in_range by exact Hl. simpl. same_geometry c.
    rewrite Hrd. simpl.
    rewrite wr_in_range by (rewrite length_insert; exact Hl). simpl.
    same_geometry c. rewrite wr_in_range by lia. simpl.
    exists w, 0,
      (<[Z.to_nat (slot c idx w) := FIFOCount c]>
         (<[Z.to_nat (slot c idx w) := FIFOCount c]> (FIFOTime c))).
    split; [lia|]. split; [exact Hrd|].
    split; [now rewrite !length_insert|]. destruct c; reflexivity.
  - destruct (oldest_total c (FIFOTime c) idx (Z.to_nat (ways c)) 0 0
                2147483647 G) as (w & -> & Hw);
      try (destruct G; lia). simpl.
    destruct (Hcell w Hw) as [Ht Hl].
    destruct (rd_in_range (tags c) (slot c idx w) Ht) as [v Hv].
    rewrite Hv. simpl.
    rewrite wr_in_range by exact Hl. simpl. same_geometry c.
    rewrite wr_in_range by lia. simpl.
    exists w, v, (<[Z.to_nat (slot c idx w) := FIFOCount c]> (FIFOTime c)).
    split; [lia|]. split; [exact Hv|].
    split; [now rewrite length_insert|]. destruct c; reflexivity.
Qed.

(** The way that the random policy picks: the draw, modulo the number of
    ways. *)
Lemma victimize_spec c addr :
  geometry c ->
  let way := fst (lfsr_next (lfsr c)) mod ways c in
  exists victim,
    0 <= way < ways c /\
    rd (tags c) (slot c (set_index c addr) way) = Some victim /\
    cache_sim_t_victimize c addr =
      Some (installed c (slot c (set_index c addr) way) (line_tag c addr)
              (snd (lfsr_next (lfsr c))) (LRUCount c) (LRUTime c)
              (FIFOTime c), victim).
Proof.
  intros G way. pose proof (set_index_range c addr G) as Hidx.
  assert (Hway : 0 <= way < ways c).
  { apply Z.mod_pos_bound. destruct G. lia. }
  destruct (slot_in_range c _ way G Hidx Hway) as [Hs Hr].
  destruct (rd_in_range (tags c) (slot c (set_index c addr) way))
    as [v Hv]; [destruct G; lia|].
  exists v. split; [exact Hway|]. split; [exact Hv|].
  unfold cache_sim_t_victimize. subst way.
  destruct (lfsr_next (lfsr c)) as [r g] eqn:Hnext. simpl in *.
  destruct (Z.eqb_spec (ways c) 0) as [H0|_]; [destruct G; lia|].
  same_geometry c. rewrite Hv. simpl.
  rewrite wr_in_range by (destruct G; lia). simpl.
  destruct c; reflexivity.
Qed.

(** The three policies, on the tag array: the selection returns, and the
    new tag word is in a cell of the target set, whose former content is the
    victim. *)
Lemma select_victim_spec policy c addr :
  geometry c -> fa_tags c = None ->
  policy_is policy "R" || policy_is policy "L" || policy_is policy "F"
    = true ->
  exists way victim g n a f,
    0 <= way < ways c /\
    rd (tags c) (slot c (set_index c addr) way) = Some victim /\
    length a = length (LRUTime c) /\ length f = length (FIFOTime c) /\
    select_victim policy c addr =
      Some (installed c (slot c (set_index c addr) way) (line_tag c addr)
              g n a f, victim).
Proof.
  intros G Hfa Hpol. unfold select_victim, victimize. rewrite Hfa.
  destruct (policy_is policy "R").
  { destruct (victimize_spec c addr G) as (v & Hway & Hrd & ->).
    eexists _, v, _, _, _, _. eauto 10. }
  destruct (policy_is policy "L").
  { destruct (LRU_spec c addr G) as (way & v & n & a & Hway & Hrd & Ha & ->).
    eexists way, v, _, _, _, _. eauto 10. }
  destruct (policy_is policy "F"); [|discriminate].
  destruct (FIFO_spec c addr G) as (way & v & f & Hway & Hrd & Hf & ->).
  eexists way, v, _, _, _, _. eauto 10.
Qed.

Lemma installed_geometry c k tag g n a f :
  geometry c -> length a = length (LRUTime c) ->
  length f = length (FIFOTime c) ->
  geometry (installed c k tag g n a f).
Proof.
  intros [] Ha Hf. constructor; simpl; try assumption.
  - now rewrite length_insert.
  - now rewrite Ha.
  - now rewrite Hf.
Qed.

(** After the selection, the lookup of the address finds its line. *)
Lemma installed_found policy c addr way g n a f :
  geometry c -> fa_tags c = None -> 0 <= addr < 2 ^ 64 ->
  0 <= way < ways c ->
  length a = length (LRUTime c) -> length f = length (FIFOTime c) ->
  exists c2 p,
    check_tag policy
      (installed c (slot c (set_index c addr) way) (line_tag c addr) g n a f)
      addr = Some (c2, Some p).
Proof.
  intros G Hfa Haddr Hway Ha Hf.
  set (c1 := installed _ _ _ _ _ _ _).
  assert (G1 : geometry c1) by now apply installed_geometry.
  unfold check_tag. change (fa_tags c1) with (fa_tags c). rewrite Hfa.
  unfold cache_sim_t_check_tag.
  apply (check_tag_loop_found policy c1 _ _ way (line_tag c addr)); auto.
  - apply set_index_range, G1.
  - change (slot c1 (set_index c1 addr) way)
      with (slot c (set_index c addr) way).
    destruct (slot_in_range c _ way G (set_index_range c addr G) Hway)
      as [Hs Hr].
    unfold rd. simpl. apply list_lookup_insert_eq. destruct G. lia.
  - change (line_tag c1 addr) with (line_tag c addr).
    symmetry. now apply line_tag_clean.
Qed.

(** ** Lookup on the tag array *)

Lemma geometry_ext c c' :
  sets c' = sets c -> ways c' = ways c -> linesz c' = linesz c ->
  idx_shift c' = idx_shift c ->
  length (tags c') = length (tags c) ->
  length (LRUTime c') = length (LRUTime c) ->
  length (FIFOTime c') = length (FIFOTime c) ->
  geometry c -> geometry c'.
Proof.
  intros Hs Hw Hl Hi Ht Hlru Hfifo [].
  constructor; rewrite ?Hs, ?Hw, ?Hl, ?Hi, ?Ht, ?Hlru, ?Hfifo; assumption.
Qed.

Lemma check_tag_hit_inv policy c addr c2 p :
  fa_tags c = None ->
  check_tag policy c addr = Some (c2, Some p) ->
  exists j t,
    0 <= j < ways c /\ p = InArray (slot c (set_index c addr) j) /\
    rd (tags c) (slot c (set_index c addr) j) = Some t /\
    line_tag c addr = Z.land t (not64 DIRTY) /\
    (policy_is policy "L" = true ->
     slot c (set_index c addr) j < Z.of_nat (length (LRUTime c))) /\
    c2 = stamp_hit policy c (slot c (set_index c addr) j).
Proof.
  intros Hfa. unfold check_tag, cache_sim_t_check_tag. rewrite Hfa.
  intros Hloop. apply check_tag_loop_hit in Hloop
    as (j & t & Hj & Hp & Hrd & Htag & Hl & Hc2).
  exists j, t. repeat split; auto; lia.
Qed.

Lemma check_tag_miss_inv policy c addr c2 :
  check_tag policy c addr = Some (c2, None) -> c2 = c.
Proof.
  unfold check_tag, cache_sim_t_check_tag, fa_cache_sim_t_check_tag.
  destruct (fa_tags c) as [m|].
  - destruct (tm_find _ m); congruence.
  - intros Hloop. now apply check_tag_loop_miss in Hloop.
Qed.

Lemma check_tag_found policy c addr j t :
  geometry c -> fa_tags c = None -> 0 <= j < ways c ->
  rd (tags c) (slot c (set_index c addr) j) = Some t ->
  line_tag c addr = Z.land t (not64 DIRTY) ->
  exists c2 p, check_tag policy c addr = Some (c2, Some p).
Proof.
  intros G Hfa Hj Hrd Htag. unfold check_tag, cache_sim_t_check_tag.
  rewrite Hfa.
  apply (check_tag_loop_found policy c _ _ j t); auto.
  now apply set_index_range.
Qed.

Lemma or_dirty_array c k t :
  rd (tags c) k = Some t ->
  or_dirty (InArray k) c =
    Some (set_tags (<[Z.to_nat k := Z.lor t DIRTY]> (tags c)) c).
Proof.
  intros Hrd. unfold or_dirty. rewrite Hrd. simpl.
  rewrite wr_in_range by (eapply rd_Some_lt; eassumption). reflexivity.
Qed.

(** The dirty mark that ends a miss, once the line is in the set. *)
Lemma mark_new_line_spec policy c addr store j t :
  geometry c -> fa_tags c = None -> 0 <= j < ways c ->
  rd (tags c) (slot c (set_index c addr) j) = Some t ->
  line_tag c addr = Z.land t (not64 DIRTY) ->
  exists c', mark_new_line policy c addr store = Some c' /\
    geometry c' /\ fa_tags c' = None /\
    writebacks c' = writebacks c /\ miss_handler c' = miss_handler c /\
    read_misses c' = read_misses c /\ write_misses c' = write_misses c.
Proof.
  intros G Hfa Hj Hrd Htag. unfold mark_new_line.
  destruct store; [|eauto 10].
  destruct (check_tag_found policy c addr j t G Hfa Hj Hrd Htag)
    as (c2 & p & Hct).
  rewrite Hct. simpl.
  apply check_tag_hit_inv in Hct as (j' & t' & Hj' & -> & Hrd' & _ & _ & ->);
    [|exact Hfa].
  assert (Hrd2 : rd (tags (stamp_hit policy c (slot c (set_index c addr) j')))
                   (slot c (set_index c addr) j') = Some t').
  { unfold stamp_hit. now destruct (policy_is policy "L"). }
  rewrite (or_dirty_array _ _ _ Hrd2).
  eexists. split; [reflexivity|].
  unfold stamp_hit. destruct (policy_is policy "L"); simpl;
    repeat split; auto;
    (eapply geometry_ext; [..|exact G]; simpl;
     rewrite ?length_insert; reflexivity).
Qed.

(** ** The start of an access *)

Lemma counted_geometry policy c bytes store :
  geometry c ->
  geometry (count_miss (count_access policy c bytes store) store).
Proof.
  apply geometry_ext; unfold count_miss, count_access;
    destruct (policy_is policy "L"), (policy_is policy "F"), store;
    reflexivity.
Qed.

Lemma count_access_geometry policy c bytes store :
  geometry c -> geometry (count_access policy c bytes store).
Proof.
  apply geometry_ext; unfold count_access;
    destruct (policy_is policy "L"), (policy_is policy "F"), store;
    reflexivity.
Qed.

Lemma count_access_fa policy c bytes store :
  fa_tags (count_access policy c bytes store) = fa_tags c.
Proof.
  unfold count_access.
  now destruct (policy_is policy "L"), (policy_is policy "F"), store.
Qed.

(** What the counting at the start of a miss leaves alone. *)
Lemma counted_frame policy c bytes store :
  let c0 := count_miss (count_access policy c bytes store) store in
  fa_tags c0 = fa_tags c /\ miss_handler c0 = miss_handler c /\
  writebacks c0 = writebacks c /\ linesz c0 = linesz c /\
  idx_shift c0 = idx_shift c /\ tags c0 = tags c.
Proof.
  unfold count_miss, count_access.
  destruct (policy_is policy "L"), (policy_is policy "F"), store;
    simpl; auto 10.
Qed.

(** ** Forwarding to the next level *)

Section NextLevel.

Context (next_access : H -> Z -> Z -> bool -> option H).
Context (Inv : H -> Prop).

Lemma forward_spec c a b s :
  serves next_access Inv -> handler_ok Inv c -> 0 <= a < 2 ^ 64 ->
  exists mh,
    forward next_access c a b s =
      Some (set_miss_handler mh c,
            match miss_handler c with
            | Some _ => [Forward a b s]
            | None => []
            end) /\
    match miss_handler c with
    | Some h => exists h', next_access h a b s = Some h' /\ mh = Some h'
    | None => mh = None
    end /\
    handler_ok Inv (set_miss_handler mh c).
Proof.
  intros Hserv Hh Ha. unfold forward.
  destruct (miss_handler c) as [h|] eqn:Hmh.
  - destruct (Hserv h a b s (Hh h Hmh) Ha) as (h' & Hnext & Hinv).
    exists (Some h'). rewrite Hnext. simpl. split; [reflexivity|].
    split; [eauto|]. intros h2 [= <-]. exact Hinv.
  - exists None. split; [|split; [reflexivity|intros h2; discriminate]].
    destruct c; simpl in *; subst; reflexivity.
Qed.

Lemma dirty_addr_range c victim : 0 <= dirty_addr c victim < 2 ^ 64.
Proof. unfold dirty_addr, shl64. apply wrap64_range. Qed.

Lemma dirty_addr_aligned c victim :
  geometry c -> dirty_addr c victim mod linesz c = 0.
Proof.
  intros G. destruct G as [_ _ _ Hs Hl _ _ _].
  unfold dirty_addr, shl64, wrap64. rewrite Hl.
  rewrite Z.shiftl_mul_pow2 by lia.
  replace (2 ^ 64) with (2 ^ idx_shift c * 2 ^ (64 - idx_shift c))
    by (rewrite <- Z.pow_add_r by lia; f_equal; lia).
  assert (0 < 2 ^ idx_shift c) by (apply Z.pow_pos_nonneg; lia).
  assert (0 < 2 ^ (64 - idx_shift c)) by (apply Z.pow_pos_nonneg; lia).
  rewrite Z.mul_comm. rewrite Zmult_mod_distr_l.
  rewrite Z.mul_comm. apply Z.mod_mul. lia.
Qed.

Lemma fill_addr_range c addr :
  0 <= addr < 2 ^ 64 ->
  0 <= Z.land addr (not64 (wrap64 (linesz c - 1))) < 2 ^ 64.
Proof.
  intros Ha. split.
  - apply Z.land_nonneg. left. lia.
  - pose proof (land_le_l addr (not64 (wrap64 (linesz c - 1)))). lia.
Qed.

(** ** A miss, stage by stage *)

Lemma installed_frame c k tag g n a f :
  let c2 := installed c k tag g n a f in
  fa_tags c2 = fa_tags c /\ miss_handler c2 = miss_handler c /\
  writebacks c2 = writebacks c /\ linesz c2 = linesz c /\
  idx_shift c2 = idx_shift c /\
  tags c2 = <[Z.to_nat k := tag]> (tags c).
Proof. simpl. auto 10. Qed.

Lemma miss_spec policy c addr bytes store c1 c2 victim :
  geometry c -> fa_tags c = None ->
  policy_is policy "R" || policy_is policy "L" || policy_is policy "F"
    = true ->
  0 <= addr < 2 ^ 64 ->
  serves next_access Inv -> handler_ok Inv c ->
  check_tag policy (count_access policy c bytes store) addr
    = Some (c1, None) ->
  select_victim policy (count_miss c1 store) addr = Some (c2, victim) ->
  exists way mh1 mh2 c',
    let c0 := count_miss (count_access policy c bytes store) store in
    let fill_addr := Z.land addr (not64 (wrap64 (linesz c - 1))) in
    let c3 := if valid_dirty victim
              then set_writebacks (wrap64 (writebacks c + 1))
                     (set_miss_handler mh1 c2)
              else c2 in
    let c4 := set_miss_handler mh2 c3 in
    let tr_wb := match miss_handler c with
                 | Some _ =>
                     if valid_dirty victim
                     then [Forward (dirty_addr c victim) (linesz c) true]
                     else []
                 | None => []
                 end in
    let tr_fill := match miss_handler c with
                   | Some _ => [Forward fill_addr (linesz c) false]
                   | None => []
                   end in
    (0 <= way < ways c /\
     rd (tags c) (slot c (set_index c addr) way) = Some victim /\
     tags c2 = <[Z.to_nat (slot c (set_index c addr) way)
                 := line_tag c addr]> (tags c)) /\
    writeback next_access c2 victim = Some (c3, tr_wb) /\
    fill next_access c3 addr = Some (c4, tr_fill) /\
    match miss_handler c with
    | Some h =>
        exists h1 h2,
          (if valid_dirty victim
           then next_access h (dirty_addr c victim) (linesz c) true = Some h1
           else h1 = h) /\
          next_access h1 fill_addr (linesz c) false = Some h2 /\
          mh2 = Some h2
    | None => mh2 = None
    end /\
    (geometry c4 /\ fa_tags c4 = None /\ handler_ok Inv c4 /\
     ways c4 = ways c /\
     rd (tags c4) (slot c4 (set_index c4 addr) way)
       = Some (line_tag c4 addr)) /\
    (mark_new_line policy c4 addr store = Some c' /\
     geometry c' /\ fa_tags c' = None /\ handler_ok Inv c' /\
     writebacks c' = writebacks c4 /\ miss_handler c' = mh2 /\
     read_misses c' = read_misses c0 /\ write_misses c' = write_misses c0) /\
    access next_access policy c addr bytes store
      = Some (c', miss_trace c0 addr store ++ tr_wb ++ tr_fill).
Proof.
  intros G Hfa Hpol Haddr Hserv Hh Hmiss Hsel.
  pose proof (check_tag_miss_inv _ _ _ _ Hmiss) as ->.
  pose proof (counted_geometry policy c bytes store G) as G0.
  pose proof (counted_frame policy c bytes store) as F0.
  set (c0 := count_miss (count_access policy c bytes store) store) in *.
  simpl in F0. destruct F0 as (Hfa0 & Hmh0 & Hwb0 & Hls0 & His0 & Htg0).
  assert (Hgeo0 : ways c0 = ways c /\ sets c0 = sets c).
  { unfold c0, count_miss, count_access.
    destruct (policy_is policy "L"), (policy_is policy "F"), store; auto. }
  destruct Hgeo0 as [Hw0 Hs0].
  assert (Hslot0 : forall w, slot c0 (set_index c0 addr) w
                             = slot c (set_index c addr) w).
  { intros w. unfold slot, set_index. now rewrite Hw0, Hs0, His0. }
  assert (Hlt0 : line_tag c0 addr = line_tag c addr).
  { unfold line_tag. now rewrite His0. }
  destruct (select_victim_spec policy c0 addr G0) as
    (way & v & g & n & a & f & Hway & Hrd & Ha & Hf & Hsel');
    [congruence|exact Hpol|].
  rewrite Hsel' in Hsel. injection Hsel as <- <-.
  set (c2 := installed c0 _ _ g n a f) in *.
  pose proof (installed_geometry c0 (slot c0 (set_index c0 addr) way)
                (line_tag c0 addr) g n a f G0 Ha Hf) as G2.
  fold c2 in G2.
  assert (Hh2 : handler_ok Inv c2).
  { intros h Hh2. apply Hh. simpl in Hh2. congruence. }
  exists way.
  assert (Hwb : exists mh1,
    let c3 := if valid_dirty v
              then set_writebacks (wrap64 (writebacks c + 1))
                     (set_miss_handler mh1 c2)
              else c2 in
    writeback next_access c2 v
      = Some (c3, match miss_handler c with
                  | Some _ =>
                      if valid_dirty v
                      then [Forward (dirty_addr c v) (linesz c) true]
                      else []
                  | None => []
                  end) /\
    handler_ok Inv c3 /\
    match miss_handler c with
    | Some h =>
        exists h1,
          (if valid_dirty v
           then next_access h (dirty_addr c v) (linesz c) true = Some h1
           else h1 = h) /\ miss_handler c3 = Some h1
    | None => miss_handler c3 = None
    end).
  { assert (Hda : dirty_addr c2 v = dirty_addr c v)
      by (unfold dirty_addr; simpl; now rewrite His0).
    assert (Hl2 : linesz c2 = linesz c) by exact Hls0.
    assert (Hm2 : miss_handler c2 = miss_handler c) by exact Hmh0.
    assert (Hw2 : writebacks c2 = writebacks c) by exact Hwb0.
    unfold writeback. destruct (valid_dirty v).
    - destruct (forward_spec c2 (dirty_addr c2 v) (linesz c2) true
                  Hserv Hh2 (dirty_addr_range c2 v))
        as (mh1 & Hfw & Hm1 & Hok1).
      exists mh1. rewrite Hfw.
      rewrite Hda, Hl2, Hm2 in *. cbn [mbind option_bind].
      change (writebacks (set_miss_handler mh1 c2)) with (writebacks c2).
      rewrite Hw2.
      split; [destruct (miss_handler c); reflexivity|].
      split; [intros h Hx; apply Hok1; exact Hx|].
      destruct (miss_handler c) as [h|].
      + destruct Hm1 as (h1 & Hn1 & ->). eauto.
      + now subst mh1.
    - exists None. rewrite Hm2.
      split; [destruct (miss_handler c); reflexivity|].
      split; [exact Hh2|].
      destruct (miss_handler c) as [h|]; eauto. }
  destruct Hwb as (mh1 & Hwb & Hok3 & Hm3). exists mh1.
  set (c3 := if valid_dirty v then _ else c2) in *.
  assert (F3 : sets c3 = sets c /\ ways c3 = ways c /\ linesz c3 = linesz c /\
               idx_shift c3 = idx_shift c /\ tags c3 = tags c2 /\
               LRUTime c3 = LRUTime c2 /\ FIFOTime c3 = FIFOTime c2 /\
               fa_tags c3 = None).
  { unfold c3. destruct (valid_dirty v); simpl; repeat split; congruence. }
  destruct F3 as (Hs3 & Hw3 & Hl3 & Hi3 & Ht3 & Hlru3 & Hfifo3 & Hfa3).
  destruct (forward_spec c3
              (Z.land addr (not64 (wrap64 (linesz c3 - 1)))) (linesz c3)
              false Hserv Hok3 (fill_addr_range c3 addr Haddr))
    as (mh2 & Hfw & Hm2 & Hok4).
  exists mh2.
  set (c4 := set_miss_handler mh2 c3) in *.
  assert (G4 : geometry c4).
  { apply (geometry_ext c3); try reflexivity.
    unfold c3. destruct (valid_dirty v); [|exact G2].
    now apply (geometry_ext c2). }
  assert (Hrd4 : rd (tags c4) (slot c4 (set_index c4 addr) way)
                 = Some (line_tag c4 addr)).
  { change (tags c4) with (tags c3). rewrite Ht3.
    change (slot c4 (set_index c4 addr) way)
      with (slot c3 (set_index c3 addr) way).
    replace (slot c3 (set_index c3 addr) way)
      with (slot c0 (set_index c0 addr) way)
      by (unfold slot, set_index; now rewrite Hw3, Hs3, Hi3, Hw0, Hs0, His0).
    replace (line_tag c4 addr) with (line_tag c0 addr)
      by (unfold line_tag; simpl; now rewrite Hi3, His0).
    unfold rd. simpl. apply list_lookup_insert_eq.
    destruct (slot_in_range c0 _ way G0 (set_index_range c0 addr G0) Hway)
      as [-> ?]. destruct G0. lia. }
  destruct (mark_new_line_spec policy c4 addr store way (line_tag c4 addr))
    as (c' & Hmark & G' & Hfa' & Hwb' & Hmh' & Hrm' & Hwm');
    auto; [simpl; lia| |].
  { symmetry. now apply line_tag_clean. }
  exists c'. cbv zeta.
  split.
  { split; [lia|]. split; [now rewrite <- Hslot0, <- Htg0|].
    simpl. now rewrite Hslot0, Hlt0, Htg0. }
  split; [exact Hwb|].
  split.
  { unfold fill. rewrite Hfw. rewrite Hl3. f_equal. f_equal.
    destruct (miss_handler c) as [h|].
    - destruct Hm3 as (h1 & _ & ->). reflexivity.
    - now rewrite Hm3. }
  split.
  { destruct (miss_handler c) as [h|].
    - destruct Hm3 as (h1 & Hn1 & Hm3). rewrite Hm3 in Hm2.
      destruct Hm2 as (h2 & Hn2 & ->). rewrite Hl3 in Hn2. eauto.
    - now rewrite Hm3 in Hm2. }
  split; [simpl; auto 10|].
  split.
  { split; [exact Hmark|]. split; [exact G'|]. split; [exact Hfa'|].
    split; [intros h Hc'; apply Hok4; congruence|].
    split; [exact Hwb'|]. split; [exact Hmh'|].
    split.
    - rewrite Hrm'. unfold c4, c3. now destruct (valid_dirty v).
    - rewrite Hwm'. unfold c4, c3. now destruct (valid_dirty v). }
  unfold access. rewrite Hmiss. simpl. fold c0. rewrite Hsel'. simpl.
  fold c2. rewrite Hwb. simpl.
  assert (Hfill : fill next_access c3 addr = Some (c4,
            match miss_handler c with
            | Some _ =>
                [Forward (Z.land addr (not64 (wrap64 (linesz c - 1))))
                   (linesz c) false]
            | None => []
            end)).
  { unfold fill. rewrite Hfw. rewrite Hl3. f_equal. f_equal.
    destruct (miss_handler c) as [h|].
    - destruct Hm3 as (h1 & _ & ->). reflexivity.
    - now rewrite Hm3. }
  rewrite Hfill. simpl. rewrite Hmark. reflexivity.
Qed.

Lemma forwards_miss_trace c addr store tr :
  forwards (miss_trace c addr store ++ tr) = forwards tr.
Proof. unfold miss_trace, forwards. now destruct (log c). Qed.

(** C1. A miss whose victim is valid and dirty adds one to the write-back
    counter and, with a next level attached, forwards to it exactly one
    write of one line at the victim's address, [victimTag << idx_shift],
    and then the read of the new line; both have returned when the access
    returns.  A victim that is not both valid and dirty is not written
    back: the counter stays, and only the fill is forwarded. *)
Theorem access_writes_back_dirty_victim
    policy c addr bytes store c1 c2 victim :
  geometry c -> fa_tags c = None ->
  policy_is policy "R" || policy_is policy "L" || policy_is policy "F"
    = true ->
  0 <= addr < 2 ^ 64 ->
  serves next_access Inv -> handler_ok Inv c ->
  check_tag policy (count_access policy c bytes store) addr
    = Some (c1, None) ->
  select_victim policy (count_miss c1 store) addr = Some (c2, victim) ->
  exists c' tr,
    access next_access policy c addr bytes store = Some (c', tr) /\
    let victim_addr := dirty_addr c victim in
    let fill_addr := Z.land addr (not64 (wrap64 (linesz c - 1))) in
    if valid_dirty victim then
      writebacks c' = wrap64 (writebacks c + 1) /\
      (0 <= writebacks c < 2 ^ 64 - 1 -> writebacks c' = writebacks c + 1) /\
      victim_addr
        = shl64 (Z.land victim (not64 (Z.lor VALID DIRTY))) (idx_shift c) /\
      victim_addr mod linesz c = 0 /\
      match miss_handler c with
      | Some h =>
          forwards tr = [(victim_addr, linesz c, true);
                         (fill_addr, linesz c, false)] /\
          exists h1 h2,
            next_access h victim_addr (linesz c) true = Some h1 /\
            next_access h1 fill_addr (linesz c) false = Some h2 /\
            miss_handler c' = Some h2
      | None => forwards tr = [] /\ miss_handler c' = None
      end
    else
      writebacks c' = writebacks c /\
      match miss_handler c with
      | Some h =>
          forwards tr = [(fill_addr, linesz c, false)] /\
          exists h2,
            next_access h fill_addr (linesz c) false = Some h2 /\
            miss_handler c' = Some h2
      | None => forwards tr = [] /\ miss_handler c' = None
      end.
Proof.
  intros G Hfa Hpol Haddr Hserv Hh Hmiss Hsel.
  destruct (miss_spec policy c addr bytes store c1 c2 victim
              G Hfa Hpol Haddr Hserv Hh Hmiss Hsel)
    as (way & mh1 & mh2 & c' & Hspec).
  cbv zeta in Hspec.
  destruct Hspec as (_ & _ & _ & Hnext & _ & Hmark & Hacc).
  destruct Hmark as (_ & _ & _ & _ & Hwb' & Hmh' & _).
  pose proof (counted_frame policy c bytes store) as F0. simpl in F0.
  destruct F0 as (_ & _ & Hwb0 & _).
  eexists c', _. split; [exact Hacc|]. cbv zeta.
  rewrite forwards_miss_trace.
  destruct (valid_dirty victim) eqn:Hvd.
  - simpl in Hwb'. rewrite Hwb'.
    split; [reflexivity|].
    split; [intros Hrange; apply wrap64_small; lia|].
    split; [reflexivity|].
    split; [now apply dirty_addr_aligned|].
    destruct (miss_handler c) as [h|].
    + split; [reflexivity|].
      destruct Hnext as (h1 & h2 & Hn1 & Hn2 & ->). eauto.
    + split; [reflexivity|]. congruence.
  - simpl in Hwb'. rewrite Hwb'.
    assert (writebacks c2 = writebacks c) as ->.
    { apply check_tag_miss_inv in Hmiss. subst c1.
      destruct (select_victim_spec policy
                  (count_miss (count_access policy c bytes store) store)
                  addr) as (w & v & g & n & a & f & _ & _ & _ & _ & Hs');
        [now apply counted_geometry| |exact Hpol|].
      - now destruct (counted_frame policy c bytes store) as (-> & _).
      - rewrite Hs' in Hsel. injection Hsel as <- _. exact Hwb0. }
    split; [reflexivity|].
    destruct (miss_handler c) as [h|].
    + split; [reflexivity|].
      destruct Hnext as (h1 & h2 & -> & Hn2 & ->). eauto.
    + split; [reflexivity|]. congruence.
Qed.

(** A lookup that misses still misses after a change that leaves the tag
    array and the geometry alone. *)
Lemma check_tag_loop_miss_ext policy c c' idx tag n i c2 :
  tags c' = tags c -> ways c' = ways c ->
  check_tag_loop policy c idx tag n i = Some (c2, None) ->
  check_tag_loop policy c' idx tag n i = Some (c', None).
Proof.
  intros Ht Hw. revert i. induction n as [|n IH]; intros i; simpl.
  - reflexivity.
  - unfold slot. rewrite Ht, Hw. fold (slot c idx i).
    destruct (rd (tags c) (slot c idx i)) as [t|]; simpl; [|discriminate].
    destruct (tag =? Z.land t (not64 DIRTY)).
    + destruct (policy_is policy "L"); simpl;
        [destruct (wr _ _ _); simpl|]; discriminate.
    + apply IH.
Qed.

Lemma check_tag_miss_ext policy c c' addr c2 :
  fa_tags c = None -> fa_tags c' = None ->
  tags c' = tags c -> ways c' = ways c -> sets c' = sets c ->
  idx_shift c' = idx_shift c ->
  check_tag policy c addr = Some (c2, None) ->
  check_tag policy c' addr = Some (c', None).
Proof.
  intros Hfa Hfa' Ht Hw Hs Hi. unfold check_tag, cache_sim_t_check_tag.
  rewrite Hfa, Hfa'. unfold set_index, line_tag. rewrite Hw, Hs, Hi.
  now apply check_tag_loop_miss_ext.
Qed.

(** C10. On the tag array, a store that misses under one of the policies
    R, L, F has its line installed in a way of the target set, and the
    lookup that follows, to mark the line dirty, finds it: the access
    returns.  Under any other policy nothing is installed, the lookup finds
    nothing, and the dirty mark has no target. *)
Theorem store_miss_relookup policy c addr bytes c1 :
  geometry c -> fa_tags c = None -> 0 <= addr < 2 ^ 64 ->
  serves next_access Inv -> handler_ok Inv c ->
  check_tag policy (count_access policy c bytes true) addr
    = Some (c1, None) ->
  if policy_is policy "R" || policy_is policy "L" || policy_is policy "F"
  then
    exists way c2 victim c3 c4 tr1 tr2 c5 p c' tr,
      select_victim policy (count_miss c1 true) addr = Some (c2, victim) /\
      0 <= way < ways c /\
      tags c2 = <[Z.to_nat (slot c (set_index c addr) way)
                  := Z.lor (Z.shiftr addr (idx_shift c)) VALID]> (tags c) /\
      (Z.to_nat (slot c (set_index c addr) way) < length (tags c))%nat /\
      writeback next_access c2 victim = Some (c3, tr1) /\
      fill next_access c3 addr = Some (c4, tr2) /\
      check_tag policy c4 addr = Some (c5, Some p) /\
      access next_access policy c addr bytes true = Some (c', tr)
  else
    select_victim policy (count_miss c1 true) addr
      = Some (count_miss c1 true, 0) /\
    (forall c3 c4 tr1 tr2,
       writeback next_access (count_miss c1 true) 0 = Some (c3, tr1) ->
       fill next_access c3 addr = Some (c4, tr2) ->
       check_tag policy c4 addr = Some (c4, None) /\
       mark_new_line policy c4 addr true = None) /\
    access next_access policy c addr bytes true = None.
Proof.
  intros G Hfa Haddr Hserv Hh Hmiss.
  pose proof (check_tag_miss_inv _ _ _ _ Hmiss) as Hc1.
  pose proof (counted_frame policy c bytes true) as F0. cbv zeta in F0.
  destruct F0 as (Hfa0 & _ & _ & _ & His0 & Htg0).
  destruct (policy_is policy "R" || policy_is policy "L"
            || policy_is policy "F") eqn:Hpol.
  - destruct (select_victim_spec policy (count_miss c1 true) addr)
      as (w & v & g & n & a & f & _ & _ & _ & _ & Hsel);
      [subst c1; now apply counted_geometry|subst c1; congruence
      |exact Hpol|].
    destruct (miss_spec policy c addr bytes true c1 _ v
                G Hfa Hpol Haddr Hserv Hh Hmiss Hsel)
      as (way & mh1 & mh2 & c' & Hspec).
    cbv zeta in Hspec.
    destruct Hspec as ((Hway & Hrd & Htags) & Hwb & Hfill & _ & H4 & _ & Hacc).
    destruct H4 as (G4 & Hfa4 & _ & Hw4 & Hrd4).
    pose proof (line_tag_clean _ addr G4 Haddr) as Hclean.
    symmetry in Hclean.
    assert (Hway4 := Hway). rewrite <- Hw4 in Hway4.
    destruct (check_tag_found policy _ addr way _ G4 Hfa4 Hway4 Hrd4 Hclean)
      as (c5 & p & Hct).
    exists way. do 10 eexists.
    split; [exact Hsel|]. split; [exact Hway|]. split; [exact Htags|].
    split.
    { destruct (slot_in_range c _ way G (set_index_range c addr G) Hway)
        as [-> ?]. destruct G. lia. }
    split; [exact Hwb|]. split; [exact Hfill|]. split; [exact Hct|].
    exact Hacc.
  - assert (Hfa1 : fa_tags c1 = None)
      by (subst c1; now rewrite count_access_fa).
    remember (count_access policy c bytes true) as ca eqn:Hca.
    subst c1. clear Hfa0 His0 Htg0.
    assert (Hsel : select_victim policy (count_miss ca true) addr
                   = Some (count_miss ca true, 0)).
    { unfold select_victim.
      destruct (policy_is policy "R"); [discriminate|].
      destruct (policy_is policy "L"); [discriminate|].
      destruct (policy_is policy "F"); [discriminate|reflexivity]. }
    assert (Hrelook : forall c3 c4 tr1 tr2,
       writeback next_access (count_miss ca true) 0 = Some (c3, tr1) ->
       fill next_access c3 addr = Some (c4, tr2) ->
       check_tag policy c4 addr = Some (c4, None) /\
       mark_new_line policy c4 addr true = None).
    { intros c3 c4 tr1 tr2. unfold writeback.
      change (valid_dirty 0) with false. intros [= <- <-].
      unfold fill, forward. intros Hfw. simpl in Hfw.
      assert (Hct : check_tag policy c4 addr = Some (c4, None)).
      { destruct (miss_handler ca) as [h|];
          [match type of Hfw with
           | context [next_access ?h ?a ?b ?s] =>
               destruct (next_access h a b s)
           end; simpl in Hfw; [|discriminate]|];
          injection Hfw as <- _;
          apply (check_tag_miss_ext policy ca _ addr ca);
          auto. }
      split; [exact Hct|]. unfold mark_new_line. now rewrite Hct. }
    split; [exact Hsel|]. split; [exact Hrelook|].
    unfold access. rewrite <- Hca, Hmiss. cbn [mbind option_bind].
    rewrite Hsel. cbn [mbind option_bind].
    destruct (writeback next_access (count_miss ca true) 0)
      as [[c3 tr1]|] eqn:Hwb; [|reflexivity]. cbn [mbind option_bind].
    destruct (fill next_access c3 addr) as [[c4 tr2]|] eqn:Hfill;
      [|reflexivity]. cbn [mbind option_bind].
    destruct (Hrelook c3 c4 tr1 tr2 eq_refl Hfill) as [_ ->]. reflexivity.
Qed.

(** ** A hit *)

Lemma count_access_storage policy c bytes store :
  let ca := count_access policy c bytes store in
  sets ca = sets c /\ ways ca = ways c /\ idx_shift ca = idx_shift c /\
  tags ca = tags c /\ LRUTime ca = LRUTime c /\ FIFOTime ca = FIFOTime c /\
  LRUCount ca
    = (if policy_is policy "L" then wrap_int (LRUCount c + 1)
       else LRUCount c) /\
  FIFOCount ca
    = (if policy_is policy "F" then wrap_int (FIFOCount c + 1)
       else FIFOCount c).
Proof.
  unfold count_access.
  destruct (policy_is policy "L"), (policy_is policy "F"), store;
    simpl; auto 10.
Qed.

Lemma hit_spec policy c addr bytes store c1 p :
  fa_tags c = None ->
  check_tag policy (count_access policy c bytes store) addr
    = Some (c1, Some p) ->
  exists j t,
    let k := slot c (set_index c addr) j in
    0 <= j < ways c /\ p = InArray k /\ rd (tags c) k = Some t /\
    line_tag c addr = Z.land t (not64 DIRTY) /\
    (policy_is policy "L" = true -> k < Z.of_nat (length (LRUTime c))) /\
    c1 = stamp_hit policy (count_access policy c bytes store) k /\
    access next_access policy c addr bytes store
      = Some (if store
              then set_tags (<[Z.to_nat k := Z.lor t DIRTY]> (tags c)) c1
              else c1, []).
Proof.
  intros Hfa Hhit.
  pose proof (count_access_storage policy c bytes store) as S0.
  cbv zeta in S0.
  destruct S0 as (Hs & Hw & Hi & Ht & Hlru & _).
  unfold access. rewrite Hhit. cbn [mbind option_bind].
  apply check_tag_hit_inv in Hhit
    as (j & t & Hj & -> & Hrd & Htag & Hl & ->);
    [|now rewrite count_access_fa].
  remember (count_access policy c bytes store) as ca eqn:Hca.
  assert (Hslot : slot ca (set_index ca addr) j = slot c (set_index c addr) j)
    by (unfold slot, set_index; now rewrite Hs, Hw, Hi).
  assert (Hlt : line_tag ca addr = line_tag c addr)
    by (unfold line_tag; now rewrite Hi).
  rewrite Hslot, Hlt, ?Ht, ?Hlru in *.
  exists j, t. cbv zeta.
  split; [lia|]. split; [reflexivity|]. split; [exact Hrd|].
  split; [exact Htag|]. split; [exact Hl|]. split; [reflexivity|].
  destruct store; [|reflexivity].
  assert (Hrd1 : rd (tags (stamp_hit policy ca (slot c (set_index c addr) j)))
                   (slot c (set_index c addr) j) = Some t).
  { unfold stamp_hit. destruct (policy_is policy "L"); simpl;
      now rewrite Ht. }
  rewrite (or_dirty_array _ _ _ Hrd1). cbn [mbind option_bind].
  do 3 f_equal. unfold stamp_hit.
  destruct (policy_is policy "L"); simpl; now rewrite Ht.
Qed.

Lemma hit_spec_fa policy c addr bytes store c1 p m :
  fa_tags c = Some m ->
  check_tag policy (count_access policy c bytes store) addr
    = Some (c1, Some p) ->
  exists v,
    let key := Z.shiftr addr (idx_shift c) in
    p = InMap key /\ tm_find key m = Some v /\
    c1 = count_access policy c bytes store /\
    access next_access policy c addr bytes store
      = Some (if store
              then set_fa_tags (Some (tm_put key (Z.lor v DIRTY) m)) c1
              else c1, []).
Proof.
  intros Hfa Hhit.
  pose proof (count_access_storage policy c bytes store) as S0.
  cbv zeta in S0.
  destruct S0 as (_ & _ & Hi & _).
  unfold access. rewrite Hhit. cbn [mbind option_bind].
  unfold check_tag in Hhit. rewrite count_access_fa, Hfa in Hhit.
  unfold fa_cache_sim_t_check_tag in Hhit. rewrite Hi in Hhit.
  destruct (tm_find (Z.shiftr addr (idx_shift c)) m) as [v|] eqn:Hfind;
    [|discriminate].
  injection Hhit as <- <-.
  exists v. cbv zeta. repeat split; auto.
  destruct store; [|reflexivity].
  unfold or_dirty. rewrite count_access_fa, Hfa. cbn [mbind option_bind].
  rewrite Hfind. reflexivity.
Qed.

(** C4. On the tag array, a hit under the LRU policy stamps the way that
    was hit, and no other, with the value that the LRU counter has during
    the access; a hit under the FIFO policy leaves the FIFO stamps as they
    were. *)
Theorem hit_stamps policy c addr bytes store c1 p :
  fa_tags c = None ->
  check_tag policy (count_access policy c bytes store) addr
    = Some (c1, Some p) ->
  exists c' k,
    p = InArray k /\
    access next_access policy c addr bytes store = Some (c', []) /\
    (policy = "L"%string ->
     LRUCount c' = wrap_int (LRUCount c + 1) /\
     rd (LRUTime c') k = Some (LRUCount c') /\
     LRUTime c' = <[Z.to_nat k := LRUCount c']> (LRUTime c) /\
     FIFOTime c' = FIFOTime c) /\
    (policy = "F"%string ->
     FIFOTime c' = FIFOTime c /\ LRUTime c' = LRUTime c).
Proof.
  intros Hfa Hhit.
  destruct (hit_spec policy c addr bytes store c1 p Hfa Hhit)
    as (j & t & Hspec). cbv zeta in Hspec.
  destruct Hspec as (Hj & Hp & Hrd & _ & Hl & Hc1 & Hacc).
  pose proof (count_access_storage policy c bytes store) as S0.
  cbv zeta in S0.
  destruct S0 as (_ & _ & _ & _ & Hlru & Hfifo & Hcnt & _).
  eexists _, _. split; [exact Hp|]. split; [exact Hacc|].
  subst c1. split.
  - intros ->. specialize (Hl eq_refl).
    change (policy_is "L" "L") with true in Hcnt.
    assert (Hstamp : forall x : cache_sim_t H,
              LRUCount x = wrap_int (LRUCount c + 1) ->
              LRUTime x = <[Z.to_nat (slot c (set_index c addr) j)
                            := wrap_int (LRUCount c + 1)]> (LRUTime c) ->
              FIFOTime x = FIFOTime c ->
              LRUCount x = wrap_int (LRUCount c + 1) /\
              rd (LRUTime x) (slot c (set_index c addr) j)
                = Some (LRUCount x) /\
              LRUTime x = <[Z.to_nat (slot c (set_index c addr) j)
                            := LRUCount x]> (LRUTime c) /\
              FIFOTime x = FIFOTime c).
    { intros x Hx1 Hx2 Hx3. rewrite Hx1, Hx2. repeat split; auto.
      unfold rd. apply list_lookup_insert_eq.
      pose proof (wrap64_range (set_index c addr * ways c + j)).
      unfold slot in *. lia. }
    unfold stamp_hit. change (policy_is "L" "L") with true.
    destruct store; apply Hstamp; simpl; congruence.
  - intros ->. unfold stamp_hit. change (policy_is "F" "L") with false.
    destruct store; simpl; auto.
Qed.

(** C7, as amended.  A hit forwards nothing and changes only: the policy
    counter of the active policy, the access and byte counters of the
    direction of the access, the LRU stamp of the way that was hit when the
    policy is LRU, and the dirty bit of the line that was hit when the
    access is a store.  The miss counters, the write-back counter, the
    other tag words, the FIFO stamps, the generator and the next level are
    as they were. *)
Theorem hit_frame policy c addr bytes store c1 p :
  check_tag policy (count_access policy c bytes store) addr
    = Some (c1, Some p) ->
  exists c',
    access next_access policy c addr bytes store = Some (c', []) /\
    (sets c' = sets c /\ ways c' = ways c /\ linesz c' = linesz c /\
     idx_shift c' = idx_shift c /\ name c' = name c /\ log c' = log c /\
     lfsr c' = lfsr c /\ FIFOTime c' = FIFOTime c /\
     read_misses c' = read_misses c /\ write_misses c' = write_misses c /\
     writebacks c' = writebacks c /\ miss_handler c' = miss_handler c) /\
    (LRUCount c' = (if policy_is policy "L" then wrap_int (LRUCount c + 1)
                    else LRUCount c) /\
     FIFOCount c' = (if policy_is policy "F" then wrap_int (FIFOCount c + 1)
                     else FIFOCount c)) /\
    (read_accesses c' = (if store then read_accesses c
                         else wrap64 (read_accesses c + 1)) /\
     write_accesses c' = (if store then wrap64 (write_accesses c + 1)
                          else write_accesses c) /\
     bytes_read c' = (if store then bytes_read c
                      else wrap64 (bytes_read c + bytes)) /\
     bytes_written c' = (if store then wrap64 (bytes_written c + bytes)
                         else bytes_written c)) /\
    match p with
    | InArray k =>
        fa_tags c' = fa_tags c /\
        (exists t, rd (tags c) k = Some t /\
           tags c' = if store then <[Z.to_nat k := Z.lor t DIRTY]> (tags c)
                     else tags c) /\
        LRUTime c' = if policy_is policy "L"
                     then <[Z.to_nat k := LRUCount c']> (LRUTime c)
                     else LRUTime c
    | InMap key =>
        tags c' = tags c /\ LRUTime c' = LRUTime c /\
        exists m v, fa_tags c = Some m /\ tm_find key m = Some v /\
          fa_tags c' = Some (if store then tm_put key (Z.lor v DIRTY) m
                             else m)
    end.
Proof.
  intros Hhit. destruct (fa_tags c) as [m|] eqn:Hfa.
  - destruct (hit_spec_fa policy c addr bytes store c1 p m Hfa Hhit)
      as (v & Hspec). cbv zeta in Hspec.
    destruct Hspec as (-> & Hfind & -> & Hacc).
    eexists. split; [exact Hacc|].
    unfold count_access.
    destruct store, (policy_is policy "L"), (policy_is policy "F");
      simpl; rewrite ?Hfa; repeat split; eauto 10.
  - destruct (hit_spec policy c addr bytes store c1 p Hfa Hhit)
      as (j & t & Hspec). cbv zeta in Hspec.
    destruct Hspec as (_ & -> & Hrd & _ & _ & -> & Hacc).
    eexists. split; [exact Hacc|].
    unfold stamp_hit, count_access.
    destruct store, (policy_is policy "L"), (policy_is policy "F");
      simpl; rewrite ?Hfa; repeat split; eauto 10.
Qed.

(** ** Every access returns *)

Lemma access_keeps policy c addr bytes store :
  geometry c -> fa_tags c = None ->
  policy_is policy "R" || policy_is policy "L" || policy_is policy "F"
    = true ->
  0 <= addr < 2 ^ 64 ->
  serves next_access Inv -> handler_ok Inv c ->
  exists c' tr,
    access next_access policy c addr bytes store = Some (c', tr) /\
    geometry c' /\ fa_tags c' = None /\ handler_ok Inv c'.
Proof.
  intros G Hfa Hpol Haddr Hserv Hh.
  pose proof (count_access_geometry policy c bytes store G) as Ga.
  pose proof (count_access_fa policy c bytes store) as Hfaa.
  destruct (check_tag_loop_total policy (count_access policy c bytes store)
              (set_index (count_access policy c bytes store) addr)
              (line_tag (count_access policy c bytes store) addr)
              (Z.to_nat (ways (count_access policy c bytes store))) 0 Ga)
    as (c1 & r & Hloop);
    [now apply set_index_range|lia|destruct Ga; lia|].
  assert (Hct : check_tag policy (count_access policy c bytes store) addr
                = Some (c1, r)).
  { unfold check_tag, cache_sim_t_check_tag. now rewrite Hfaa, Hfa. }
  clear Hloop. destruct r as [p|].
  - destruct (hit_spec policy c addr bytes store c1 p Hfa Hct)
      as (j & t & Hspec). cbv zeta in Hspec.
    destruct Hspec as (_ & _ & _ & _ & _ & -> & Hacc).
    eexists _, _. split; [exact Hacc|].
    set (st := stamp_hit policy (count_access policy c bytes store)
                 (slot c (set_index c addr) j)) in *.
    assert (Hst : geometry st /\ fa_tags st = None /\
                  miss_handler st = miss_handler c /\ tags st = tags c).
    { unfold st, stamp_hit. split; [|split; [|split]].
      - apply (geometry_ext (count_access policy c bytes store));
          try (destruct (policy_is policy "L"); reflexivity); [|exact Ga].
        destruct (policy_is policy "L"); simpl;
          rewrite ?length_insert; reflexivity.
      - destruct (policy_is policy "L"); simpl; congruence.
      - unfold count_access.
        destruct (policy_is policy "L"), (policy_is policy "F"), store;
          reflexivity.
      - unfold count_access.
        destruct (policy_is policy "L"), (policy_is policy "F"), store;
          reflexivity. }
    destruct Hst as (Gs & Hfas & Hmhs & Htgs).
    destruct store.
    + split; [|split; [exact Hfas|]].
      * apply (geometry_ext st); try reflexivity; [|exact Gs].
        simpl. now rewrite length_insert, Htgs.
      * intros h Hx. apply Hh. simpl in Hx. congruence.
    + split; [exact Gs|]. split; [exact Hfas|].
      intros h Hx. apply Hh. congruence.
  - pose proof (check_tag_miss_inv _ _ _ _ Hct) as ->.
    destruct (select_victim_spec policy
                (count_miss (count_access policy c bytes store) store) addr)
      as (w & v & g & n & a & f & _ & _ & _ & _ & Hsel);
      [now apply counted_geometry| |exact Hpol|].
    { now destruct (counted_frame policy c bytes store) as (-> & _). }
    destruct (miss_spec policy c addr bytes store _ _ v
                G Hfa Hpol Haddr Hserv Hh Hct Hsel)
      as (way & mh1 & mh2 & c' & Hspec).
    cbv zeta in Hspec.
    destruct Hspec as (_ & _ & _ & _ & _ & Hmark & Hacc).
    destruct Hmark as (_ & G' & Hfa' & Hh' & _).
    eauto 10.
Qed.

(** A cache of this kind serves every request, when its own next level
    does: the levels of a hierarchy compose. *)
Lemma cache_serves policy :
  policy_is policy "R" || policy_is policy "L" || policy_is policy "F"
    = true ->
  serves next_access Inv ->
  serves (as_next_level next_access policy)
    (fun c => geometry c /\ fa_tags c = None /\ handler_ok Inv c).
Proof.
  intros Hpol Hserv c a b s (G & Hfa & Hh) Ha.
  destruct (access_keeps policy c a b s G Hfa Hpol Ha Hserv Hh)
    as (c' & tr & Hacc & Hkeep).
  exists c'. split; [|exact Hkeep].
  unfold as_next_level. now rewrite Hacc.
Qed.

End NextLevel.

(** ** The random policy *)

(** C8. On the tag array, the random policy makes one draw and replaces the
    way whose index is the draw modulo the number of ways, whatever the
    ways of the set hold: with an empty way and a valid way in the set, one
    draw evicts the valid line and another takes the empty way. *)
Theorem random_victim_is_draw c addr :
  geometry c -> fa_tags c = None ->
  (let draw := Z.of_N (draws (lfsr c) (drawn (lfsr c))) in
   let way := draw mod ways c in
   exists victim c',
     select_victim "R" c addr = Some (c', victim) /\
     0 <= way < ways c /\
     rd (tags c) (slot c (set_index c addr) way) = Some victim /\
     tags c' = <[Z.to_nat (slot c (set_index c addr) way)
                 := line_tag c addr]> (tags c) /\
     drawn (lfsr c') = S (drawn (lfsr c))) /\
  (exists c',
     select_victim "R" (half_full_set (mk_lfsr (fun _ => 1%N) 0)) 16
       = Some (c', Z.lor 5 VALID) /\
     tags c' = [0; Z.lor 2 VALID]) /\
  (exists c',
     select_victim "R" (half_full_set (mk_lfsr (fun _ => 0%N) 0)) 16
       = Some (c', 0) /\
     tags c' = [Z.lor 2 VALID; Z.lor 5 VALID]).
Proof.
  intros G Hfa. split; [|split].
  - cbv zeta.
    destruct (victimize_spec c addr G) as (v & Hway & Hrd & Hvic).
    unfold select_victim, victimize. change (policy_is "R" "R") with true.
    rewrite Hfa, Hvic. cbn [lfsr_next fst snd] in *.
    eexists _, _. split; [reflexivity|]. split; [exact Hway|].
    split; [exact Hrd|]. split; reflexivity.
  - eexists. split; reflexivity.
  - eexists. split; reflexivity.
Qed.

End Proofs.

(** ** Construction *)

Lemma land_pred_power_of_two (n : Z) :
  0 < n -> Z.land n (n - 1) = 0 <-> power_of_two n.
Proof.
  intros Hn. split.
  - intros Hland. exists (Z.log2 n). split; [apply Z.log2_nonneg|].
    destruct (Z.log2_spec n Hn) as [Hlo Hhi].
    destruct (Z.eq_dec n (2 ^ Z.log2 n)) as [|Hne]; [assumption|].
    exfalso.
    assert (0 < 2 ^ Z.log2 n)
      by (apply Z.pow_pos_nonneg; [lia|apply Z.log2_nonneg]).
    assert (Hlog : Z.log2 (n - 1) = Z.log2 n).
    { apply Z.log2_unique; [apply Z.log2_nonneg|].
      lia. }
    assert (Hb1 : Z.testbit n (Z.log2 n) = true) by now apply Z.bit_log2.
    assert (Hb2 : Z.testbit (n - 1) (Z.log2 n) = true).
    { rewrite <- Hlog. apply Z.bit_log2. lia. }
    apply (f_equal (fun z => Z.testbit z (Z.log2 n))) in Hland.
    rewrite Z.land_spec, Hb1, Hb2, Z.bits_0 in Hland. discriminate.
  - intros (k & Hk & ->).
    replace (2 ^ k - 1) with (Z.ones k) by (rewrite Z.ones_equiv; lia).
    rewrite Z.land_ones by lia. apply Z.mod_same.
    assert (0 < 2 ^ k) by (apply Z.pow_pos_nonneg; lia). lia.
Qed.

Lemma power_of_two_pos (n : Z) : power_of_two n -> 0 < n.
Proof. intros (k & Hk & ->). apply Z.pow_pos_nonneg; lia. Qed.

(** The test that [init] makes of a number of sets or of a line size. *)
Lemma power_of_two_test (n : Z) :
  0 <= n < 2 ^ 64 ->
  (n =? 0) || negb (Z.land n (wrap64 (n - 1)) =? 0) = false
  <-> power_of_two n.
Proof.
  intros Hn. rewrite orb_false_iff, negb_false_iff, Z.eqb_neq, Z.eqb_eq.
  split.
  - intros [Hne Hland]. rewrite wrap64_small in Hland by lia.
    apply land_pred_power_of_two; [lia|assumption].
  - intros Hp. pose proof (power_of_two_pos n Hp).
    split; [lia|]. rewrite wrap64_small by lia.
    apply land_pred_power_of_two; [lia|assumption].
Qed.

(** Sixty-four steps are enough for the loop on a 64-bit line size. *)
Lemma idx_shift_loop_power (fuel : nat) (k acc : Z) :
  0 <= k <= Z.of_nat fuel -> idx_shift_loop fuel (2 ^ k) acc = acc + k.
Proof.
  revert k acc. induction fuel as [|fuel IH]; intros k acc Hk; simpl.
  - lia.
  - destruct (Z.eq_dec k 0) as [->|Hne]; [simpl; lia|].
    assert (1 < 2 ^ k).
    { change 1 with (2 ^ 0). apply Z.pow_lt_mono_r; lia. }
    destruct (Z.ltb_spec 1 (2 ^ k)); [|lia].
    rewrite Z.shiftr_div_pow2 by lia.
    replace (2 ^ k / 2 ^ 1) with (2 ^ (k - 1))
      by (rewrite <- Z.pow_sub_r by lia; reflexivity).
    rewrite IH by lia. lia.
Qed.

Arguments idx_shift_loop : simpl never.

(** C9. Construction with a number of sets that is not a power of two, or a
    line size that is below 8 or not a power of two, prints the usage text
    and leaves with status 1: no object is built.  With a valid geometry the
    object is built, with all its counters and all its tag and stamp cells
    at zero, and without a next level. *)
Theorem init_checks_geometry {H : Type} gen sets0 ways0 linesz0 name0 :
  0 <= sets0 < 2 ^ 64 -> 0 <= linesz0 < 2 ^ 64 ->
  (~ valid_geometry sets0 linesz0 ->
   @init H gen sets0 ways0 linesz0 name0 = Exit help_text 1 /\
   @construct_parsed H gen sets0 ways0 linesz0 name0 = Exit help_text 1) /\
  (valid_geometry sets0 linesz0 ->
   exists c c',
     @init H gen sets0 ways0 linesz0 name0 = Built c /\
     @construct_parsed H gen sets0 ways0 linesz0 name0 = Built c' /\
     (c' = c \/ (4 < ways0 /\ sets0 = 1 /\ c' = set_fa_tags (Some []) c)) /\
     (sets c = sets0 /\ ways c = ways0 /\ linesz c = linesz0 /\
      2 ^ idx_shift c = linesz0 /\ name c = name0 /\ log c = false) /\
     (read_accesses c = 0 /\ read_misses c = 0 /\ bytes_read c = 0 /\
      write_accesses c = 0 /\ write_misses c = 0 /\ bytes_written c = 0 /\
      writebacks c = 0) /\
     (LRUCount c = 0 /\ FIFOCount c = 0) /\
     (tags c = replicate (Z.to_nat (wrap64 (sets0 * ways0))) 0 /\
      LRUTime c = replicate (Z.to_nat (wrap64 (sets0 * ways0))) 0 /\
      FIFOTime c = replicate (Z.to_nat (wrap64 (sets0 * ways0))) 0) /\
     miss_handler c = None /\ fa_tags c = None).
Proof.
  intros Hs Hl.
  pose proof (power_of_two_test sets0 Hs) as Hts.
  pose proof (power_of_two_test linesz0 Hl) as Htl.
  assert (Hinit_bad : ~ valid_geometry sets0 linesz0 ->
            forall s w, s = sets0 ->
              @init H gen s w linesz0 name0 = Exit help_text 1).
  { intros Hbad s w ->. unfold init, help.
    destruct ((sets0 =? 0) || negb (Z.land sets0 (wrap64 (sets0 - 1)) =? 0))
      eqn:Es; [reflexivity|].
    destruct (Z.ltb_spec linesz0 8); [reflexivity|]. cbn [orb].
    destruct (negb (Z.land linesz0 (wrap64 (linesz0 - 1)) =? 0)) eqn:El;
      [reflexivity|].
    exfalso. apply Hbad. split; [now apply Hts|]. split; [|lia].
    apply Htl. destruct (Z.eqb_spec linesz0 0); [lia|reflexivity]. }
  split.
  - intros Hbad. split; [now apply Hinit_bad|].
    unfold construct_parsed, fa_init.
    destruct (4 <? ways0); simpl; [|now apply Hinit_bad].
    destruct (Z.eqb_spec sets0 1) as [E|_]; [|now apply Hinit_bad].
    rewrite (Hinit_bad Hbad 1 ways0) by (symmetry; exact E). reflexivity.
  - intros (Hps & Hpl & H8).
    apply Hts in Hps. apply Htl in Hpl as Hpl'.
    assert (Hinit : forall s, s = sets0 ->
      @init H gen s ways0 linesz0 name0 =
      Built (mk_cache s ways0 linesz0 (idx_shift_loop 64 linesz0 0) name0
               false gen
               (replicate (Z.to_nat (wrap64 (s * ways0))) 0) 0 0
               (replicate (Z.to_nat (wrap64 (s * ways0))) 0)
               (replicate (Z.to_nat (wrap64 (s * ways0))) 0)
               0 0 0 0 0 0 0 None None)).
    { intros s ->. unfold init. rewrite Hps.
      apply orb_false_iff in Hpl' as [_ ->].
      destruct (Z.ltb_spec linesz0 8); [lia|]. reflexivity. }
    set (c := mk_cache sets0 ways0 linesz0 (idx_shift_loop 64 linesz0 0)
                name0 false gen
                (replicate (Z.to_nat (wrap64 (sets0 * ways0))) 0) 0 0
                (replicate (Z.to_nat (wrap64 (sets0 * ways0))) 0)
                (replicate (Z.to_nat (wrap64 (sets0 * ways0))) 0)
                0 0 0 0 0 0 0 (@None H) None).
    exists c, (if (4 <? ways0) && (sets0 =? 1)
               then set_fa_tags (Some []) c else c).
    split; [now apply Hinit|]. split.
    { unfold construct_parsed, fa_init.
      destruct ((4 <? ways0) && (sets0 =? 1)) eqn:Efa; [|now apply Hinit].
      apply andb_true_iff in Efa as [_ E1]. apply Z.eqb_eq in E1.
      rewrite (Hinit 1) by (symmetry; exact E1). unfold c.
      rewrite E1. reflexivity. }
    split.
    { destruct ((4 <? ways0) && (sets0 =? 1)) eqn:Efa; [right|now left].
      apply andb_true_iff in Efa as [E4 E1].
      apply Z.ltb_lt in E4. apply Z.eqb_eq in E1. auto. }
    simpl. repeat split; try reflexivity.
    destruct Hpl as (k & Hk & ->).
    assert (k < 64).
    { apply (Z.pow_lt_mono_r_iff 2); lia. }
    rewrite idx_shift_loop_power by (simpl; lia). reflexivity.
Qed.

(** ** One set, as a window on the arrays *)

Section SetView.

Context {H : Type}.
Implicit Types c : cache_sim_t H.

Lemma window_ext c c' l idx w :
  ways c' = ways c -> window c l idx w -> window c' l idx w.
Proof.
  intros Hw [Hlen Hrd]. split; [congruence|].
  intros i Hi. unfold slot. rewrite Hw. apply Hrd. lia.
Qed.

Lemma window_insert c l idx w j x :
  geometry c -> 0 <= idx < sets c -> 0 <= j < ways c ->
  window c l idx w ->
  window c (<[Z.to_nat (slot c idx j) := x]> l) idx (<[Z.to_nat j := x]> w).
Proof.
  intros G Hidx Hj [Hlen Hrd]. split; [now rewrite length_insert|].
  intros i Hi. unfold rd.
  destruct (Z.eq_dec i j) as [->|Hne].
  - specialize (Hrd j Hj). unfold rd in Hrd.
    assert (is_Some (w !! Z.to_nat j)) as [t Ht]
      by (apply lookup_lt_is_Some; lia).
    rewrite Ht in Hrd. apply lookup_lt_Some in Hrd.
    rewrite !list_lookup_insert_eq by lia. reflexivity.
  - rewrite !list_lookup_insert_ne.
    + now apply Hrd.
    + lia.
    + intros Heq.
      destruct (slot_in_range c idx i G Hidx Hi) as [Hsi ?].
      destruct (slot_in_range c idx j G Hidx Hj) as [Hsj ?]. lia.
Qed.

Lemma window_replicate c idx n :
  geometry c -> 0 <= idx < sets c -> Z.of_nat n = sets c * ways c ->
  window c (replicate n 0) idx (replicate (Z.to_nat (ways c)) 0).
Proof.
  intros G Hidx Hn. split.
  - rewrite length_replicate. destruct G. lia.
  - intros i Hi. destruct (slot_in_range c idx i G Hidx Hi) as [Hs ?].
    unfold rd. rewrite !lookup_replicate_2 by lia. reflexivity.
Qed.

Lemma scan_tag_range tag ts i j :
  scan_tag tag ts i = Some j ->
  i <= j < i + Z.of_nat (length ts) /\
  exists t, ts !! Z.to_nat (j - i) = Some t /\ tag = Z.land t (not64 DIRTY).
Proof.
  revert i. induction ts as [|t ts IH]; intros i; simpl; [discriminate|].
  destruct (Z.eqb_spec tag (Z.land t (not64 DIRTY))) as [Heq|Hne].
  - intros [= <-]. split; [lia|]. exists t. rewrite Z.sub_diag. auto.
  - intros Hs. destruct (IH _ Hs) as (Hj & t' & Ht' & Htag).
    split; [lia|]. exists t'. split; [|exact Htag].
    replace (Z.to_nat (j - i)) with (S (Z.to_nat (j - (i + 1)))) by lia.
    exact Ht'.
Qed.

Lemma scan_empty_range ts i j :
  scan_empty ts i = Some j -> i <= j < i + Z.of_nat (length ts).
Proof.
  revert i. induction ts as [|t ts IH]; intros i; simpl; [discriminate|].
  destruct (t =? 0).
  - intros [= <-]. lia.
  - intros Hs. apply IH in Hs. lia.
Qed.

Lemma scan_oldest_range ss i way count bound :
  0 <= way < bound -> 0 <= i -> i + Z.of_nat (length ss) <= bound ->
  0 <= scan_oldest ss i way count < bound.
Proof.
  revert i way count. induction ss as [|s ss IH]; intros i way count Hw Hi Hb;
    simpl in *; [lia|].
  destruct (s <? count); apply IH; lia.
Qed.

(** The scans of the code are the scans of the window. *)
Lemma check_tag_loop_window policy c idx tag w n i :
  geometry c -> 0 <= idx < sets c -> window c (tags c) idx w ->
  0 <= i -> i + Z.of_nat n = ways c ->
  check_tag_loop policy c idx tag n i =
    match scan_tag tag (drop (Z.to_nat i) w) i with
    | Some j => Some (stamp_hit policy c (slot c idx j),
                      Some (InArray (slot c idx j)))
    | None => Some (c, None)
    end.
Proof.
  intros G Hidx [Hlen Hrd]. revert i.
  induction n as [|n IH]; intros i Hi Hn; simpl.
  - rewrite drop_ge by lia. reflexivity.
  - assert (is_Some (w !! Z.to_nat i)) as [t Ht]
      by (apply lookup_lt_is_Some; lia).
    rewrite (drop_S _ _ _ Ht). rewrite Hrd, Ht by lia. simpl.
    destruct (tag =? Z.land t (not64 DIRTY)).
    + unfold stamp_hit. destruct (policy_is policy "L"); [|reflexivity].
      simpl. rewrite wr_in_range; [reflexivity|].
      destruct (slot_in_range c idx i G Hidx) as [-> ?]; [lia|].
      destruct G. lia.
    + rewrite IH by lia.
      replace (Z.to_nat (i + 1)) with (S (Z.to_nat i)) by lia. reflexivity.
Qed.

Lemma first_empty_window c idx w n i :
  window c (tags c) idx w -> 0 <= i -> i + Z.of_nat n = ways c ->
  first_empty c idx n i = Some (scan_empty (drop (Z.to_nat i) w) i).
Proof.
  intros [Hlen Hrd]. revert i.
  induction n as [|n IH]; intros i Hi Hn; simpl.
  - rewrite drop_ge by lia. reflexivity.
  - assert (is_Some (w !! Z.to_nat i)) as [t Ht]
      by (apply lookup_lt_is_Some; lia).
    rewrite (drop_S _ _ _ Ht). rewrite Hrd, Ht by lia. simpl.
    destruct (t =? 0); [reflexivity|].
    rewrite IH by lia.
    replace (Z.to_nat (i + 1)) with (S (Z.to_nat i)) by lia. reflexivity.
Qed.

Lemma oldest_window c time idx w n i way count :
  window c time idx w -> 0 <= i -> i + Z.of_nat n = ways c ->
  oldest c time idx n i way count
    = Some (scan_oldest (drop (Z.to_nat i) w) i way count).
Proof.
  intros [Hlen Hrd]. revert i way count.
  induction n as [|n IH]; intros i way count Hi Hn; simpl.
  - rewrite drop_ge by lia. reflexivity.
  - assert (is_Some (w !! Z.to_nat i)) as [t Ht]
      by (apply lookup_lt_is_Some; lia).
    rewrite (drop_S _ _ _ Ht). rewrite Hrd, Ht by lia. simpl.
    replace (S (Z.to_nat i)) with (Z.to_nat (i + 1)) by lia.
    destruct (t <? count); rewrite IH by lia; reflexivity.
Qed.

Lemma lru_set_stamp c idx ts ss cnt ra rm wa wm j x :
  lru_set c idx ts ss cnt ra rm wa wm ->
  0 <= idx < sets c -> 0 <= j < ways c ->
  lru_set (set_LRUTime (<[Z.to_nat (slot c idx j) := x]> (LRUTime c)) c)
    idx ts (<[Z.to_nat j := x]> ss) cnt ra rm wa wm.
Proof.
  intros [G Hfa Hlast Hlog Wt Ws Hc Hra Hrm Hwa Hwm] Hidx Hj.
  constructor; try assumption.
  - apply (geometry_ext c); try reflexivity; [|exact G].
    cbn. now rewrite length_insert.
  - apply (window_ext c); [reflexivity|]. cbn. now apply window_insert.
Qed.

Lemma lru_set_retag c idx ts ss cnt ra rm wa wm j x :
  lru_set c idx ts ss cnt ra rm wa wm ->
  0 <= idx < sets c -> 0 <= j < ways c ->
  lru_set (set_tags (<[Z.to_nat (slot c idx j) := x]> (tags c)) c)
    idx (<[Z.to_nat j := x]> ts) ss cnt ra rm wa wm.
Proof.
  intros [G Hfa Hlast Hlog Wt Ws Hc Hra Hrm Hwa Hwm] Hidx Hj.
  constructor; try assumption.
  - apply (geometry_ext c); try reflexivity; [|exact G].
    cbn. now rewrite length_insert.
  - apply (window_ext c); [reflexivity|]. cbn. now apply window_insert.
Qed.

(** [LRU], on the window of the target set. *)
Lemma LRU_window c addr ts ss :
  geometry c ->
  window c (tags c) (set_index c addr) ts ->
  window c (LRUTime c) (set_index c addr) ss ->
  forall way ss1 cnt1,
    match scan_empty ts 0 with
    | Some i => (i, <[Z.to_nat i := LRUCount c]> ss,
                 wrap_int (LRUCount c + 1))
    | None => (scan_oldest ss 0 0 2147483647, ss, LRUCount c)
    end = (way, ss1, cnt1) ->
  exists victim a,
    0 <= way < ways c /\ ts !! Z.to_nat way = Some victim /\
    window c a (set_index c addr) (<[Z.to_nat way := cnt1]> ss1) /\
    length a = length (LRUTime c) /\
    LRU c addr =
      Some (installed c (slot c (set_index c addr) way) (line_tag c addr)
              (lfsr c) (wrap_int (cnt1 + 1)) a (FIFOTime c), victim).
Proof.
  intros G Wt Ws way ss1 cnt1 Hsel.
  pose proof (set_index_range c addr G) as Hidx.
  set (idx := set_index c addr) in *.
  assert (Hcell : forall w, 0 <= w < ways c ->
            0 <= slot c idx w < Z.of_nat (length (tags c)) /\
            slot c idx w < Z.of_nat (length (LRUTime c))).
  { intros w Hw. destruct (slot_in_range c idx w G Hidx Hw) as [-> ?].
    destruct G. lia. }
  assert (Hlen : Z.of_nat (length ts) = ways c) by apply Wt.
  unfold LRU. fold idx.
  rewrite (first_empty_window c idx ts) by (auto; destruct G; lia).
  change (drop (Z.to_nat 0) ts) with ts. cbn [mbind option_bind].
  destruct (scan_empty ts 0) as [i|] eqn:Hscan.
  - injection Hsel as <- <- <-.
    apply scan_empty_range in Hscan.
    assert (Hi : 0 <= i < ways c) by lia.
    destruct (Hcell i Hi) as [Ht Hl].
    assert (is_Some (ts !! Z.to_nat i)) as [v Hv]
      by (apply lookup_lt_is_Some; lia).
    rewrite wr_in_range by exact Hl. cbn [mbind option_bind].
    same_geometry c.
    change (tags (set_LRUCount _ (set_LRUTime _ c))) with (tags c).
    rewrite (proj2 Wt i Hi), Hv. cbn [mbind option_bind].
    change (LRUTime (set_LRUCount ?n (set_LRUTime ?a c))) with a.
    rewrite wr_in_range by (rewrite length_insert; exact Hl).
    cbn [mbind option_bind]. same_geometry c.
    change (tags (set_LRUCount _ (set_LRUTime _ _))) with (tags c).
    rewrite wr_in_range by lia. cbn [mbind option_bind].
    exists v, (<[Z.to_nat (slot c idx i) := wrap_int (LRUCount c + 1)]>
                 (<[Z.to_nat (slot c idx i) := LRUCount c]> (LRUTime c))).
    split; [exact Hi|]. split; [first [exact Hv|reflexivity]|].
    split; [|split].
    + apply window_insert; auto. apply window_insert; auto.
    + now rewrite !length_insert.
    + destruct c; reflexivity.
  - injection Hsel as <- <- <-.
    rewrite (oldest_window c (LRUTime c) idx ss) by (auto; destruct G; lia).
    change (drop (Z.to_nat 0) ss) with ss. cbn [mbind option_bind].
    set (way := scan_oldest ss 0 0 2147483647).
    assert (Hway : 0 <= way < ways c).
    { apply scan_oldest_range; try lia; [destruct G; lia|].
      destruct Ws. lia. }
    destruct (Hcell way Hway) as [Ht Hl].
    assert (is_Some (ts !! Z.to_nat way)) as [v Hv]
      by (apply lookup_lt_is_Some; lia).
    rewrite (proj2 Wt way Hway), Hv. cbn [mbind option_bind].
    rewrite wr_in_range by exact Hl. cbn [mbind option_bind].
    same_geometry c.
    change (tags (set_LRUCount _ (set_LRUTime _ c))) with (tags c).
    rewrite wr_in_range by lia. cbn [mbind option_bind].
    exists v, (<[Z.to_nat (slot c idx way) := LRUCount c]> (LRUTime c)).
    split; [exact Hway|]. split; [first [exact Hv|reflexivity]|].
    split; [|split].
    + apply window_insert; auto.
    + now rewrite !length_insert.
    + destruct c; reflexivity.
Qed.

(** An access under LRU at a last level, on the window of the target
    set: what [lru_set_access] computes on the lists is what [access] does
    to the arrays and the counters. *)
Lemma lru_access_refines (next_access : H -> Z -> Z -> bool -> option H)
    c addr bytes store ts ss cnt ra rm wa wm ts' ss' cnt' r :
  lru_set c (set_index c addr) ts ss cnt ra rm wa wm ->
  0 <= addr < 2 ^ 64 ->
  lru_set_access (line_tag c addr) store ts ss cnt = Some (ts', ss', cnt', r) ->
  exists c',
    access next_access "L" c addr bytes store = Some (c', []) /\
    lru_set c' (set_index c addr) ts' ss' cnt'
      (if store then ra else wrap64 (ra + 1))
      (match r with
       | Some _ => if store then rm else wrap64 (rm + 1)
       | None => rm
       end)
      (if store then wrap64 (wa + 1) else wa)
      (match r with
       | Some _ => if store then wrap64 (wm + 1) else wm
       | None => wm
       end) /\
    (sets c' = sets c /\ ways c' = ways c /\ idx_shift c' = idx_shift c /\
     linesz c' = linesz c) /\
    match r with
    | Some v =>
        check_tag "L" (count_access "L" c bytes store) addr
          = Some (count_access "L" c bytes store, None) /\
        exists c2,
          select_victim "L"
            (count_miss (count_access "L" c bytes store) store) addr
            = Some (c2, v)
    | None =>
        exists c1 p,
          check_tag "L" (count_access "L" c bytes store) addr
            = Some (c1, Some p)
    end.
Proof.
  intros [G Hfa Hlast Hlog Wt Ws Hc Hra Hrm Hwa Hwm] Haddr Hstep.
  pose proof (set_index_range c addr G) as Hidx.
  set (idx := set_index c addr) in *.
  set (tag := line_tag c addr) in *.
  set (ca := count_access "L" c bytes store).
  assert (Ga : geometry ca) by now apply count_access_geometry.
  assert (Hfaa : fa_tags ca = None)
    by (unfold ca; now rewrite count_access_fa).
  assert (Sa : sets ca = sets c /\ ways ca = ways c /\
               idx_shift ca = idx_shift c /\ linesz ca = linesz c /\
               tags ca = tags c /\ LRUTime ca = LRUTime c /\
               LRUCount ca = wrap_int (cnt + 1) /\
               miss_handler ca = None /\ log ca = false /\
               read_accesses ca = (if store then ra else wrap64 (ra + 1)) /\
               write_accesses ca = (if store then wrap64 (wa + 1) else wa) /\
               read_misses ca = rm /\ write_misses ca = wm).
  { unfold ca, count_access. change (policy_is "L" "L") with true.
    change (policy_is "L" "F") with false. subst cnt ra rm wa wm.
    destruct store; simpl; auto 15. }
  destruct Sa as (Hsa & Hwa' & Hia & Hla & Hta & Hlta & Hca & Hma & Hloga
                  & Hraa & Hwaa & Hrma & Hwma).
  assert (Hidxa : set_index ca addr = idx)
    by (unfold idx, set_index; now rewrite Hsa, Hia).
  assert (Htaga : line_tag ca addr = tag)
    by (unfold tag, line_tag; now rewrite Hia).
  assert (Wta : window ca (tags ca) idx ts)
    by (rewrite Hta; now apply (window_ext c)).
  assert (Hct : check_tag "L" ca addr =
                match scan_tag tag ts 0 with
                | Some j => Some (stamp_hit "L" ca (slot ca idx j),
                                  Some (InArray (slot ca idx j)))
                | None => Some (ca, None)
                end).
  { unfold check_tag, cache_sim_t_check_tag. rewrite Hfaa, Hidxa, Htaga.
    assert (Hidx_a : 0 <= idx < sets ca) by (rewrite Hsa; exact Hidx).
    rewrite (check_tag_loop_window "L" ca idx tag ts _ 0 Ga Hidx_a Wta)
      by (destruct Ga; lia).
    reflexivity. }
  unfold lru_set_access in Hstep. fold tag in Hstep.
  destruct (scan_tag tag ts 0) as [j|] eqn:Hscan.
  - (* hit *)
    destruct (ts !! Z.to_nat j) as [t|] eqn:Ht; [|discriminate].
    cbn [mbind option_bind] in Hstep. injection Hstep as <- <- <- <-.
    apply scan_tag_range in Hscan as (Hj & _).
    assert (Hj' : 0 <= j < ways c) by (destruct Wt; lia).
    destruct (hit_spec next_access "L" c addr bytes store _ _ Hfa Hct)
      as (j1 & t1 & Hspec). cbv zeta in Hspec.
    destruct Hspec as (Hj1 & Hp & Hrd1 & _ & _ & _ & Hacc).
    assert (slot ca idx j = slot c idx j) as Hslot
      by (unfold slot; now rewrite Hwa').
    rewrite Hslot in *. fold idx in Hp, Hrd1, Hacc.
    injection Hp as Hp. apply slot_inj in Hp; auto. subst j1.
    rewrite (proj2 Wt j Hj'), Ht in Hrd1. injection Hrd1 as <-.
    eexists. split; [exact Hacc|].
    assert (Hst : LRUTime (stamp_hit "L" ca (slot c idx j))
                  = <[Z.to_nat (slot c idx j) := wrap_int (cnt + 1)]>
                      (LRUTime c))
      by (unfold stamp_hit; change (policy_is "L" "L") with true; simpl;
          now rewrite Hca, Hlta).
    assert (Gs : geometry (stamp_hit "L" ca (slot c idx j))).
    { apply (geometry_ext ca); try reflexivity; [|exact Ga].
      unfold stamp_hit. change (policy_is "L" "L") with true. simpl.
      now rewrite length_insert. }
    split; [|split].
    + destruct store; constructor; cbn; try assumption; try reflexivity;
        try (apply (window_ext c); [reflexivity|]; subst cnt;
             now apply window_insert);
        (apply (geometry_ext c); [..|exact G]; cbn;
         rewrite ?length_insert; reflexivity).
    + destruct store; cbn; auto.
    + eauto.
  - (* miss *)
    set (c0 := count_miss ca store).
    assert (S0 : sets c0 = sets c /\ ways c0 = ways c /\
                 idx_shift c0 = idx_shift c /\
                 tags c0 = tags c /\ LRUTime c0 = LRUTime c /\
                 LRUCount c0 = wrap_int (cnt + 1)).
    { unfold c0, count_miss. destruct store; simpl; auto 10. }
    destruct S0 as (Hs0 & Hw0 & Hi0 & Ht0 & Hlt0 & Hc0).
    assert (G0 : geometry c0) by now apply counted_geometry.
    assert (Hidx0 : set_index c0 addr = idx)
      by (unfold idx, set_index; now rewrite Hs0, Hi0).
    assert (Htag0 : line_tag c0 addr = tag)
      by (unfold tag, line_tag; now rewrite Hi0).
    assert (Hslot0 : forall w, slot c0 idx w = slot c idx w)
      by (intros w; unfold slot; now rewrite Hw0).
    destruct (match scan_empty ts 0 with
              | Some i => (i, <[Z.to_nat i := wrap_int (cnt + 1)]> ss,
                           wrap_int (wrap_int (cnt + 1) + 1))
              | None => (scan_oldest ss 0 0 2147483647, ss, wrap_int (cnt + 1))
              end) as [[way ss1] cnt1] eqn:Hsel0.
    destruct (LRU_window c0 addr ts ss G0) with (way := way) (ss1 := ss1)
      (cnt1 := cnt1) as (victim & a & Hway & Hv & Wa & Hla' & HLRU).
    { rewrite Hidx0, Ht0. now apply (window_ext c). }
    { rewrite Hidx0, Hlt0. now apply (window_ext c). }
    { rewrite Hc0. exact Hsel0. }
    rewrite Hidx0, Htag0, Hslot0 in *. rewrite Hw0 in Hway.
    rewrite Hv in Hstep. cbn [mbind option_bind] in Hstep.
    set (c2 := installed c0 (slot c idx way) tag (lfsr c0)
                 (wrap_int (cnt1 + 1)) a (FIFOTime c0)) in *.
    assert (Hsel : select_victim "L" c0 addr = Some (c2, victim))
      by exact HLRU.
    set (c3 := if valid_dirty victim
               then set_writebacks (wrap64 (writebacks c2 + 1)) c2
               else c2).
    assert (Hwb : writeback next_access c2 victim = Some (c3, [])).
    { unfold writeback, forward, c3.
      replace (miss_handler c2) with (miss_handler ca)
        by (unfold c2, c0, count_miss; now destruct store).
      rewrite Hma. now destruct (valid_dirty victim). }
    assert (Hfill : fill next_access c3 addr = Some (c3, [])).
    { unfold fill, forward.
      replace (miss_handler c3) with (miss_handler ca)
        by (unfold c3, c2, c0, count_miss;
            now destruct (valid_dirty victim), store).
      now rewrite Hma. }
    assert (S3 : sets c3 = sets c /\ ways c3 = ways c /\
                 idx_shift c3 = idx_shift c /\ linesz c3 = linesz c /\
                 tags c3 = <[Z.to_nat (slot c idx way) := tag]> (tags c) /\
                 LRUTime c3 = a /\ LRUCount c3 = wrap_int (cnt1 + 1) /\
                 fa_tags c3 = None /\ miss_handler c3 = None /\
                 log c3 = false /\
                 length (FIFOTime c3) = length (FIFOTime c) /\
                 read_accesses c3 = (if store then ra else wrap64 (ra + 1)) /\
                 write_accesses c3 = (if store then wrap64 (wa + 1) else wa) /\
                 read_misses c3 = (if store then rm else wrap64 (rm + 1)) /\
                 write_misses c3 = (if store then wrap64 (wm + 1) else wm)).
    { unfold c3, c2, c0, count_miss.
      destruct (valid_dirty victim), store; cbn;
        rewrite ?Hsa, ?Hwa', ?Hia, ?Hla, ?Hta, ?Hfaa, ?Hma, ?Hloga, ?Hraa,
          ?Hwaa, ?Hrma, ?Hwma;
        repeat split; try reflexivity; congruence. }
    destruct S3 as (Hs3 & Hw3 & Hi3 & Hl3 & Ht3 & Hlt3 & Hc3 & Hfa3 & Hm3
                    & Hlog3 & Hf3 & Hra3 & Hwa3 & Hrm3 & Hwm3).
    assert (G3 : geometry c3).
    { apply (geometry_ext c);
        [exact Hs3|exact Hw3|exact Hl3|exact Hi3
        |rewrite Ht3; apply length_insert
        |rewrite Hlt3, Hla'; now rewrite Hlt0|exact Hf3|exact G]. }
    assert (Wt3 : window c3 (tags c3) idx (<[Z.to_nat way := tag]> ts)).
    { rewrite Ht3. apply (window_ext c); [exact Hw3|].
      now apply window_insert. }
    assert (Ws3 : window c3 (LRUTime c3) idx (<[Z.to_nat way := cnt1]> ss1)).
    { rewrite Hlt3. apply (window_ext c0); [congruence|exact Wa]. }
    assert (Hidx3 : set_index c3 addr = idx)
      by (unfold idx, set_index; now rewrite Hs3, Hi3).
    assert (Htag3 : line_tag c3 addr = tag)
      by (unfold tag, line_tag; now rewrite Hi3).
    assert (Hacc : forall c',
              mark_new_line "L" c3 addr store = Some c' ->
              access next_access "L" c addr bytes store = Some (c', [])).
    { intros c' Hmark. unfold access. fold ca. rewrite Hct.
      cbn [mbind option_bind]. fold c0. rewrite Hsel.
      cbn [mbind option_bind]. rewrite Hwb. cbn [mbind option_bind].
      rewrite Hfill. cbn [mbind option_bind]. rewrite Hmark.
      cbn [mbind option_bind].
      unfold miss_trace.
      replace (log c0) with (log ca)
        by (unfold c0, count_miss; now destruct store).
      now rewrite Hloga. }
    assert (Hgeo : sets c3 = sets c /\ ways c3 = ways c /\
                   idx_shift c3 = idx_shift c /\ linesz c3 = linesz c)
      by auto.
    assert (L3 : lru_set c3 idx (<[Z.to_nat way := tag]> ts)
                   (<[Z.to_nat way := cnt1]> ss1) (wrap_int (cnt1 + 1))
                   (if store then ra else wrap64 (ra + 1))
                   (if store then rm else wrap64 (rm + 1))
                   (if store then wrap64 (wa + 1) else wa)
                   (if store then wrap64 (wm + 1) else wm))
      by (constructor; assumption).
    assert (Hidx3' : 0 <= idx < sets c3) by (rewrite Hs3; exact Hidx).
    destruct store.
    + (* store: the line is looked up again and marked *)
      destruct (scan_tag tag (<[Z.to_nat way := tag]> ts) 0) as [j|] eqn:Hscan';
        [|discriminate].
      cbn [mbind option_bind] in Hstep.
      destruct (<[Z.to_nat way := tag]> ts !! Z.to_nat j) as [t|] eqn:Ht;
        [|discriminate].
      cbn [mbind option_bind] in Hstep. injection Hstep as <- <- <- <-.
      pose proof (scan_tag_range _ _ _ _ Hscan') as (Hj & _).
      assert (Hj' : 0 <= j < ways c3).
      { rewrite length_insert in Hj. destruct Wt. lia. }
      assert (Hct3 : check_tag "L" c3 addr
                     = Some (stamp_hit "L" c3 (slot c3 idx j),
                             Some (InArray (slot c3 idx j)))).
      { unfold check_tag, cache_sim_t_check_tag. rewrite Hfa3, Hidx3, Htag3.
        rewrite (check_tag_loop_window "L" c3 idx tag _ _ 0 G3 Hidx3' Wt3)
          by (destruct G3; lia).
        change (drop (Z.to_nat 0) (<[Z.to_nat way := tag]> ts))
          with (<[Z.to_nat way := tag]> ts).
        now rewrite Hscan'. }
      change (stamp_hit "L" c3 (slot c3 idx j))
        with (set_LRUTime (<[Z.to_nat (slot c3 idx j) := LRUCount c3]>
                             (LRUTime c3)) c3) in Hct3.
      set (st := set_LRUTime _ c3) in *.
      assert (Hrdst : rd (tags st) (slot c3 idx j) = Some t).
      { change (tags st) with (tags c3).
        rewrite (proj2 Wt3 j) by lia. exact Ht. }
      assert (Hmark : mark_new_line "L" c3 addr true
                = Some (set_tags (<[Z.to_nat (slot c3 idx j) := Z.lor t DIRTY]>
                                    (tags st)) st)).
      { unfold mark_new_line. rewrite Hct3. cbn [mbind option_bind].
        now rewrite (or_dirty_array _ _ _ Hrdst). }
      eexists. split; [exact (Hacc _ Hmark)|].
      split; [|split; [exact Hgeo|split; [exact Hct|eexists; exact Hsel]]].
      apply (lru_set_stamp _ _ _ _ _ _ _ _ _ j (LRUCount c3)) in L3; auto.
      fold st in L3.
      apply (lru_set_retag _ _ _ _ _ _ _ _ _ j (Z.lor t DIRTY)) in L3; auto.
      rewrite Hc3 in L3. exact L3.
    + (* load *)
      injection Hstep as <- <- <- <-.
      exists c3. split; [apply Hacc; reflexivity|].
      split; [exact L3|].
      split; [exact Hgeo|split; [exact Hct|eexists; exact Hsel]].
Qed.

End SetView.

(** ** A fresh cache *)

Lemma init_built {H : Type} gen sets0 ways0 linesz0 name0 (c : cache_sim_t H) :
  init gen sets0 ways0 linesz0 name0 = Built c ->
  c = mk_cache sets0 ways0 linesz0 (idx_shift_loop 64 linesz0 0) name0 false
        gen (replicate (Z.to_nat (wrap64 (sets0 * ways0))) 0) 0 0
        (replicate (Z.to_nat (wrap64 (sets0 * ways0))) 0)
        (replicate (Z.to_nat (wrap64 (sets0 * ways0))) 0)
        0 0 0 0 0 0 0 None None /\
  (sets0 =? 0) || negb (Z.land sets0 (wrap64 (sets0 - 1)) =? 0) = false /\
  (linesz0 <? 8) || negb (Z.land linesz0 (wrap64 (linesz0 - 1)) =? 0) = false.
Proof.
  unfold init, help.
  destruct ((sets0 =? 0) || _); [discriminate|].
  destruct ((linesz0 <? 8) || _); [discriminate|].
  intros [= <-]. auto.
Qed.

(** What [init] builds has the geometry that the operations rely on, when
    the number of ways is positive and the cells fit the address space. *)
Lemma init_geometry {H : Type} gen sets0 ways0 linesz0 name0
    (c : cache_sim_t H) :
  init gen sets0 ways0 linesz0 name0 = Built c ->
  0 <= sets0 -> 0 <= linesz0 < 2 ^ 64 ->
  0 < ways0 -> sets0 * ways0 < 2 ^ 64 ->
  geometry c.
Proof.
  intros Hinit Hs Hl Hw Hcells.
  apply init_built in Hinit as (-> & Hsets & Hline).
  apply orb_false_iff in Hsets as [Hs0 _]. apply Z.eqb_neq in Hs0.
  apply orb_false_iff in Hline as [H8 Hpow]. apply Z.ltb_ge in H8.
  assert (Hp : power_of_two linesz0).
  { apply power_of_two_test; [lia|]. rewrite Hpow.
    destruct (Z.eqb_spec linesz0 0); [lia|reflexivity]. }
  destruct Hp as (k & Hk & ->).
  assert (3 <= k < 64).
  { split.
    - apply (Z.pow_le_mono_r_iff 2); lia.
    - apply (Z.pow_lt_mono_r_iff 2); lia. }
  assert (Hcells' : wrap64 (sets0 * ways0) = sets0 * ways0)
    by (apply wrap64_small; nia).
  assert (Hshift : idx_shift_loop 64 (2 ^ k) 0 = k)
    by (rewrite idx_shift_loop_power; [lia|simpl; lia]).
  constructor; cbn [sets ways linesz idx_shift tags LRUTime FIFOTime];
    rewrite ?Hshift, ?length_replicate, ?Hcells'; try lia; nia.
Qed.

Lemma init_lru_set {H : Type} gen sets0 ways0 linesz0 name0
    (c : cache_sim_t H) idx :
  init gen sets0 ways0 linesz0 name0 = Built c ->
  0 <= sets0 -> 0 <= linesz0 < 2 ^ 64 ->
  0 < ways0 -> sets0 * ways0 < 2 ^ 64 -> 0 <= idx < sets0 ->
  lru_set c idx (replicate (Z.to_nat ways0) 0) (replicate (Z.to_nat ways0) 0)
    0 0 0 0 0.
Proof.
  intros Hinit Hs Hl Hw Hcells Hidx.
  pose proof (init_geometry _ _ _ _ _ _ Hinit Hs Hl Hw Hcells) as G.
  apply init_built in Hinit as (-> & _ & _).
  assert (Hcells' : wrap64 (sets0 * ways0) = sets0 * ways0)
    by (apply wrap64_small; nia).
  constructor; try reflexivity; try exact G.
  - apply (window_replicate _ idx (Z.to_nat (wrap64 (sets0 * ways0))) G);
      [exact Hidx|cbn; lia].
  - apply (window_replicate _ idx (Z.to_nat (wrap64 (sets0 * ways0))) G);
      [exact Hidx|cbn; lia].
Qed.

(** ** Scenarios under LRU *)

(** One step of a scenario: the access, from the target set and the tag of
    the address. *)
Lemma lru_access_step {H : Type}
    (next_access : H -> Z -> Z -> bool -> option H)
    (c : cache_sim_t H) addr bytes store idx tag
    ts ss cnt ra rm wa wm ts' ss' cnt' r :
  lru_set c idx ts ss cnt ra rm wa wm ->
  0 <= addr < 2 ^ 64 ->
  set_index c addr = idx -> line_tag c addr = tag ->
  lru_set_access tag store ts ss cnt = Some (ts', ss', cnt', r) ->
  exists c',
    access next_access "L" c addr bytes store = Some (c', []) /\
    lru_set c' idx ts' ss' cnt'
      (if store then ra else wrap64 (ra + 1))
      (match r with
       | Some _ => if store then rm else wrap64 (rm + 1)
       | None => rm
       end)
      (if store then wrap64 (wa + 1) else wa)
      (match r with
       | Some _ => if store then wrap64 (wm + 1) else wm
       | None => wm
       end) /\
    (forall a, set_index c' a = set_index c a) /\
    (forall a, line_tag c' a = line_tag c a) /\
    forall v, r = Some v ->
      exists c2,
        select_victim "L"
          (count_miss (count_access "L" c bytes store) store) addr
          = Some (c2, v).
Proof.
  intros L Haddr <- <- Hstep.
  destruct (lru_access_refines next_access c addr bytes store
              _ _ _ _ _ _ _ _ _ _ _ L Haddr Hstep)
    as (c' & Hacc & L' & (Hs & Hw & Hi & Hl) & Hr).
  exists c'. split; [exact Hacc|]. split; [exact L'|].
  split; [intros a; unfold set_index; now rewrite Hs, Hi|].
  split; [intros a; unfold line_tag; now rewrite Hi|].
  intros v ->. now destruct Hr.
Qed.

(** C6. One set of two ways, lines of eight bytes, LRU, no next level: the
    reads of addresses 0, 8, 0, 16 (line addresses 0, 1, 0, 2), of any
    sizes, miss, miss, hit, miss; the miss rate is 75. *)
Theorem miss_rate_scenario {H : Type}
    (next_access : H -> Z -> Z -> bool -> option H) gen name0 b1 b2 b3 b4 :
  exists c0 c : cache_sim_t H,
    init gen 1 2 8 name0 = Built c0 /\
    miss_handler c0 = None /\
    run next_access "L" c0
      [(0, b1, false); (8, b2, false); (0, b3, false); (16, b4, false)]
      = Some (c, []) /\
    hit_sequence next_access "L" c0
      [(0, b1, false); (8, b2, false); (0, b3, false); (16, b4, false)]
      = Some [false; false; true; false] /\
    read_accesses c = 4 /\ write_accesses c = 0 /\
    read_misses c = 3 /\ write_misses c = 0 /\
    exists q, miss_rate c = Some q /\ Qeq q (75 # 1).
Proof.
  destruct (@init H gen 1 2 8 name0) as [|c0] eqn:Hinit; [discriminate|].
  pose proof (init_lru_set gen 1 2 8 name0 c0 0 Hinit) as L0.
  specialize (L0 ltac:(lia) ltac:(lia) ltac:(lia) ltac:(lia) ltac:(lia)).
  change (Z.to_nat 2) with 2%nat in L0. cbn [replicate] in L0.
  apply init_built in Hinit as (Hc0 & _).
  assert (Hidx0 : forall a, set_index c0 a = 0)
    by (intros a; subst c0; apply Z.land_0_r).
  assert (Htag0 : forall a, line_tag c0 a = Z.lor (Z.shiftr a 3) VALID)
    by (intros a; subst c0; reflexivity).
  assert (Hm0 : misses c0 = 0) by (subst c0; reflexivity).
  assert (Hh0 : miss_handler c0 = None) by (subst c0; reflexivity).
  clear Hc0.
  edestruct (lru_access_step next_access c0 0 b1 false)
    as (c1 & Hacc1 & L1 & Hidx1 & Htag1 & _);
    [exact L0|lia|apply Hidx0|apply Htag0|vm_compute; reflexivity|].
  edestruct (lru_access_step next_access c1 8 b2 false)
    as (c2 & Hacc2 & L2 & Hidx2 & Htag2 & _);
    [exact L1|lia|rewrite Hidx1; apply Hidx0|rewrite Htag1; apply Htag0
    |vm_compute; reflexivity|].
  edestruct (lru_access_step next_access c2 0 b3 false)
    as (c3 & Hacc3 & L3 & Hidx3 & Htag3 & _);
    [exact L2|lia|rewrite Hidx2, Hidx1; apply Hidx0
    |rewrite Htag2, Htag1; apply Htag0|vm_compute; reflexivity|].
  edestruct (lru_access_step next_access c3 16 b4 false)
    as (c4 & Hacc4 & L4 & Hidx4 & Htag4 & _);
    [exact L3|lia|rewrite Hidx3, Hidx2, Hidx1; apply Hidx0
    |rewrite Htag3, Htag2, Htag1; apply Htag0|vm_compute; reflexivity|].
  assert (Hm : forall (c : cache_sim_t H) idx ts ss cnt ra rm wa wm,
            lru_set c idx ts ss cnt ra rm wa wm ->
            misses c = wrap64 (rm + wm)).
  { intros c idx ts ss cnt ra rm wa wm []. unfold misses. congruence. }
  exists c0, c4. split; [reflexivity|]. split; [exact Hh0|].
  split.
  { cbn [run]. rewrite Hacc1. cbn [mbind option_bind].
    rewrite Hacc2. cbn [mbind option_bind].
    rewrite Hacc3. cbn [mbind option_bind].
    rewrite Hacc4. reflexivity. }
  split.
  { cbn [hit_sequence]. rewrite Hacc1. cbn [mbind option_bind].
    rewrite Hacc2. cbn [mbind option_bind].
    rewrite Hacc3. cbn [mbind option_bind].
    rewrite Hacc4. cbn [mbind option_bind].
    rewrite (Hm _ _ _ _ _ _ _ _ _ L1), (Hm _ _ _ _ _ _ _ _ _ L2),
      (Hm _ _ _ _ _ _ _ _ _ L3), (Hm _ _ _ _ _ _ _ _ _ L4), Hm0.
    reflexivity. }
  destruct L4 as [_ _ _ _ _ _ _ Hra Hrm Hwa Hwm].
  split; [rewrite Hra; reflexivity|].
  split; [rewrite Hwa; reflexivity|].
  split; [rewrite Hrm; reflexivity|].
  split; [rewrite Hwm; reflexivity|].
  unfold miss_rate, misses. rewrite Hra, Hwa, Hrm, Hwm.
  eexists. split; reflexivity.
Qed.

Lemma lru_set_misses {H : Type} (c : cache_sim_t H) idx ts ss cnt ra rm wa wm :
  lru_set c idx ts ss cnt ra rm wa wm -> misses c = wrap64 (rm + wm).
Proof. intros []. unfold misses. congruence. Qed.

(** The tag words of a line, clean or dirty, as the scans see them. *)
Lemma line_tag_words {H : Type} (c : cache_sim_t H) addr :
  geometry c -> 0 <= addr < 2 ^ 64 -> tag_word (line_tag c addr).
Proof.
  intros G Haddr. set (t := line_tag c addr). unfold tag_word.
  assert (Hx : 0 <= Z.shiftr addr (idx_shift c) < 2 ^ 61).
  { apply line_address_range; [exact Haddr|]. destruct G. lia. }
  assert (Ht : 2 ^ 63 <= t) by (apply tag_word_valid; lia).
  split; [now apply tag_word_clean|].
  split; [now apply tag_word_dirty_clean|].
  split; [apply Z.eqb_neq; lia|].
  apply Z.eqb_neq. intros Hz.
  apply Z.lor_eq_0_iff in Hz as [Hz _]. lia.
Qed.

(** Rewriting of the tests of the scans with what is known of the tag
    words. *)
Ltac tag_facts :=
  repeat match goal with
    | Hf : Z.land ?w (not64 DIRTY) = _
      |- context [Z.land ?w (not64 DIRTY)] => rewrite Hf
    | Hf : (?x =? ?y) = _ |- context [?x =? ?y] => rewrite Hf
    | |- context [Z.land 0 (not64 DIRTY)] =>
        rewrite (Z.land_0_l (not64 DIRTY))
    | |- context [?x =? ?x] => rewrite (Z.eqb_refl x)
    end.

(** Evaluation of one access on lists of symbolic tag words: the scans
    first, test by test, and what they leave by computation. *)
Ltac lru_eval :=
  unfold lru_set_access;
  repeat (progress (cbn [scan_tag scan_empty]; tag_facts));
  repeat (progress (cbv -[Z.land Z.lor not64 DIRTY VALID Z.eqb]; tag_facts));
  reflexivity.


Lemma wrap64_succ_ne (x y : Z) :
  wrap64 (wrap64 (x + 1) + y) <> wrap64 (x + y) /\
  wrap64 (x + wrap64 (y + 1)) <> wrap64 (x + y).
Proof.
  unfold wrap64. rewrite Z.add_mod_idemp_l, Z.add_mod_idemp_r by lia.
  split; Z.div_mod_to_equations; lia.
Qed.

(** A trace of accesses to one set under LRU at a last level: what
    [lru_set_run] computes on the lists is what [run] does, and the victims
    tell the misses. *)
Lemma lru_run_refines {H : Type}
    (next_access : H -> Z -> Z -> bool -> option H)
    (refs : list (Z * Z * bool)) :
  forall (c : cache_sim_t H) idx ts ss cnt ra rm wa wm ts' ss' cnt' rs,
  lru_set c idx ts ss cnt ra rm wa wm ->
  Forall (fun ref => 0 <= ref.1.1 < 2 ^ 64 /\ set_index c ref.1.1 = idx)
    refs ->
  lru_set_run (map (fun ref => (line_tag c ref.1.1, ref.2)) refs) ts ss cnt
    = Some (ts', ss', cnt', rs) ->
  exists c' ra' rm' wa' wm',
    run next_access "L" c refs = Some (c', []) /\
    hit_sequence next_access "L" c refs
      = Some (map (fun r : option Z =>
                     match r with Some _ => false | None => true end) rs) /\
    lru_set c' idx ts' ss' cnt' ra' rm' wa' wm' /\
    (forall a, set_index c' a = set_index c a) /\
    (forall a, line_tag c' a = line_tag c a).
Proof.
  induction refs as [|[[a b] s] refs IH];
    intros c idx ts ss cnt ra rm wa wm ts' ss' cnt' rs L Hall Hrun.
  - injection Hrun as <- <- <- <-. exists c, ra, rm, wa, wm. auto.
  - apply Forall_cons in Hall as [[Ha Hidx] Hall]. cbn [fst snd] in Ha, Hidx.
    cbn [map lru_set_run fst snd] in Hrun.
    destruct (lru_set_access (line_tag c a) s ts ss cnt)
      as [[[[ts1 ss1] cnt1] r]|] eqn:Hstep; [|discriminate].
    cbn [mbind option_bind] in Hrun.
    destruct (lru_access_step next_access c a b s idx (line_tag c a)
                _ _ _ _ _ _ _ _ _ _ _ L Ha Hidx eq_refl Hstep)
      as (c1 & Hacc & L1 & Hidx1 & Htag1 & _).
    destruct (lru_set_run _ ts1 ss1 cnt1) as [[[[ts2 ss2] cnt2] rs2]|]
      eqn:Hrest; [|discriminate].
    cbn [mbind option_bind] in Hrun. injection Hrun as <- <- <- <-.
    destruct (IH c1 idx ts1 ss1 cnt1 _ _ _ _ ts2 ss2 cnt2 rs2 L1)
      as (c' & ra' & rm' & wa' & wm' & Hrun' & Hseq' & L' & Hidx' & Htag').
    { eapply Forall_impl; [exact Hall|].
      intros ref [? ?]. now rewrite Hidx1. }
    { rewrite <- Hrest. f_equal. apply map_ext. intros ref.
      now rewrite Htag1. }
    exists c', ra', rm', wa', wm'. split; [|split; [|split; [exact L'|]]].
    + cbn [run]. rewrite Hacc. cbn [mbind option_bind]. now rewrite Hrun'.
    + cbn [hit_sequence]. rewrite Hacc. cbn [mbind option_bind].
      rewrite Hseq'. cbn [mbind option_bind map]. do 2 f_equal.
      rewrite (lru_set_misses _ _ _ _ _ _ _ _ _ L),
        (lru_set_misses _ _ _ _ _ _ _ _ _ L1).
      destruct r as [v|]; [|apply Z.eqb_refl].
      apply Z.eqb_neq. destruct s; apply wrap64_succ_ne.
    + split; intros a'; [now rewrite Hidx', Hidx1|now rewrite Htag', Htag1].
Qed.

(** A store that hits a dirty line leaves its word as it is. *)
Lemma lor_dirty_twice (t : Z) : Z.lor (Z.lor t DIRTY) DIRTY = Z.lor t DIRTY.
Proof. now rewrite <- Z.lor_assoc, Z.lor_diag. Qed.

(** Evaluation of a run, one access after the other. *)
Ltac lru_run_eval :=
  cbn [lru_set_run];
  repeat match goal with
    | |- context [lru_set_access ?t ?s ?ts ?ss ?cnt] =>
        let Hs := fresh "Hs" in
        eassert (Hs : lru_set_access t s ts ss cnt = Some _) by lru_eval;
        rewrite Hs; clear Hs; cbn [mbind option_bind lru_set_run];
        rewrite ?lor_dirty_twice
    end;
  reflexivity.

(** The scenario of C5, on the lists of one set of four ways. *)
Lemma lru_scenario_sets tA tB tC tD tE (sA sB sC sD sA' sE : bool) :
  tag_word tA -> tag_word tB -> tag_word tC -> tag_word tD -> tag_word tE ->
  NoDup [tA; tB; tC; tD; tE] ->
  exists wA wB wC wD wE ss5 cnt5 ss6 cnt6 v1 v2 v3 v4,
    lru_set_run [(tA, sA); (tB, sB); (tC, sC); (tD, sD); (tA, sA')]
      [0; 0; 0; 0] [0; 0; 0; 0] 0
      = Some ([wA; wB; wC; wD], ss5, cnt5,
              [Some v1; Some v2; Some v3; Some v4; None]) /\
    lru_set_access tE sE [wA; wB; wC; wD] ss5 cnt5
      = Some ([wA; wE; wC; wD], ss6, cnt6, Some wB) /\
    Z.land wA (not64 DIRTY) = tA /\ Z.land wB (not64 DIRTY) = tB /\
    Z.land wC (not64 DIRTY) = tC /\ Z.land wD (not64 DIRTY) = tD /\
    Z.land wE (not64 DIRTY) = tE.
Proof.
  intros (HcA & HdA & HzA & HzdA) (HcB & HdB & HzB & HzdB)
    (HcC & HdC & HzC & HzdC) (HcD & HdD & HzD & HzdD)
    (HcE & HdE & HzE & HzdE) Hnd.
  assert (Hne : (tA =? tB) = false /\ (tA =? tC) = false /\
                (tA =? tD) = false /\ (tA =? tE) = false /\
                (tB =? tA) = false /\ (tB =? tC) = false /\
                (tB =? tD) = false /\ (tB =? tE) = false /\
                (tC =? tA) = false /\ (tC =? tB) = false /\
                (tC =? tD) = false /\ (tC =? tE) = false /\
                (tD =? tA) = false /\ (tD =? tB) = false /\
                (tD =? tC) = false /\ (tD =? tE) = false /\
                (tE =? tA) = false /\ (tE =? tB) = false /\
                (tE =? tC) = false /\ (tE =? tD) = false).
  { rewrite !NoDup_cons, !not_elem_of_cons in Hnd. destruct_and!.
    rewrite !Z.eqb_neq. repeat split; congruence. }
  destruct Hne as (nAB & nAC & nAD & nAE & nBA & nBC & nBD & nBE & nCA & nCB
                   & nCD & nCE & nDA & nDB & nDC & nDE & nEA & nEB & nEC
                   & nED).
  clear Hnd.
  destruct sA, sB, sC, sD, sA', sE;
    (do 13 eexists; split; [lru_run_eval|]; split; [lru_eval|];
     repeat split; assumption).
Qed.

(** C5, as amended.  Four ways, LRU, a fresh cache with no next level;
    five addresses of one set, with distinct line tags A, B, C, D, E.
    The accesses to A, B, C and D miss and fill the four ways, and the
    second access to A hits: the set holds A, B, C, D.  The access to E
    then evicts B, the line touched least recently, and not A: it leaves
    A, E, C, D in the set. *)
Theorem lru_scenario {H : Type}
    (next_access : H -> Z -> Z -> bool -> option H)
    gen sets0 linesz0 name0 (c0 : cache_sim_t H)
    aA aB aC aD aE bA bB bC bD bA' bE (sA sB sC sD sA' sE : bool) :
  init gen sets0 4 linesz0 name0 = Built c0 ->
  0 <= sets0 -> sets0 * 4 < 2 ^ 64 -> 0 <= linesz0 < 2 ^ 64 ->
  Forall (fun a => 0 <= a < 2 ^ 64 /\ set_index c0 a = set_index c0 aA)
    [aA; aB; aC; aD; aE] ->
  NoDup (map (line_tag c0) [aA; aB; aC; aD; aE]) ->
  exists c5 c6 c2 victim wA wB wC wD wE,
    run next_access "L" c0
      [(aA, bA, sA); (aB, bB, sB); (aC, bC, sC); (aD, bD, sD); (aA, bA', sA')]
      = Some (c5, []) /\
    hit_sequence next_access "L" c0
      [(aA, bA, sA); (aB, bB, sB); (aC, bC, sC); (aD, bD, sD); (aA, bA', sA')]
      = Some [false; false; false; false; true] /\
    window c5 (tags c5) (set_index c0 aA) [wA; wB; wC; wD] /\
    select_victim "L" (count_miss (count_access "L" c5 bE sE) sE) aE
      = Some (c2, victim) /\
    victim = wB /\
    Z.land victim (not64 DIRTY) = line_tag c0 aB /\
    Z.land victim (not64 DIRTY) <> line_tag c0 aA /\
    access next_access "L" c5 aE bE sE = Some (c6, []) /\
    window c6 (tags c6) (set_index c0 aA) [wA; wE; wC; wD] /\
    Z.land wA (not64 DIRTY) = line_tag c0 aA /\
    Z.land wC (not64 DIRTY) = line_tag c0 aC /\
    Z.land wD (not64 DIRTY) = line_tag c0 aD /\
    Z.land wE (not64 DIRTY) = line_tag c0 aE.
Proof.
  intros Hinit Hs Hcells Hl Hall Hnd.
  pose proof (init_geometry _ _ _ _ _ _ Hinit Hs Hl ltac:(lia) Hcells) as G0.
  assert (Hsets : sets c0 = sets0)
    by (apply init_built in Hinit as (-> & _); reflexivity).
  pose proof (set_index_range c0 aA G0) as Hidx. rewrite Hsets in Hidx.
  pose proof (init_lru_set _ _ _ _ _ _ _ Hinit Hs Hl ltac:(lia) Hcells Hidx)
    as L0.
  change (Z.to_nat 4) with 4%nat in L0. cbn [replicate] in L0.
  set (idx := set_index c0 aA) in *.
  rewrite !Forall_cons in Hall.
  destruct Hall as ((HaA & _) & (HaB & HiB) & (HaC & HiC) & (HaD & HiD)
                    & (HaE & HiE) & _).
  cbn [map] in Hnd.
  assert (HAB : line_tag c0 aB <> line_tag c0 aA).
  { apply NoDup_cons in Hnd as [Hnd _].
    rewrite not_elem_of_cons in Hnd. destruct Hnd as [Hnd _]. congruence. }
  destruct (lru_scenario_sets _ _ _ _ _ sA sB sC sD sA' sE
              (line_tag_words c0 aA G0 HaA) (line_tag_words c0 aB G0 HaB)
              (line_tag_words c0 aC G0 HaC) (line_tag_words c0 aD G0 HaD)
              (line_tag_words c0 aE G0 HaE) Hnd)
    as (wA & wB & wC & wD & wE & ss5 & cnt5 & ss6 & cnt6 & v1 & v2 & v3 & v4
        & Hrun & Hstep & HwA & HwB & HwC & HwD & HwE).
  assert (Hall5 : Forall (fun ref : Z * Z * bool =>
                              0 <= ref.1.1 < 2 ^ 64 /\
                              set_index c0 ref.1.1 = idx)
                     [(aA, bA, sA); (aB, bB, sB); (aC, bC, sC); (aD, bD, sD);
                      (aA, bA', sA')]).
  { repeat (constructor;
            [cbn [fst snd]; split;
             [assumption|first [reflexivity|assumption]]|]).
    constructor. }
  destruct (lru_run_refines next_access
              [(aA, bA, sA); (aB, bB, sB); (aC, bC, sC); (aD, bD, sD);
               (aA, bA', sA')]
              c0 idx [0; 0; 0; 0] [0; 0; 0; 0] 0 0 0 0 0 [wA; wB; wC; wD]
              ss5 cnt5 [Some v1; Some v2; Some v3; Some v4; None]
              L0 Hall5 Hrun)
    as (c5 & ra & rm & wa & wm & Hrun5 & Hseq5 & L5 & Hidx5 & Htag5).
  assert (HiE5 : set_index c5 aE = idx) by (rewrite Hidx5; exact HiE).
  destruct (lru_access_step next_access c5 aE bE sE idx (line_tag c0 aE)
              [wA; wB; wC; wD] ss5 cnt5 ra rm wa wm [wA; wE; wC; wD] ss6 cnt6
              (Some wB) L5 HaE HiE5 (Htag5 aE) Hstep)
    as (c6 & Hacc6 & L6 & _ & _ & Hvic).
  destruct (Hvic _ eq_refl) as (c2 & Hsel).
  exists c5, c6, c2, wB, wA, wB, wC, wD, wE.
  split; [exact Hrun5|]. split; [exact Hseq5|].
  split; [exact (ls_tags _ _ _ _ _ _ _ _ _ L5)|].
  split; [exact Hsel|]. split; [reflexivity|].
  split; [exact HwB|]. split; [now rewrite HwB|].
  split; [exact Hacc6|].
  split; [exact (ls_tags _ _ _ _ _ _ _ _ _ L6)|]. auto.
Qed.

(** ** Scenarios *)

(** C3, on the code.  From a fresh cache of one set of two ways, the reads
    of addresses 0, 8, 16, 16 under the LRU policy take the LRU counter
    from 0 to 3, 6, 8 and 9: a miss that fills an empty way adds three, a
    miss that evicts adds two, and only a hit adds one.  Under the FIFO
    policy the FIFO counter goes to 1, 2, 3 and 4. *)
Theorem lru_counter_steps :
  exists c0 c1 c2 c3 c4 : cache_sim_t unit,
    init (constant_draws 0) 1 2 8 "" = Built c0 /\
    access last_level "L" c0 0 1 false = Some (c1, []) /\
    access last_level "L" c1 8 1 false = Some (c2, []) /\
    access last_level "L" c2 16 1 false = Some (c3, []) /\
    access last_level "L" c3 16 1 false = Some (c4, []) /\
    map misses [c0; c1; c2; c3; c4] = [0; 1; 2; 3; 3] /\
    map LRUCount [c0; c1; c2; c3; c4] = [0; 3; 6; 8; 9] /\
    exists d1 d2 d3 d4 : cache_sim_t unit,
      access last_level "F" c0 0 1 false = Some (d1, []) /\
      access last_level "F" d1 8 1 false = Some (d2, []) /\
      access last_level "F" d2 16 1 false = Some (d3, []) /\
      access last_level "F" d3 16 1 false = Some (d4, []) /\
      map FIFOCount [c0; d1; d2; d3; d4] = [0; 1; 2; 3; 4].
Proof.
  do 5 eexists. split; [reflexivity|].
  do 4 (split; [vm_compute; reflexivity|]).
  do 2 (split; [vm_compute; reflexivity|]).
  do 4 eexists.
  do 4 (split; [vm_compute; reflexivity|]).
  vm_compute; reflexivity.
Qed.

(** C2, on the code.  Two reads of address 0 miss and then hit on the tag
    array, and miss twice on the fully-associative object of the same ways
    and line size, under LRU and under FIFO: there the victim selection
    fills the tag array, which the lookup does not consult, and leaves the
    tag map empty.  A store that misses there has no line to mark.  This
    holds with two ways and lines of 8 bytes, and with eight ways and lines
    of 64 bytes, a geometry for which [construct] builds the
    fully-associative object. *)
Theorem fa_lru_fifo_diverge :
  exists sa fa sa8 fa8 : cache_sim_t unit,
    (init (constant_draws 0) 1 2 8 "" = Built sa /\
     fa_init (constant_draws 0) 2 8 "" = Built fa /\
     init (constant_draws 0) 1 8 64 "" = Built sa8 /\
     construct_parsed (constant_draws 0) 1 8 64 "" = Built fa8 /\
     fa_tags fa = Some [] /\ fa_tags fa8 = Some []) /\
    (hit_sequence last_level "L" sa (reads [0; 0]) = Some [false; true] /\
     hit_sequence last_level "L" fa (reads [0; 0]) = Some [false; false] /\
     hit_sequence last_level "F" sa (reads [0; 0]) = Some [false; true] /\
     hit_sequence last_level "F" fa (reads [0; 0]) = Some [false; false]) /\
    (hit_sequence last_level "L" sa8 (reads [0; 0]) = Some [false; true] /\
     hit_sequence last_level "L" fa8 (reads [0; 0]) = Some [false; false] /\
     hit_sequence last_level "F" sa8 (reads [0; 0]) = Some [false; true] /\
     hit_sequence last_level "F" fa8 (reads [0; 0]) = Some [false; false]) /\
    (exists fa' tr,
       run last_level "L" fa (reads [0; 0]) = Some (fa', tr) /\
       fa_tags fa' = Some [] /\
       tags fa' = [Z.lor 0 VALID; Z.lor 0 VALID]) /\
    access last_level "L" fa 0 1 true = None /\
    access last_level "F" fa 0 1 true = None /\
    access last_level "L" fa8 0 1 true = None /\
    access last_level "F" fa8 0 1 true = None.
Proof.
  do 4 eexists.
  split; [repeat split|].
  split; [repeat split; vm_compute; reflexivity|].
  split; [repeat split; vm_compute; reflexivity|].
  split.
  { do 2 eexists. split; [vm_compute; reflexivity|].
    split; vm_compute; reflexivity. }
  repeat split; vm_compute; reflexivity.
Qed.

(** C5, as stated, fails.  With three ways, the reads of line addresses
    1, 2, 3, 4 and again 1 leave lines 4, 1, 3 in the set: the read of 4
    has evicted line 1, and its second read has evicted line 2.  The read
    of line 5 then evicts line 3, not line 2. *)
Lemma lru_scenario_evicts_third :
  exists c0 c5 c6 : cache_sim_t unit, exists tr victim,
    init (constant_draws 0) 1 3 8 "" = Built c0 /\
    run last_level "L" c0 (reads [8; 16; 24; 32; 8]) = Some (c5, tr) /\
    tags c5 = [Z.lor 4 VALID; Z.lor 1 VALID; Z.lor 3 VALID] /\
    select_victim "L" (count_miss (count_access "L" c5 1 false) false) 40
      = Some (c6, victim) /\
    victim = Z.lor 3 VALID /\ victim <> Z.lor 2 VALID.
Proof.
  do 5 eexists. split; [reflexivity|].
  split; [vm_compute; reflexivity|].
  split; [vm_compute; reflexivity|].
  split; [vm_compute; reflexivity|].
  split; [reflexivity|]. vm_compute. discriminate.
Qed.

(** C7, as stated, fails: a hit also advances the counter of the active
    policy.  After one read of address 0 under LRU, a second read hits and
    takes the LRU counter from 3 to 4. *)
Lemma hit_advances_policy_counter :
  exists c0 c1 c2 c1' : cache_sim_t unit, exists p,
    init (constant_draws 0) 1 2 8 "" = Built c0 /\
    access last_level "L" c0 0 1 false = Some (c1, []) /\
    check_tag "L" (count_access "L" c1 1 false) 0 = Some (c1', Some p) /\
    access last_level "L" c1 0 1 false = Some (c2, []) /\
    LRUCount c1 = 3 /\ LRUCount c2 = 4.
Proof.
  do 5 eexists. split; [reflexivity|].
  do 3 (split; [vm_compute; reflexivity|]).
  split; reflexivity.
Qed.

(** ** The theorems at work on concrete caches *)

Lemma access_writes_back_dirty_victim_witness :
  exists c' tr,
    access recorder "L" dirty_line 16 1 false = Some (c', tr) /\
    writebacks c' = 1 /\
    forwards tr = [(40, 8, true); (16, 8, false)] /\
    miss_handler c' = Some [(40, 8, true); (16, 8, false)].
Proof.
  edestruct (access_writes_back_dirty_victim recorder (fun _ => True)
               "L" dirty_line 16 1 false)
    as (c' & tr & Hacc & Hrest).
  - apply geometry_okP. reflexivity.
  - reflexivity.
  - reflexivity.
  - lia.
  - intros h a b s _ _. eexists. split; [reflexivity|exact I].
  - intros h _. exact I.
  - vm_compute. reflexivity.
  - vm_compute. reflexivity.
  - vm_compute in Hrest.
    destruct Hrest as (Hw & _ & _ & _ & Hf & h1 & h2 & Hn1 & Hn2 & Hm).
    injection Hn1 as <-. injection Hn2 as <-.
    exists c', tr. repeat split; assumption.
Defined.

Lemma hit_stamps_witness :
  exists c',
    access last_level "L" warm_two_ways 0 1 false = Some (c', []) /\
    LRUCount c' = 4 /\ LRUTime c' = [4; 0].
Proof.
  edestruct (hit_stamps last_level "L" warm_two_ways 0 1 false)
    as (c' & k & Hp & Hacc & HL & _).
  - reflexivity.
  - vm_compute. reflexivity.
  - destruct (HL eq_refl) as (Hc & _ & Ht & _).
    injection Hp as <-.
    exists c'. split; [exact Hacc|]. split; [exact Hc|].
    rewrite Ht, Hc. reflexivity.
Defined.

Lemma lru_scenario_witness :
  exists c5 c2 victim,
    run last_level "L" fresh_four_ways (reads [8; 16; 24; 32; 8])
      = Some (c5, []) /\
    hit_sequence last_level "L" fresh_four_ways (reads [8; 16; 24; 32; 8])
      = Some [false; false; false; false; true] /\
    select_victim "L" (count_miss (count_access "L" c5 1 false) false) 40
      = Some (c2, victim) /\
    Z.land victim (not64 DIRTY) = Z.lor 2 VALID.
Proof.
  destruct (lru_scenario last_level (constant_draws 0) 1 8 ""
              fresh_four_ways 8 16 24 32 40 1 1 1 1 1 1
              false false false false false false)
    as (c5 & c6 & c2 & victim & wA & wB & wC & wD & wE & Hrun & Hseq & _
        & Hsel & _ & Hv & _).
  - reflexivity.
  - lia.
  - lia.
  - lia.
  - repeat (constructor; [split; [lia|reflexivity]|]). constructor.
  - apply (bool_decide_unpack _). vm_compute. exact I.
  - exists c5, c2, victim. split; [exact Hrun|]. split; [exact Hseq|].
    split; [exact Hsel|]. exact Hv.
Defined.

Lemma hit_frame_witness :
  exists c',
    access last_level "L" warm_two_ways 0 1 true = Some (c', []) /\
    tags c' = [Z.lor (Z.lor 0 VALID) DIRTY; 0] /\
    LRUCount c' = 4 /\ read_misses c' = 1 /\ write_misses c' = 0 /\
    writebacks c' = 0 /\ miss_handler c' = None.
Proof.
  edestruct (hit_frame last_level "L" warm_two_ways 0 1 true)
    as (c' & Hacc & Hsame & Hcount & _ & Hline).
  - vm_compute. reflexivity.
  - cbv beta iota in Hline.
    destruct Hline as (_ & (t & Ht & Htags) & _).
    injection Ht as <-.
    destruct Hsame as (_ & _ & _ & _ & _ & _ & _ & _ & Hrm & Hwm & Hwb & Hmh).
    destruct Hcount as (Hc & _).
    exists c'. split; [exact Hacc|]. split; [exact Htags|].
    split; [exact Hc|]. auto.
Defined.

Lemma random_victim_is_draw_witness :
  exists c',
    select_victim "R" (half_full_set (H := unit) (constant_draws 1)) 16
      = Some (c', Z.lor 5 VALID) /\
    tags c' = [0; Z.lor 2 VALID].
Proof.
  destruct (random_victim_is_draw
              (half_full_set (H := unit) (constant_draws 1)) 16)
    as ((victim & c' & Hsel & _ & Hrd & Htags & _) & _).
  - apply geometry_okP. reflexivity.
  - reflexivity.
  - injection Hrd as <-. exists c'. split; [exact Hsel|exact Htags].
Defined.

Lemma init_checks_geometry_witness :
  exists c : cache_sim_t unit,
    init (constant_draws 0) 4 2 64 "" = Built c /\
    tags c = [0; 0; 0; 0; 0; 0; 0; 0] /\ idx_shift c = 6 /\
    read_misses c = 0 /\ miss_handler c = None.
Proof.
  destruct (init_checks_geometry (H := unit) (constant_draws 0) 4 2 64 "")
    as (_ & Hvalid).
  - lia.
  - lia.
  - destruct Hvalid
      as (c & c' & Hinit & _ & _ & (_ & _ & _ & Hshift & _) & Hstats & _
          & (Htags & _) & Hmh & _).
    + split; [exists 2; split; [lia|reflexivity]|].
      split; [exists 6; split; [lia|reflexivity]|lia].
    + exists c. split; [exact Hinit|]. split; [exact Htags|].
      split.
      * injection Hinit as <-. reflexivity.
      * split; [apply Hstats|exact Hmh].
Defined.

Lemma store_miss_relookup_witness :
  exists c' tr,
    access last_level "L" fresh_two_ways 0 1 true = Some (c', tr).
Proof.
  pose proof (store_miss_relookup last_level (fun _ => False) "L"
                fresh_two_ways 0 1
                (count_access "L" fresh_two_ways 1 true)) as Hthm.
  cbv beta iota delta [policy_is String.eqb Ascii.eqb Bool.eqb orb] in Hthm.
  destruct Hthm
    as (way & c2 & victim & c3 & c4 & tr1 & tr2 & c5 & p & c' & tr & _ & _
        & _ & _ & _ & _ & _ & Hacc).
  - apply geometry_okP. reflexivity.
  - reflexivity.
  - lia.
  - intros h a b s [].
  - intros h Hh. discriminate.
  - vm_compute. reflexivity.
  - exists c', tr. exact Hacc.
Defined.

(** * Further properties of the code *)

(** ** Tag words and line addresses *)

Lemma clean_or_dirty (t : Z) :
  Z.land (Z.lor t DIRTY) (not64 DIRTY) = Z.land t (not64 DIRTY).
Proof.
  apply Z.bits_inj'. intros n Hn. tag_bits n Hn.
  destruct (Z.testbit t n), (n <? 64), (62 =? n); reflexivity.
Qed.

Lemma clean_line_address (t x : Z) :
  0 <= x < 2 ^ 61 -> Z.land t (not64 DIRTY) = Z.lor x VALID ->
  Z.land t (not64 (Z.lor VALID DIRTY)) = x.
Proof.
  intros Hx Ht. apply Z.bits_inj'. intros n Hn.
  apply (f_equal (fun z => Z.testbit z n)) in Ht. revert Ht.
  tag_bits n Hn.
  destruct (Z.ltb_spec n 64), (Z.eqb_spec 62 n), (Z.eqb_spec 63 n); try lia;
    rewrite ?(testbit_above x 61 n) by lia; simpl;
    rewrite ?andb_true_r, ?andb_false_r, ?orb_false_r, ?orb_true_r;
    auto.
Qed.

Lemma clean_valid_dirty (t x : Z) :
  Z.land t (not64 DIRTY) = Z.lor x VALID ->
  valid_dirty (Z.lor t DIRTY) = true.
Proof.
  intros Ht. unfold valid_dirty. apply Z.eqb_eq.
  assert (H63 : Z.testbit t 63 = true).
  { apply (f_equal (fun z => Z.testbit z 63)) in Ht. revert Ht.
    assert (Hn : 0 <= 63) by lia. tag_bits 63 Hn. simpl.
    rewrite andb_true_r, orb_true_r. auto. }
  apply Z.bits_inj'. intros n Hn. tag_bits n Hn.
  destruct (Z.eqb_spec 62 n), (Z.eqb_spec 63 n); try lia; subst;
    rewrite ?H63; simpl;
    rewrite ?andb_true_r, ?andb_false_r, ?orb_false_r, ?orb_true_r;
    reflexivity.
Qed.

Lemma line_tag_not_dirty (x : Z) :
  0 <= x < 2 ^ 61 -> valid_dirty (Z.lor x VALID) = false.
Proof.
  intros Hx. unfold valid_dirty. apply Z.eqb_neq. intros Heq.
  apply (f_equal (fun z => Z.testbit z 62)) in Heq. revert Heq.
  assert (Hn : 0 <= 62) by lia. tag_bits 62 Hn.
  rewrite (testbit_above x 61 62) by lia. simpl. discriminate.
Qed.

Lemma line_address_aligned (addr s : Z) :
  0 <= addr < 2 ^ 64 -> 0 <= s < 64 ->
  shl64 (Z.shiftr addr s) s = Z.land addr (not64 (wrap64 (2 ^ s - 1))).
Proof.
  intros Ha Hs.
  assert (Hp : 0 < 2 ^ s <= 2 ^ 63).
  { split; [apply Z.pow_pos_nonneg; lia|apply Z.pow_le_mono_r; lia]. }
  rewrite (wrap64_small (2 ^ s - 1)) by lia.
  replace (2 ^ s - 1) with (Z.ones s) by (rewrite Z.ones_equiv; lia).
  apply Z.bits_inj'. intros n Hn. unfold shl64, wrap64.
  rewrite Z.testbit_mod_pow2 by lia.
  rewrite Z.land_spec, not64_testbit by lia.
  rewrite Z.testbit_ones_nonneg by lia.
  rewrite Z.shiftl_spec by lia.
  destruct (Z.ltb_spec n s).
  - rewrite Z.testbit_neg_r by lia.
    now rewrite !andb_false_r.
  - rewrite Z.shiftr_spec by lia. replace (n - s + s) with n by lia.
    simpl. rewrite andb_true_r. apply andb_comm.
Qed.

(** ** Victim selection, way by way *)

Section Victims.

Context {H : Type}.
Implicit Types c : cache_sim_t H.

(** The first loop of [LRU] and [FIFO] stops at the first way whose tag word
    is zero. *)
Lemma first_empty_first c idx n i e :
  first_empty c idx n i = Some e ->
  match e with
  | Some w =>
      i <= w < i + Z.of_nat n /\ rd (tags c) (slot c idx w) = Some 0 /\
      forall j, i <= j < w ->
        exists t, rd (tags c) (slot c idx j) = Some t /\ t <> 0
  | None =>
      forall j, i <= j < i + Z.of_nat n ->
        exists t, rd (tags c) (slot c idx j) = Some t /\ t <> 0
  end.
Proof.
  revert i. induction n as [|n IH]; intros i; simpl.
  - intros [= <-]. intros j Hj. lia.
  - destruct (rd (tags c) (slot c idx i)) as [t|] eqn:Ht; simpl;
      [|discriminate].
    destruct (Z.eqb_spec t 0) as [->|Hne].
    + intros [= <-]. split; [lia|]. split; [exact Ht|]. intros j Hj. lia.
    + intros He. specialize (IH _ He). destruct e as [w|].
      * destruct IH as (Hw & Hrd & Hbefore). split; [lia|].
        split; [exact Hrd|]. intros j Hj.
        destruct (Z.eq_dec j i) as [->|Hji]; [eauto|]. apply Hbefore. lia.
      * intros j Hj.
        destruct (Z.eq_dec j i) as [->|Hji]; [eauto|]. apply IH. lia.
Qed.

(** The second loop returns the first way of least stamp among those whose
    stamp is below the starting count, and the starting way when there is
    none. *)
Lemma oldest_least c time idx n i way count w :
  oldest c time idx n i way count = Some w ->
  exists m,
    (w = way /\ m = count \/
     i <= w < i + Z.of_nat n /\ rd time (slot c idx w) = Some m /\
     m < count /\
     forall j sj, i <= j < w -> rd time (slot c idx j) = Some sj -> m < sj) /\
    forall j sj, i <= j < i + Z.of_nat n ->
      rd time (slot c idx j) = Some sj -> m <= sj.
Proof.
  revert i way count. induction n as [|n IH]; intros i way count; simpl.
  - intros [= <-]. exists count. split; [now left|]. intros j sj Hj. lia.
  - destruct (rd time (slot c idx i)) as [t|] eqn:Ht; simpl; [|discriminate].
    destruct (Z.ltb_spec t count) as [Hlt|Hge]; intros Hw;
      destruct (IH _ _ _ Hw) as (m & Hm & Hall); exists m.
    + assert (Hmt : m <= t).
      { destruct Hm as [[_ ->]|(_ & _ & ? & _)]; lia. }
      split.
      * right. destruct Hm as [[-> ->]|(Hr & Hrd & Hmc & Hbefore)].
        -- split; [lia|]. split; [exact Ht|]. split; [exact Hlt|].
           intros j sj Hj. lia.
        -- split; [lia|]. split; [exact Hrd|]. split; [lia|].
           intros j sj Hj Hsj.
           destruct (Z.eq_dec j i) as [->|Hji].
           ++ rewrite Ht in Hsj. injection Hsj as <-. exact Hmc.
           ++ apply (Hbefore j); [lia|exact Hsj].
      * intros j sj Hj Hsj.
        destruct (Z.eq_dec j i) as [->|Hji].
        -- rewrite Ht in Hsj. injection Hsj as <-. exact Hmt.
        -- apply (Hall j); [lia|exact Hsj].
    + assert (Hmc : m <= count).
      { destruct Hm as [[_ ->]|(_ & _ & ? & _)]; lia. }
      split.
      * destruct Hm as [[-> ->]|(Hr & Hrd & Hlt & Hbefore)]; [now left|].
        right. split; [lia|]. split; [exact Hrd|]. split; [exact Hlt|].
        intros j sj Hj Hsj.
        destruct (Z.eq_dec j i) as [->|Hji].
        -- rewrite Ht in Hsj. injection Hsj as <-. lia.
        -- apply (Hbefore j); [lia|exact Hsj].
      * intros j sj Hj Hsj.
        destruct (Z.eq_dec j i) as [->|Hji].
        -- rewrite Ht in Hsj. injection Hsj as <-. lia.
        -- apply (Hall j); [lia|exact Hsj].
Qed.

Lemma LRU_result c addr :
  geometry c ->
  let idx := set_index c addr in
  exists e way victim,
    first_empty c idx (Z.to_nat (ways c)) 0 = Some e /\
    match e with
    | Some i => way = i
    | None =>
        oldest c (LRUTime c) idx (Z.to_nat (ways c)) 0 0 2147483647
          = Some way
    end /\
    0 <= way < ways c /\
    rd (tags c) (slot c idx way) = Some victim /\
    LRU c addr =
      Some (installed c (slot c idx way) (line_tag c addr) (lfsr c)
              (match e with
               | Some _ => wrap_int (wrap_int (LRUCount c + 1) + 1)
               | None => wrap_int (LRUCount c + 1)
               end)
              (match e with
               | Some _ =>
                   <[Z.to_nat (slot c idx way) := wrap_int (LRUCount c + 1)]>
                     (<[Z.to_nat (slot c idx way) := LRUCount c]> (LRUTime c))
               | None => <[Z.to_nat (slot c idx way) := LRUCount c]> (LRUTime c)
               end)
              (FIFOTime c), victim).
Proof.
  intros G idx. pose proof (set_index_range c addr G) as Hidx.
  unfold LRU. fold idx.
  destruct (first_empty_total c idx (Z.to_nat (ways c)) 0 G Hidx)
    as (e & Hfe & He); [lia|destruct G; lia|]. rewrite Hfe. simpl.
  assert (Hcell : forall w, 0 <= w < ways c ->
            0 <= slot c idx w < Z.of_nat (length (tags c)) /\
            slot c idx w < Z.of_nat (length (LRUTime c))).
  { intros w Hw. destruct (slot_in_range c idx w G Hidx Hw) as [-> ?].
    destruct G. lia. }
  destruct e as [w|].
  - destruct (He w eq_refl) as [Hw Hrd].
    assert (Hw' : 0 <= w < ways c) by lia.
    destruct (Hcell w Hw') as [Ht Hl].
    rewrite wr_in_range by exact Hl. simpl. same_geometry c.
    rewrite Hrd. simpl.
    rewrite wr_in_range by (rewrite length_insert; exact Hl). simpl.
    same_geometry c. rewrite wr_in_range by lia. simpl.
    exists (Some w), w, 0.
    split; [reflexivity|]. split; [reflexivity|]. split; [lia|].
    split; [exact Hrd|]. destruct c; reflexivity.
  - destruct (oldest_total c (LRUTime c) idx (Z.to_nat (ways c)) 0 0
                2147483647 G) as (w & Hold & Hw);
      try (destruct G; lia). rewrite Hold. simpl.
    destruct (Hcell w Hw) as [Ht Hl].
    destruct (rd_in_range (tags c) (slot c idx w) Ht) as [v Hv].
    rewrite Hv. simpl.
    rewrite wr_in_range by exact Hl. simpl. same_geometry c.
    rewrite wr_in_range by lia. simpl.
    exists None, w, v.
    split; [reflexivity|]. split; [reflexivity|]. split; [lia|].
    split; [exact Hv|]. destruct c; reflexivity.
Qed.

Lemma FIFO_result c addr :
  geometry c ->
  let idx := set_index c addr in
  exists e way victim,
    first_empty c idx (Z.to_nat (ways c)) 0 = Some e /\
    match e with
    | Some i => way = i
    | None =>
        oldest c (FIFOTime c) idx (Z.to_nat (ways c)) 0 0 2147483647
          = Some way
    end /\
    0 <= way < ways c /\
    rd (tags c) (slot c idx way) = Some victim /\
    FIFO c addr =
      Some (installed c (slot c idx way) (line_tag c addr) (lfsr c)
              (LRUCount c) (LRUTime c)
              (<[Z.to_nat (slot c idx way) := FIFOCount c]> (FIFOTime c)),
            victim).
Proof.
  intros G idx. pose proof (set_index_range c addr G) as Hidx.
  unfold FIFO. fold idx.
  destruct (first_empty_total c idx (Z.to_nat (ways c)) 0 G Hidx)
    as (e & Hfe & He); [lia|destruct G; lia|]. rewrite Hfe. simpl.
  assert (Hcell : forall w, 0 <= w < ways c ->
            0 <= slot c idx w < Z.of_nat (length (tags c)) /\
            slot c idx w < Z.of_nat (length (FIFOTime c))).
  { intros w Hw. destruct (slot_in_range c idx w G Hidx Hw) as [-> ?].
    destruct G. lia. }
  destruct e as [w|].
  - destruct (He w eq_refl) as [Hw Hrd].
    assert (Hw' : 0 <= w < ways c) by lia.
    destruct (Hcell w Hw') as [Ht Hl].
    rewrite wr_in_range by exact Hl. simpl. same_geometry c.
    rewrite Hrd. simpl.
    rewrite wr_in_range by (rewrite length_insert; exact Hl). simpl.
    same_geometry c. rewrite wr_in_range by lia. simpl.
    exists (Some w), w, 0.
    split; [reflexivity|]. split; [reflexivity|]. split; [lia|].
    split; [exact Hrd|]. rewrite list_insert_insert_eq.
    destruct c; reflexivity.
  - destruct (oldest_total c (FIFOTime c) idx (Z.to_nat (ways c)) 0 0
                2147483647 G) as (w & Hold & Hw);
      try (destruct G; lia). rewrite Hold. simpl.
    destruct (Hcell w Hw) as [Ht Hl].
    destruct (rd_in_range (tags c) (slot c idx w) Ht) as [v Hv].
    rewrite Hv. simpl.
    rewrite wr_in_range by exact Hl. simpl. same_geometry c.
    rewrite wr_in_range by lia. simpl.
    exists None, w, v.
    split; [reflexivity|]. split; [reflexivity|]. split; [lia|].
    split; [exact Hv|]. destruct c; reflexivity.
Qed.

End Victims.

(** ** The state after an access *)

Section Outcome.

Context {H : Type}.
Implicit Types c : cache_sim_t H.

Lemma check_tag_miss_cells policy c addr c2 :
  fa_tags c = None ->
  check_tag policy c addr = Some (c2, None) ->
  forall j, 0 <= j < ways c ->
    exists t, rd (tags c) (slot c (set_index c addr) j) = Some t /\
              line_tag c addr <> Z.land t (not64 DIRTY).
Proof.
  intros Hfa. unfold check_tag, cache_sim_t_check_tag. rewrite Hfa.
  intros Hm j Hj.
  apply check_tag_loop_miss in Hm as [_ Hall]. apply Hall. lia.
Qed.

(** The lookup of a line that is in exactly one way of its set. *)
Lemma check_tag_only policy c addr way t :
  geometry c -> fa_tags c = None -> 0 <= way < ways c ->
  rd (tags c) (slot c (set_index c addr) way) = Some t ->
  line_tag c addr = Z.land t (not64 DIRTY) ->
  (forall j t', 0 <= j < ways c -> j <> way ->
     rd (tags c) (slot c (set_index c addr) j) = Some t' ->
     line_tag c addr <> Z.land t' (not64 DIRTY)) ->
  check_tag policy c addr =
    Some (stamp_hit policy c (slot c (set_index c addr) way),
          Some (InArray (slot c (set_index c addr) way))).
Proof.
  intros G Hfa Hw Hrd Htag Hothers.
  destruct (check_tag_found policy c addr way t G Hfa Hw Hrd Htag)
    as (c2 & p & Hct).
  rewrite Hct.
  apply check_tag_hit_inv in Hct
    as (j & t' & Hj & -> & Hrd' & Htag' & _ & ->); [|exact Hfa].
  destruct (Z.eq_dec j way) as [->|Hne]; [reflexivity|].
  exfalso. exact (Hothers j t' Hj Hne Hrd' Htag').
Qed.

Context (next_access : H -> Z -> Z -> bool -> option H).
Context (Inv : H -> Prop).

(** A miss on the tag array, in full: the state that the access leaves,
    given the way that the policy has picked. *)
Lemma miss_result policy c addr bytes store way victim g n a f :
  geometry c -> fa_tags c = None ->
  policy_is policy "R" || policy_is policy "L" || policy_is policy "F"
    = true ->
  0 <= addr < 2 ^ 64 ->
  serves next_access Inv -> handler_ok Inv c ->
  let c0 := count_miss (count_access policy c bytes store) store in
  let k := slot c (set_index c addr) way in
  check_tag policy (count_access policy c bytes store) addr
    = Some (count_access policy c bytes store, None) ->
  0 <= way < ways c ->
  select_victim policy c0 addr
    = Some (installed c0 k (line_tag c addr) g n a f, victim) ->
  exists mh tr,
    access next_access policy c addr bytes store =
      Some (set_tags
              (<[Z.to_nat k := if store then Z.lor (line_tag c addr) DIRTY
                               else line_tag c addr]> (tags c))
              (set_lfsr g
                 (set_LRUCount n
                    (set_LRUTime
                       (if store && policy_is policy "L"
                        then <[Z.to_nat k := n]> a else a)
                       (set_FIFOTime f
                          (set_miss_handler mh
                             (set_writebacks
                                (if valid_dirty victim
                                 then wrap64 (writebacks c + 1)
                                 else writebacks c) c0)))))),
            tr) /\
    forwards tr =
      match miss_handler c with
      | Some _ =>
          (if valid_dirty victim
           then [(dirty_addr c victim, linesz c, true)] else []) ++
          [(Z.land addr (not64 (wrap64 (linesz c - 1))), linesz c, false)]
      | None => []
      end /\
    match miss_handler c with
    | Some h =>
        exists h1 h2,
          (if valid_dirty victim
           then next_access h (dirty_addr c victim) (linesz c) true = Some h1
           else h1 = h) /\
          next_access h1 (Z.land addr (not64 (wrap64 (linesz c - 1))))
            (linesz c) false = Some h2 /\
          mh = Some h2
    | None => mh = None
    end.
Proof.
  intros G Hfa Hpol Haddr Hserv Hh c0 k Hmiss Hway Hsel.
  destruct (miss_spec next_access Inv policy c addr bytes store _ _ victim
              G Hfa Hpol Haddr Hserv Hh Hmiss Hsel)
    as (way' & mh1 & mh2 & c' & Hspec).
  cbv zeta in Hspec.
  destruct Hspec as (_ & _ & _ & Hnext & H4 & Hmark & Hacc).
  destruct H4 as (G4 & Hfa4 & _ & _ & _).
  destruct Hmark as (Hmark & _).
  exists mh2. eexists.
  match goal with
  | |- access _ _ _ _ _ _ = Some (?X, _) /\ _ => assert (Hc' : c' = X)
  end.
  2:{ split; [rewrite Hacc, Hc'; reflexivity|]. split; [|exact Hnext].
      rewrite forwards_miss_trace.
      destruct (miss_handler c), (valid_dirty victim); reflexivity. }
  pose proof (set_index_range c addr G) as Hidx.
  destruct (slot_in_range c _ way G Hidx Hway) as [Hk Hkr]. fold k in Hk.
  assert (Hlen : (Z.to_nat k < length (tags c))%nat)
    by (destruct G; lia).
  pose proof (line_tag_clean c addr G Haddr) as Hclean.
  pose proof (check_tag_miss_cells _ _ _ _
                (eq_trans (count_access_fa policy c bytes store) Hfa) Hmiss)
    as Hcells.
  set (c4 := set_miss_handler mh2
               (if valid_dirty victim
                then set_writebacks (wrap64 (writebacks c + 1))
                       (set_miss_handler mh1
                          (installed c0 k (line_tag c addr) g n a f))
                else installed c0 k (line_tag c addr) g n a f)) in *.
  assert (Htags4 : tags c4 = <[Z.to_nat k := line_tag c addr]> (tags c)).
  { unfold c4, c0, count_miss, count_access.
    destruct (valid_dirty victim), (policy_is policy "L"),
      (policy_is policy "F"), store; reflexivity. }
  assert (Hgeo4 : sets c4 = sets c /\ ways c4 = ways c /\
                  idx_shift c4 = idx_shift c).
  { unfold c4, c0, count_miss, count_access.
    destruct (valid_dirty victim), (policy_is policy "L"),
      (policy_is policy "F"), store; auto. }
  destruct Hgeo4 as (Hs4 & Hw4 & Hi4).
  assert (Hslot4 : forall j, slot c4 (set_index c4 addr) j
                             = slot c (set_index c addr) j).
  { intros j. unfold slot, set_index. now rewrite Hs4, Hw4, Hi4. }
  assert (Htag4 : line_tag c4 addr = line_tag c addr).
  { unfold line_tag. now rewrite Hi4. }
  destruct store.
  - unfold mark_new_line in Hmark.
    rewrite (check_tag_only policy c4 addr way (line_tag c addr)) in Hmark;
      [|exact G4|exact Hfa4|lia| | |].
    + cbn [mbind option_bind] in Hmark. rewrite Hslot4 in Hmark.
      fold k in Hmark.
      rewrite (or_dirty_array _ k (line_tag c addr)) in Hmark.
      * injection Hmark as <-.
        replace (tags (stamp_hit policy c4 k))
          with (<[Z.to_nat k := line_tag c addr]> (tags c))
          by (unfold stamp_hit; now destruct (policy_is policy "L")).
        rewrite list_insert_insert_eq.
        unfold stamp_hit, c4, c0, count_miss, count_access.
        destruct (valid_dirty victim), (policy_is policy "L"),
          (policy_is policy "F"); reflexivity.
      * replace (tags (stamp_hit policy c4 k)) with (tags c4)
          by (unfold stamp_hit; now destruct (policy_is policy "L")).
        rewrite Htags4. unfold rd. now apply list_lookup_insert_eq.
    + rewrite Hslot4, Htags4. fold k. unfold rd.
      now apply list_lookup_insert_eq.
    + rewrite Htag4. now symmetry.
    + intros j t' Hj Hne. rewrite Hw4 in Hj. rewrite Hslot4, Htags4, Htag4.
      unfold rd. rewrite list_lookup_insert_ne.
      * intros Hrd. destruct (Hcells j) as (t & Ht & Hnm).
        { unfold count_access.
          destruct (policy_is policy "L"), (policy_is policy "F"); exact Hj. }
        replace (rd (tags (count_access policy c bytes true))
                   (slot (count_access policy c bytes true)
                      (set_index (count_access policy c bytes true) addr) j))
          with (rd (tags c) (slot c (set_index c addr) j)) in Ht
          by (unfold count_access;
              destruct (policy_is policy "L"), (policy_is policy "F");
              reflexivity).
        unfold rd in Ht. rewrite Hrd in Ht. injection Ht as <-.
        replace (line_tag (count_access policy c bytes true) addr)
          with (line_tag c addr) in Hnm
          by (unfold count_access;
              destruct (policy_is policy "L"), (policy_is policy "F");
              reflexivity).
        exact Hnm.
      * intros Heq. apply Hne. symmetry.
        apply (slot_inj c (set_index c addr) way j G Hidx Hway Hj).
        fold k. pose proof (wrap64_range (set_index c addr * ways c + j)).
        unfold slot in *. lia.
  - unfold mark_new_line in Hmark. injection Hmark as <-.
    unfold c4, c0, count_miss, count_access.
    destruct (valid_dirty victim), (policy_is policy "L"),
      (policy_is policy "F"); reflexivity.
Qed.

End Outcome.

Section Cases.

Context {H : Type}.
Implicit Types c : cache_sim_t H.

(** What the counting at the start of an access leaves alone: the
    geometry and the three arrays. *)
Lemma counted_cells policy c bytes store :
  let ca := count_access policy c bytes store in
  let c0 := count_miss ca store in
  (forall a i, slot ca (set_index ca a) i = slot c (set_index c a) i) /\
  (forall a i, slot c0 (set_index c0 a) i = slot c (set_index c a) i) /\
  (forall a, line_tag ca a = line_tag c a) /\
  (forall a, line_tag c0 a = line_tag c a) /\
  (forall a, set_index c0 a = set_index c a) /\
  ways ca = ways c /\ ways c0 = ways c /\
  tags c0 = tags c /\ LRUTime c0 = LRUTime c /\ FIFOTime c0 = FIFOTime c /\
  lfsr c0 = lfsr c /\
  LRUCount c0 = LRUCount ca /\ FIFOCount c0 = FIFOCount ca.
Proof.
  unfold count_miss, count_access.
  destruct (policy_is policy "L"), (policy_is policy "F"), store;
    repeat split; reflexivity.
Qed.

Lemma check_tag_total policy c addr :
  geometry c -> fa_tags c = None ->
  exists c1 r, check_tag policy c addr = Some (c1, r).
Proof.
  intros G Hfa. unfold check_tag, cache_sim_t_check_tag. rewrite Hfa.
  apply check_tag_loop_total;
    [exact G|now apply set_index_range|lia|destruct G; lia].
Qed.

Context (next_access : H -> Z -> Z -> bool -> option H).
Context (Inv : H -> Prop).

(** Every access on the tag array is a hit on one way of the set of the
    address, or a miss that installs the line in one way of that set. *)
Lemma access_outcome policy c addr bytes store :
  geometry c -> fa_tags c = None ->
  policy_is policy "R" || policy_is policy "L" || policy_is policy "F"
    = true ->
  0 <= addr < 2 ^ 64 ->
  serves next_access Inv -> handler_ok Inv c ->
  let ca := count_access policy c bytes store in
  let c0 := count_miss ca store in
  (exists j t,
     let k := slot c (set_index c addr) j in
     0 <= j < ways c /\ rd (tags c) k = Some t /\
     line_tag c addr = Z.land t (not64 DIRTY) /\
     check_tag policy ca addr
       = Some (stamp_hit policy ca k, Some (InArray k)) /\
     access next_access policy c addr bytes store
       = Some (if store
               then set_tags (<[Z.to_nat k := Z.lor t DIRTY]> (tags c))
                      (stamp_hit policy ca k)
               else stamp_hit policy ca k, [])) \/
  (exists way victim g n a f mh tr,
     let k := slot c (set_index c addr) way in
     check_tag policy ca addr = Some (ca, None) /\
     0 <= way < ways c /\ rd (tags c) k = Some victim /\
     length a = length (LRUTime c) /\ length f = length (FIFOTime c) /\
     select_victim policy c0 addr
       = Some (installed c0 k (line_tag c addr) g n a f, victim) /\
     access next_access policy c addr bytes store =
       Some (set_tags
               (<[Z.to_nat k := if store then Z.lor (line_tag c addr) DIRTY
                                else line_tag c addr]> (tags c))
               (set_lfsr g
                  (set_LRUCount n
                     (set_LRUTime
                        (if store && policy_is policy "L"
                         then <[Z.to_nat k := n]> a else a)
                        (set_FIFOTime f
                           (set_miss_handler mh
                              (set_writebacks
                                 (if valid_dirty victim
                                  then wrap64 (writebacks c + 1)
                                  else writebacks c) c0)))))),
             tr) /\
     forwards tr =
       match miss_handler c with
       | Some _ =>
           (if valid_dirty victim
            then [(dirty_addr c victim, linesz c, true)] else []) ++
           [(Z.land addr (not64 (wrap64 (linesz c - 1))), linesz c, false)]
       | None => []
       end /\
     match miss_handler c with
     | Some h =>
         exists h1 h2,
           (if valid_dirty victim
            then next_access h (dirty_addr c victim) (linesz c) true
                 = Some h1
            else h1 = h) /\
           next_access h1 (Z.land addr (not64 (wrap64 (linesz c - 1))))
             (linesz c) false = Some h2 /\
           mh = Some h2 /\ Inv h2
     | None => mh = None
     end).
Proof.
  intros G Hfa Hpol Haddr Hserv Hh ca c0. subst ca c0.
  set (ca := count_access policy c bytes store).
  set (c0 := count_miss ca store).
  pose proof (count_access_geometry policy c bytes store G) as Ga.
  pose proof (count_access_fa policy c bytes store) as Hfaa.
  pose proof (counted_cells policy c bytes store) as Hcc. cbv zeta in Hcc.
  fold ca in Hcc. fold c0 in Hcc.
  destruct Hcc
    as (Hsa & Hs0 & Hta & Ht0 & _ & Hwa & Hw0 & Htg0 & Hl0 & Hf0 & _).
  destruct (check_tag_total policy ca addr Ga) as (c1 & r & Hct);
    [unfold ca; congruence|].
  destruct r as [p|].
  - left.
    destruct (hit_spec next_access policy c addr bytes store c1 p Hfa Hct)
      as (j & t & Hspec). cbv zeta in Hspec.
    destruct Hspec as (Hj & -> & Hrd & Htag & _ & -> & Hacc).
    exists j, t. cbv zeta. fold ca in Hacc, Hct |- *.
    split; [exact Hj|]. split; [exact Hrd|]. split; [exact Htag|].
    split; [exact Hct|exact Hacc].
  - right.
    pose proof (check_tag_miss_inv _ _ _ _ Hct) as ->.
    destruct (select_victim_spec policy c0 addr)
      as (w & v & g & n & a & f & Hw & Hrd & Ha & Hf & Hsel);
      [now apply counted_geometry|unfold c0, ca;
       now destruct (counted_frame policy c bytes store) as (-> & _)
      |exact Hpol|].
    rewrite Hs0, Ht0 in Hsel. rewrite Hs0, Htg0 in Hrd.
    rewrite Hw0 in Hw. rewrite Hl0 in Ha. rewrite Hf0 in Hf.
    destruct (miss_result next_access Inv policy c addr bytes store w v
                g n a f G Hfa Hpol Haddr Hserv Hh Hct Hw Hsel)
      as (mh & tr & Hacc & Htr & Hnext).
    exists w, v, g, n, a, f, mh, tr. cbv zeta.
    split; [exact Hct|]. split; [exact Hw|]. split; [exact Hrd|].
    split; [exact Ha|]. split; [exact Hf|]. split; [exact Hsel|].
    split; [exact Hacc|]. split; [exact Htr|].
    destruct (miss_handler c) as [h|] eqn:Hmh; [|exact Hnext].
    destruct Hnext as (h1 & h2 & Hn1 & Hn2 & ->).
    exists h1, h2. split; [exact Hn1|]. split; [exact Hn2|].
    split; [reflexivity|].
    assert (Hi1 : Inv h1).
    { destruct (valid_dirty v).
      - destruct (Hserv h (dirty_addr c v) (linesz c) true (Hh h Hmh)
                    (dirty_addr_range c v)) as (h' & Hx & Hi).
        congruence.
      - subst h1. exact (Hh h Hmh). }
    destruct (Hserv h1 _ (linesz c) false Hi1 (fill_addr_range c addr Haddr))
      as (h' & Hx & Hi).
    congruence.
Qed.

End Cases.

(** ** Residency *)

Section Residency.

Context {H : Type}.
Implicit Types c : cache_sim_t H.
Context (next_access : H -> Z -> Z -> bool -> option H).
Context (Inv : H -> Prop).

(** After an access the line is in one way of its set, and that way is the
    only cell of the tag array that the access may have changed. *)
Lemma access_summary policy c addr bytes store :
  geometry c -> fa_tags c = None ->
  policy_is policy "R" || policy_is policy "L" || policy_is policy "F"
    = true ->
  0 <= addr < 2 ^ 64 ->
  serves next_access Inv -> handler_ok Inv c ->
  exists c' tr way t old,
    access next_access policy c addr bytes store = Some (c', tr) /\
    (geometry c' /\ fa_tags c' = None /\ handler_ok Inv c') /\
    (sets c' = sets c /\ ways c' = ways c /\ linesz c' = linesz c /\
     idx_shift c' = idx_shift c /\ name c' = name c /\ log c' = log c) /\
    0 <= way < ways c /\
    rd (tags c) (slot c (set_index c addr) way) = Some old /\
    tags c' = <[Z.to_nat (slot c (set_index c addr) way) := t]> (tags c) /\
    rd (tags c') (slot c (set_index c addr) way) = Some t /\
    Z.land t (not64 DIRTY) = line_tag c addr /\
    (store = true -> valid_dirty t = true) /\
    (store = false -> valid_dirty t = true -> t = old).
Proof.
  intros G Hfa Hpol Haddr Hserv Hh.
  destruct (access_keeps next_access Inv policy c addr bytes store
              G Hfa Hpol Haddr Hserv Hh) as (c' & tr & Hacc & Hkeep).
  pose proof (set_index_range c addr G) as Hidx.
  pose proof (line_tag_clean c addr G Haddr) as Hclean.
  assert (Hx : 0 <= Z.shiftr addr (idx_shift c) < 2 ^ 61).
  { apply line_address_range; [exact Haddr|destruct G; lia]. }
  destruct (access_outcome next_access Inv policy c addr bytes store
              G Hfa Hpol Haddr Hserv Hh) as [Hhit|Hmiss].
  - destruct Hhit as (j & t & Hj & Hrd & Htag & _ & Hacc').
    rewrite Hacc in Hacc'. injection Hacc' as -> ->.
    destruct (slot_in_range c _ j G Hidx Hj) as [Hk Hkr].
    assert (Hlen : (Z.to_nat (slot c (set_index c addr) j)
                    < length (tags c))%nat) by (destruct G; lia).
    eexists _, _, j, (if store then Z.lor t DIRTY else t), t.
    split; [exact Hacc|]. split; [exact Hkeep|].
    split.
    { unfold stamp_hit, count_access.
      destruct store, (policy_is policy "L"), (policy_is policy "F");
        repeat split; reflexivity. }
    split; [exact Hj|]. split; [exact Hrd|].
    assert (Htags : tags (if store
                          then set_tags (<[Z.to_nat (slot c (set_index c addr) j)
                                           := Z.lor t DIRTY]> (tags c))
                                 (stamp_hit policy
                                    (count_access policy c bytes store)
                                    (slot c (set_index c addr) j))
                          else stamp_hit policy
                                 (count_access policy c bytes store)
                                 (slot c (set_index c addr) j))
                    = <[Z.to_nat (slot c (set_index c addr) j)
                        := if store then Z.lor t DIRTY else t]> (tags c)).
    { destruct store.
      - reflexivity.
      - rewrite list_insert_id by exact Hrd.
        unfold stamp_hit, count_access.
        destruct (policy_is policy "L"), (policy_is policy "F"); reflexivity. }
    split; [exact Htags|].
    split; [rewrite Htags; unfold rd; now apply list_lookup_insert_eq|].
    split.
    { destruct store; [rewrite clean_or_dirty|]; now symmetry. }
    split.
    + intros ->. apply (clean_valid_dirty t (Z.shiftr addr (idx_shift c))).
      now symmetry.
    + intros ->. auto.
  - destruct Hmiss as (way & victim & g & n & a & f & mh & tr' & Hmiss).
    cbv zeta in Hmiss.
    destruct Hmiss as (_ & Hway & Hrd & _ & _ & _ & Hacc' & _).
    rewrite Hacc in Hacc'. injection Hacc' as -> ->.
    destruct (slot_in_range c _ way G Hidx Hway) as [Hk Hkr].
    assert (Hlen : (Z.to_nat (slot c (set_index c addr) way)
                    < length (tags c))%nat) by (destruct G; lia).
    eexists _, _, way, (if store then Z.lor (line_tag c addr) DIRTY
                        else line_tag c addr), victim.
    split; [exact Hacc|]. split; [exact Hkeep|].
    split.
    { unfold count_miss, count_access.
      destruct store, (policy_is policy "L"), (policy_is policy "F");
        repeat split; reflexivity. }
    split; [exact Hway|]. split; [exact Hrd|].
    split; [reflexivity|].
    split; [cbn [tags set_tags]; unfold rd; now apply list_lookup_insert_eq|].
    split.
    { destruct store; [rewrite clean_or_dirty|]; exact Hclean. }
    split.
    + intros ->.
      apply (clean_valid_dirty _ (Z.shiftr addr (idx_shift c))).
      exact Hclean.
    + intros ->. unfold line_tag.
      rewrite (line_tag_not_dirty _ Hx). discriminate.
Qed.

(** X1.  Any trace of references runs to its end on the tag array, with every
    array access in bounds, and leaves the geometry and the sizes of the arrays
    as they were. *)
Theorem run_in_bounds policy refs : forall c,
  geometry c -> fa_tags c = None ->
  policy_is policy "R" || policy_is policy "L" || policy_is policy "F"
    = true ->
  serves next_access Inv -> handler_ok Inv c ->
  Forall (fun ref : Z * Z * bool => 0 <= ref.1.1 < 2 ^ 64) refs ->
  exists c' tr,
    run next_access policy c refs = Some (c', tr) /\
    geometry c' /\ fa_tags c' = None /\ handler_ok Inv c' /\
    sets c' = sets c /\ ways c' = ways c /\ linesz c' = linesz c /\
    idx_shift c' = idx_shift c /\
    length (tags c') = length (tags c).
Proof.
  induction refs as [|[[addr bytes] store] refs IH];
    intros c G Hfa Hpol Hserv Hh Hrefs.
  - exists c, []. simpl. auto 10.
  - apply Forall_cons in Hrefs as [Haddr Hrefs]. simpl in Haddr.
    destruct (access_summary policy c addr bytes store
                G Hfa Hpol Haddr Hserv Hh)
      as (c1 & tr1 & way & t & old & Hacc & (G1 & Hfa1 & Hh1)
          & (Hs & Hw & Hl & Hi & _) & _ & _ & Htags & _).
    destruct (IH c1 G1 Hfa1 Hpol Hserv Hh1 Hrefs)
      as (c' & tr & Hrun & G' & Hfa' & Hh' & Hs' & Hw' & Hl' & Hi' & Hlen').
    exists c', (tr1 ++ tr). simpl. rewrite Hacc. simpl. rewrite Hrun. simpl.
    split; [reflexivity|]. split; [exact G'|]. split; [exact Hfa'|].
    split; [exact Hh'|]. do 4 (split; [congruence|]).
    rewrite Hlen', Htags. apply length_insert.
Qed.

(** X2.  A line that has just been accessed is resident: the next access to any
    address of the same line hits, whatever its direction, and leaves the miss
    counters, the write-back counter and the next level alone. *)
Theorem accessed_line_is_resident
    policy c addr bytes store addr2 bytes2 store2 :
  geometry c -> fa_tags c = None ->
  policy_is policy "R" || policy_is policy "L" || policy_is policy "F"
    = true ->
  0 <= addr < 2 ^ 64 -> 0 <= addr2 < 2 ^ 64 ->
  Z.shiftr addr2 (idx_shift c) = Z.shiftr addr (idx_shift c) ->
  serves next_access Inv -> handler_ok Inv c ->
  exists c' tr c'',
    access next_access policy c addr bytes store = Some (c', tr) /\
    access next_access policy c' addr2 bytes2 store2 = Some (c'', []) /\
    read_misses c'' = read_misses c' /\ write_misses c'' = write_misses c' /\
    writebacks c'' = writebacks c' /\ miss_handler c'' = miss_handler c'.
Proof.
  intros G Hfa Hpol Haddr Haddr2 Hline Hserv Hh.
  destruct (access_summary policy c addr bytes store
              G Hfa Hpol Haddr Hserv Hh)
    as (c' & tr & way & t & old & Hacc & (G' & Hfa' & Hh')
        & (Hs & Hw & Hl & Hi & _) & Hway & _ & _ & Hrd & Htag & _).
  set (ca := count_access policy c' bytes2 store2).
  pose proof (count_access_geometry policy c' bytes2 store2 G') as Ga.
  pose proof (count_access_fa policy c' bytes2 store2) as Hfaa.
  pose proof (counted_cells policy c' bytes2 store2) as Hcc.
  cbv zeta in Hcc. fold ca in Ga, Hfaa, Hcc.
  destruct Hcc as (Hsa & _ & Hta & _ & _ & Hwa & _).
  assert (Hslot : slot c' (set_index c' addr2) way
                  = slot c (set_index c addr) way).
  { unfold slot, set_index. now rewrite Hs, Hw, Hi, Hline. }
  assert (Hlt : line_tag c' addr2 = line_tag c addr).
  { unfold line_tag. now rewrite Hi, Hline. }
  destruct (check_tag_found policy ca addr2 way t Ga) as (c1 & p & Hct).
  - congruence.
  - rewrite Hwa, Hw. exact Hway.
  - rewrite Hsa, Hslot.
    replace (tags ca) with (tags c'); [exact Hrd|].
    unfold ca, count_access.
    destruct (policy_is policy "L"), (policy_is policy "F"), store2;
      reflexivity.
  - rewrite Hta, Hlt. now symmetry.
  - destruct (hit_spec next_access policy c' addr2 bytes2 store2 c1 p
                Hfa' Hct) as (j & t2 & Hspec). cbv zeta in Hspec.
    destruct Hspec as (_ & _ & _ & _ & _ & -> & Hacc2).
    eexists c', tr, _. split; [exact Hacc|]. split; [exact Hacc2|].
    unfold stamp_hit, count_access.
    destruct store2, (policy_is policy "L"), (policy_is policy "F");
      repeat split; reflexivity.
Qed.

(** X3.  The tag word of a resident line decodes to the address of the line: a
    later write-back of the line goes to the address that its fill came from.
    After a store the word is valid and dirty, so that an eviction of the line
    is a write-back. *)
Theorem resident_word_decodes_to_line_address policy c addr bytes store :
  geometry c -> fa_tags c = None ->
  policy_is policy "R" || policy_is policy "L" || policy_is policy "F"
    = true ->
  0 <= addr < 2 ^ 64 ->
  serves next_access Inv -> handler_ok Inv c ->
  exists c' tr way t,
    access next_access policy c addr bytes store = Some (c', tr) /\
    0 <= way < ways c' /\
    rd (tags c') (slot c' (set_index c' addr) way) = Some t /\
    dirty_addr c' t = Z.land addr (not64 (wrap64 (linesz c' - 1))) /\
    (store = true -> valid_dirty t = true).
Proof.
  intros G Hfa Hpol Haddr Hserv Hh.
  destruct (access_summary policy c addr bytes store
              G Hfa Hpol Haddr Hserv Hh)
    as (c' & tr & way & t & old & Hacc & (G' & _)
        & (Hs & Hw & Hl & Hi & _) & Hway & _ & _ & Hrd & Htag & Hst & _).
  exists c', tr, way, t. split; [exact Hacc|].
  split; [now rewrite Hw|].
  split.
  { unfold slot, set_index in *. now rewrite Hs, Hw, Hi. }
  split; [|exact Hst].
  assert (Hshift : 3 <= idx_shift c < 64) by (destruct G; assumption).
  unfold dirty_addr. rewrite Hi, Hl.
  rewrite (clean_line_address t (Z.shiftr addr (idx_shift c))).
  - rewrite line_address_aligned by (try exact Haddr; lia).
    destruct G as [_ _ _ _ -> _ _ _]. reflexivity.
  - apply line_address_range; [exact Haddr|lia].
  - exact Htag.
Qed.

(** X4.  An access changes at most one tag word, in a way of the set of its
    address: the lines of all other sets, and the other ways of the set, are as
    they were. *)
Theorem access_changes_one_way policy c addr bytes store :
  geometry c -> fa_tags c = None ->
  policy_is policy "R" || policy_is policy "L" || policy_is policy "F"
    = true ->
  0 <= addr < 2 ^ 64 ->
  serves next_access Inv -> handler_ok Inv c ->
  exists c' tr way,
    access next_access policy c addr bytes store = Some (c', tr) /\
    0 <= way < ways c /\
    length (tags c') = length (tags c) /\
    (forall i, 0 <= i < ways c -> i <> way ->
       rd (tags c') (slot c (set_index c addr) i)
         = rd (tags c) (slot c (set_index c addr) i)) /\
    (forall idx i, 0 <= idx < sets c -> idx <> set_index c addr ->
       0 <= i < ways c ->
       rd (tags c') (slot c idx i) = rd (tags c) (slot c idx i)).
Proof.
  intros G Hfa Hpol Haddr Hserv Hh.
  destruct (access_summary policy c addr bytes store
              G Hfa Hpol Haddr Hserv Hh)
    as (c' & tr & way & t & old & Hacc & _ & _ & Hway & _ & Htags & _).
  pose proof (set_index_range c addr G) as Hidx.
  destruct (slot_in_range c _ way G Hidx Hway) as [Hk Hkr].
  exists c', tr, way. split; [exact Hacc|]. split; [exact Hway|].
  rewrite Htags. split; [apply length_insert|]. split.
  - intros i Hi Hne. unfold rd. apply list_lookup_insert_ne.
    destruct (slot_in_range c _ i G Hidx Hi) as [Hki Hkir]. lia.
  - intros idx i Hidx' Hne Hi. unfold rd. apply list_lookup_insert_ne.
    destruct (slot_in_range c idx i G Hidx' Hi) as [Hki Hkir].
    rewrite Hk, Hki. nia.
Qed.

End Residency.

(** ** Which way LRU and FIFO pick *)

Section Picks.

Context {H : Type}.
Implicit Types c : cache_sim_t H.

(** X5.  While a way of the set is empty, LRU and FIFO evict nothing: the line
    goes to the first empty way and the victim is the zero word.  LRU then
    advances its counter twice, and leaves the second value as the stamp of the
    way; FIFO stamps the way with its counter, which it leaves alone. *)
Theorem empty_way_is_filled_first c addr way :
  geometry c -> 0 <= way < ways c ->
  rd (tags c) (slot c (set_index c addr) way) = Some 0 ->
  (forall j, 0 <= j < way ->
     exists t, rd (tags c) (slot c (set_index c addr) j) = Some t /\ t <> 0) ->
  let k := slot c (set_index c addr) way in
  (exists c',
     LRU c addr = Some (c', 0) /\
     tags c' = <[Z.to_nat k := line_tag c addr]> (tags c) /\
     LRUCount c' = wrap_int (wrap_int (LRUCount c + 1) + 1) /\
     rd (LRUTime c') k = Some (wrap_int (LRUCount c + 1)) /\
     valid_dirty 0 = false) /\
  (exists c',
     FIFO c addr = Some (c', 0) /\
     tags c' = <[Z.to_nat k := line_tag c addr]> (tags c) /\
     FIFOCount c' = FIFOCount c /\
     rd (FIFOTime c') k = Some (FIFOCount c)).
Proof.
  intros G Hway Hempty Hbefore k. subst k.
  pose proof (set_index_range c addr G) as Hidx.
  destruct (slot_in_range c _ way G Hidx Hway) as [Hk Hkr].
  assert (Hfirst : forall e w,
            first_empty c (set_index c addr) (Z.to_nat (ways c)) 0 = Some e ->
            match e with Some i => w = i | None => True end ->
            e = Some way /\ (e <> None -> w = way)).
  { intros e w He Hw. apply first_empty_first in He. destruct e as [i|].
    - destruct He as (Hi & Hi0 & Hib). subst w.
      assert (i = way); [|subst; split; [reflexivity|auto]].
      destruct (Z.lt_trichotomy i way) as [Hlt|[Heq|Hgt]]; [|exact Heq|].
      + destruct (Hbefore i) as (t & Ht & Hne); [lia|]. congruence.
      + destruct (Hib way) as (t & Ht & Hne); [lia|]. congruence.
    - destruct (He way) as (t & Ht & Hne); [lia|]. congruence. }
  split.
  - destruct (LRU_result c addr G) as (e & w & v & He & Hw & Hwr & Hv & HL).
    destruct (Hfirst e w He) as [-> Hww].
    { destruct e; [exact Hw|exact I]. }
    rewrite (Hww ltac:(discriminate)) in *.
    rewrite Hempty in Hv. injection Hv as <-.
    eexists. split; [exact HL|]. split; [reflexivity|].
    split; [reflexivity|]. split; [|reflexivity].
    cbn [LRUTime installed set_tags set_lfsr set_LRUCount set_LRUTime].
    unfold rd. apply list_lookup_insert_eq. rewrite length_insert.
    destruct G. lia.
  - destruct (FIFO_result c addr G) as (e & w & v & He & Hw & Hwr & Hv & HF).
    destruct (Hfirst e w He) as [-> Hww].
    { destruct e; [exact Hw|exact I]. }
    rewrite (Hww ltac:(discriminate)) in *.
    rewrite Hempty in Hv. injection Hv as <-.
    eexists. split; [exact HF|]. split; [reflexivity|].
    split; [reflexivity|].
    cbn [FIFOTime installed set_tags set_lfsr set_LRUCount set_LRUTime
         set_FIFOTime].
    unfold rd. apply list_lookup_insert_eq. destruct G. lia.
Qed.

(** X6.  In a set without an empty way, LRU evicts the line of the first way
    among those of least LRU stamp, which it stamps with its counter, and FIFO
    the line of the first way among those of least FIFO stamp. *)
Theorem full_set_evicts_least_stamp c addr :
  geometry c ->
  (forall j, 0 <= j < ways c ->
     exists t, rd (tags c) (slot c (set_index c addr) j) = Some t /\ t <> 0) ->
  (forall j s, 0 <= j < ways c ->
     (rd (LRUTime c) (slot c (set_index c addr) j) = Some s \/
      rd (FIFOTime c) (slot c (set_index c addr) j) = Some s) ->
     s <= 2147483647) ->
  (exists way victim s c',
     LRU c addr = Some (c', victim) /\ 0 <= way < ways c /\
     rd (tags c) (slot c (set_index c addr) way) = Some victim /\
     rd (LRUTime c) (slot c (set_index c addr) way) = Some s /\
     (forall j sj, 0 <= j < ways c ->
        rd (LRUTime c) (slot c (set_index c addr) j) = Some sj ->
        s <= sj /\ (j < way -> s < sj)) /\
     tags c' = <[Z.to_nat (slot c (set_index c addr) way)
                 := line_tag c addr]> (tags c) /\
     LRUTime c' = <[Z.to_nat (slot c (set_index c addr) way)
                    := LRUCount c]> (LRUTime c) /\
     LRUCount c' = wrap_int (LRUCount c + 1)) /\
  (exists way victim s c',
     FIFO c addr = Some (c', victim) /\ 0 <= way < ways c /\
     rd (tags c) (slot c (set_index c addr) way) = Some victim /\
     rd (FIFOTime c) (slot c (set_index c addr) way) = Some s /\
     (forall j sj, 0 <= j < ways c ->
        rd (FIFOTime c) (slot c (set_index c addr) j) = Some sj ->
        s <= sj /\ (j < way -> s < sj)) /\
     tags c' = <[Z.to_nat (slot c (set_index c addr) way)
                 := line_tag c addr]> (tags c) /\
     FIFOTime c' = <[Z.to_nat (slot c (set_index c addr) way)
                     := FIFOCount c]> (FIFOTime c) /\
     FIFOCount c' = FIFOCount c).
Proof.
  intros G Hfull Hint.
  pose proof (set_index_range c addr G) as Hidx.
  assert (Hnone : forall e,
            first_empty c (set_index c addr) (Z.to_nat (ways c)) 0 = Some e ->
            e = None).
  { intros e He. apply first_empty_first in He. destruct e as [i|]; [|easy].
    destruct He as (Hi & Hi0 & _).
    destruct (Hfull i) as (t & Ht & Hne); [lia|]. congruence. }
  assert (Hleast : forall time w,
            Z.of_nat (length time) = sets c * ways c ->
            (forall j s, 0 <= j < ways c ->
               rd time (slot c (set_index c addr) j) = Some s ->
               s <= 2147483647) ->
            oldest c time (set_index c addr) (Z.to_nat (ways c)) 0 0
              2147483647 = Some w ->
            0 <= w < ways c ->
            exists s, rd time (slot c (set_index c addr) w) = Some s /\
              forall j sj, 0 <= j < ways c ->
                rd time (slot c (set_index c addr) j) = Some sj ->
                s <= sj /\ (j < w -> s < sj)).
  { intros time w Hlen Hrange Hold Hw.
    apply oldest_least in Hold as (m & Hm & Hall).
    destruct Hm as [[-> ->]|(_ & Hrd & _ & Hbefore)].
    - destruct (slot_in_range c _ 0 G Hidx Hw) as [Hk Hkr].
      destruct (rd_in_range time (slot c (set_index c addr) 0)) as [s Hs];
        [lia|].
      exists s. split; [exact Hs|]. intros j sj Hj Hsj.
      pose proof (Hall j sj ltac:(lia) Hsj).
      pose proof (Hrange 0 s Hw Hs). split; lia.
    - exists m. split; [exact Hrd|]. intros j sj Hj Hsj. split.
      + apply (Hall j sj); [lia|exact Hsj].
      + intros Hlt. apply (Hbefore j sj); [lia|exact Hsj]. }
  split.
  - destruct (LRU_result c addr G) as (e & w & v & He & Hw & Hwr & Hv & HL).
    rewrite (Hnone e He) in *.
    destruct (Hleast (LRUTime c) w) as (s & Hs & Hmin);
      [destruct G; assumption|intros j s0 Hj Hs0; apply (Hint j); auto
      |exact Hw|exact Hwr|].
    exists w, v, s. eexists. split; [exact HL|]. split; [exact Hwr|].
    split; [exact Hv|]. split; [exact Hs|]. split; [exact Hmin|].
    repeat split.
  - destruct (FIFO_result c addr G) as (e & w & v & He & Hw & Hwr & Hv & HF).
    rewrite (Hnone e He) in *.
    destruct (Hleast (FIFOTime c) w) as (s & Hs & Hmin);
      [destruct G; assumption|intros j s0 Hj Hs0; apply (Hint j); auto
      |exact Hw|exact Hwr|].
    exists w, v, s. eexists. split; [exact HF|]. split; [exact Hwr|].
    split; [exact Hv|]. split; [exact Hs|]. split; [exact Hmin|].
    repeat split.
Qed.

End Picks.

(** ** The policy counters *)

Section Counters.

Context {H : Type}.
Implicit Types c : cache_sim_t H.

Lemma installed_inj c k k' t t' g g' n n' a a' f f' :
  installed c k t g n a f = installed c k' t' g' n' a' f' ->
  g = g' /\ n = n' /\ a = a' /\ f = f'.
Proof.
  intros Heq. split; [|split; [|split]].
  - now apply (f_equal lfsr) in Heq.
  - now apply (f_equal LRUCount) in Heq.
  - now apply (f_equal LRUTime) in Heq.
  - now apply (f_equal FIFOTime) in Heq.
Qed.

Lemma first_empty_ext c c' idx n i :
  tags c' = tags c -> ways c' = ways c ->
  first_empty c' idx n i = first_empty c idx n i.
Proof.
  intros Ht Hw. revert i. induction n as [|n IH]; intros i; simpl.
  - reflexivity.
  - unfold slot. rewrite Ht, Hw. fold (slot c idx i).
    destruct (rd (tags c) (slot c idx i)) as [t|]; simpl; [|reflexivity].
    destruct (t =? 0); [reflexivity|apply IH].
Qed.

Context (next_access : H -> Z -> Z -> bool -> option H).
Context (Inv : H -> Prop).

(** X7.  What one access does to the counters and stamps of the policies.  The
    random policy keeps none.  Under FIFO the FIFO counter advances by one at
    every access.  Under LRU the LRU counter advances by one at a hit, by two
    at a miss in a set without an empty way, and by three at a miss in a set
    with an empty way. *)
Theorem policy_counters_per_access policy c addr bytes store :
  geometry c -> fa_tags c = None ->
  policy_is policy "R" || policy_is policy "L" || policy_is policy "F"
    = true ->
  0 <= addr < 2 ^ 64 ->
  serves next_access Inv -> handler_ok Inv c ->
  exists c' tr c1 r e,
    access next_access policy c addr bytes store = Some (c', tr) /\
    check_tag policy (count_access policy c bytes store) addr
      = Some (c1, r) /\
    first_empty c (set_index c addr) (Z.to_nat (ways c)) 0 = Some e /\
    (policy = "R"%string ->
     LRUCount c' = LRUCount c /\ FIFOCount c' = FIFOCount c /\
     LRUTime c' = LRUTime c /\ FIFOTime c' = FIFOTime c) /\
    (policy = "F"%string ->
     FIFOCount c' = wrap_int (FIFOCount c + 1) /\
     LRUCount c' = LRUCount c /\ LRUTime c' = LRUTime c) /\
    (policy = "L"%string ->
     FIFOCount c' = FIFOCount c /\ FIFOTime c' = FIFOTime c /\
     LRUCount c' =
       match r, e with
       | Some _, _ => wrap_int (LRUCount c + 1)
       | None, None => wrap_int (wrap_int (LRUCount c + 1) + 1)
       | None, Some _ =>
           wrap_int (wrap_int (wrap_int (LRUCount c + 1) + 1) + 1)
       end).
Proof.
  intros G Hfa Hpol Haddr Hserv Hh.
  pose proof (set_index_range c addr G) as Hidx.
  destruct (first_empty_total c (set_index c addr) (Z.to_nat (ways c)) 0
              G Hidx) as (e & He & _); [lia|destruct G; lia|].
  set (ca := count_access policy c bytes store).
  set (c0 := count_miss ca store).
  pose proof (counted_geometry policy c bytes store G) as G0.
  pose proof (counted_cells policy c bytes store) as Hcc. cbv zeta in Hcc.
  fold ca in Hcc, G0. fold c0 in Hcc, G0.
  destruct Hcc as (_ & Hs0 & _ & Ht0 & Hi0 & _ & Hw0 & Htg0 & Hl0 & Hf0
                   & _ & Hn0 & Hm0).
  assert (Hfa0 : fa_tags c0 = None).
  { unfold c0, ca.
    now destruct (counted_frame policy c bytes store) as (-> & _). }
  assert (He0 : first_empty c0 (set_index c0 addr) (Z.to_nat (ways c0)) 0
                = Some e).
  { rewrite Hi0, Hw0. rewrite (first_empty_ext c c0); auto. }
  destruct (access_outcome next_access Inv policy c addr bytes store
              G Hfa Hpol Haddr Hserv Hh) as [Hhit|Hmiss].
  - destruct Hhit as (j & t & _ & _ & _ & Hct & Hacc).
    eexists _, _, _, _, e. split; [exact Hacc|]. split; [exact Hct|].
    split; [exact He|].
    split; [|split]; intros ->; unfold stamp_hit, count_access;
      destruct store; repeat split; reflexivity.
  - destruct Hmiss as (way & victim & g & n & a & f & mh & tr & Hmiss).
    cbv zeta in Hmiss.
    destruct Hmiss as (Hct & Hway & Hrd & _ & _ & Hsel & Hacc & _).
    fold ca in Hct, Hsel, Hacc. fold c0 in Hsel, Hacc.
    eexists _, _, _, _, e. split; [exact Hacc|]. split; [exact Hct|].
    split; [exact He|].
    split; [|split]; intros ->.
    + unfold select_victim, victimize in Hsel. rewrite Hfa0 in Hsel.
      change (policy_is "R" "R") with true in Hsel. cbv iota in Hsel.
      destruct (victimize_spec c0 addr G0) as (v & _ & _ & Hv).
      rewrite Hv in Hsel.
      match type of Hsel with
      | Some (?A, _) = Some (?B, _) =>
          assert (Heq : A = B) by congruence; clear Hsel; rename Heq into Hsel
      end.
      apply installed_inj in Hsel as (_ & <- & <- & <-).
      change (policy_is "R" "L") with false. rewrite andb_false_r.
      cbn [LRUCount FIFOCount LRUTime FIFOTime set_tags set_lfsr
           set_LRUCount set_LRUTime set_FIFOTime set_miss_handler
           set_writebacks].
      rewrite Hl0, Hf0. unfold c0, ca, count_miss, count_access.
      destruct store; repeat split; reflexivity.
    + unfold select_victim in Hsel.
      change (policy_is "F" "R") with false in Hsel.
      change (policy_is "F" "L") with false in Hsel.
      change (policy_is "F" "F") with true in Hsel. cbv iota in Hsel.
      destruct (FIFO_result c0 addr G0) as (e' & w & v & _ & _ & _ & _ & HF).
      rewrite HF in Hsel.
      match type of Hsel with
      | Some (?A, _) = Some (?B, _) =>
          assert (Heq : A = B) by congruence; clear Hsel; rename Heq into Hsel
      end.
      apply installed_inj in Hsel as (_ & <- & <- & <-).
      change (policy_is "F" "L") with false. rewrite andb_false_r.
      cbn [LRUCount FIFOCount LRUTime FIFOTime set_tags set_lfsr
           set_LRUCount set_LRUTime set_FIFOTime set_miss_handler
           set_writebacks].
      rewrite Hl0. unfold c0, ca, count_miss, count_access.
      destruct store; repeat split; reflexivity.
    + unfold select_victim in Hsel.
      change (policy_is "L" "R") with false in Hsel.
      change (policy_is "L" "L") with true in Hsel. cbv iota in Hsel.
      destruct (LRU_result c0 addr G0) as (e' & w & v & He' & _ & _ & _ & HL).
      rewrite He0 in He'. injection He' as <-.
      rewrite HL in Hsel.
      match type of Hsel with
      | Some (?A, _) = Some (?B, _) =>
          assert (Heq : A = B) by congruence; clear Hsel; rename Heq into Hsel
      end.
      apply installed_inj in Hsel as (_ & <- & _ & <-).
      cbn [LRUCount FIFOCount LRUTime FIFOTime set_tags set_lfsr
           set_LRUCount set_LRUTime set_FIFOTime set_miss_handler
           set_writebacks].
      rewrite Hf0, Hn0. unfold c0, ca, count_miss, count_access.
      change (policy_is "L" "L") with true.
      change (policy_is "L" "F") with false.
      destruct store, e; repeat split; reflexivity.
Qed.

End Counters.

(** ** The accounts of an access *)

Section Accounts.

Context {H : Type}.
Implicit Types c : cache_sim_t H.
Context (next_access : H -> Z -> Z -> bool -> option H).
Context (Inv : H -> Prop).

(** One access, in full: the way [way] of the set held [old]; [miss] tells
    whether the line was found there or has replaced it. *)
Lemma access_accounts policy c addr bytes store :
  geometry c -> fa_tags c = None ->
  policy_is policy "R" || policy_is policy "L" || policy_is policy "F"
    = true ->
  0 <= addr < 2 ^ 64 ->
  serves next_access Inv -> handler_ok Inv c ->
  exists c' tr way old (miss : bool),
    access next_access policy c addr bytes store = Some (c', tr) /\
    (geometry c' /\ fa_tags c' = None /\ handler_ok Inv c' /\
     linesz c' = linesz c) /\
    (0 <= way < ways c /\
     rd (tags c) (slot c (set_index c addr) way) = Some old /\
     (miss = false -> Z.land old (not64 DIRTY) = line_tag c addr) /\
     tags c' = <[Z.to_nat (slot c (set_index c addr) way)
                 := let w := if miss then line_tag c addr else old in
                    if store then Z.lor w DIRTY else w]> (tags c)) /\
    (read_accesses c' = (if store then read_accesses c
                         else wrap64 (read_accesses c + 1)) /\
     write_accesses c' = (if store then wrap64 (write_accesses c + 1)
                          else write_accesses c) /\
     bytes_read c' = (if store then bytes_read c
                      else wrap64 (bytes_read c + bytes)) /\
     bytes_written c' = (if store then wrap64 (bytes_written c + bytes)
                         else bytes_written c)) /\
    (read_misses c' = (if miss && negb store
                       then wrap64 (read_misses c + 1) else read_misses c) /\
     write_misses c' = (if miss && store
                        then wrap64 (write_misses c + 1)
                        else write_misses c) /\
     writebacks c' = (if miss && valid_dirty old
                      then wrap64 (writebacks c + 1) else writebacks c)) /\
    forwards tr =
      (if miss then
         match miss_handler c with
         | Some _ =>
             (if valid_dirty old
              then [(dirty_addr c old, linesz c, true)] else []) ++
             [(Z.land addr (not64 (wrap64 (linesz c - 1))), linesz c, false)]
         | None => []
         end
       else []) /\
    match miss_handler c with
    | Some h =>
        exists h1 h2,
          miss_handler c' = Some h2 /\
          (if miss && valid_dirty old
           then next_access h (dirty_addr c old) (linesz c) true = Some h1 /\
                Inv h1
           else h1 = h) /\
          (if miss
           then next_access h1 (Z.land addr (not64 (wrap64 (linesz c - 1))))
                  (linesz c) false = Some h2
           else h2 = h1)
    | None => miss_handler c' = None
    end.
Proof.
  intros G Hfa Hpol Haddr Hserv Hh.
  destruct (access_keeps next_access Inv policy c addr bytes store
              G Hfa Hpol Haddr Hserv Hh) as (c' & tr & Hacc & G' & Hfa' & Hh').
  destruct (access_outcome next_access Inv policy c addr bytes store
              G Hfa Hpol Haddr Hserv Hh) as [Hhit|Hmiss].
  - destruct Hhit as (j & t & Hj & Hrd & Htag & _ & Hacc').
    rewrite Hacc in Hacc'. injection Hacc' as -> ->.
    eexists _, _, j, t, false. split; [exact Hacc|].
    split.
    { split; [exact G'|]. split; [exact Hfa'|]. split; [exact Hh'|].
      unfold stamp_hit, count_access.
      destruct store, (policy_is policy "L"), (policy_is policy "F");
        reflexivity. }
    split.
    { split; [exact Hj|]. split; [exact Hrd|]. split; [now symmetry|].
      cbv zeta. destruct store.
      - reflexivity.
      - rewrite list_insert_id by exact Hrd.
        unfold stamp_hit, count_access.
        destruct (policy_is policy "L"), (policy_is policy "F");
          reflexivity. }
    split.
    { unfold stamp_hit, count_access.
      destruct store, (policy_is policy "L"), (policy_is policy "F");
        repeat split; reflexivity. }
    split.
    { unfold stamp_hit, count_access.
      destruct store, (policy_is policy "L"), (policy_is policy "F");
        repeat split; reflexivity. }
    split; [reflexivity|].
    destruct (miss_handler c) as [h|] eqn:Hmh.
    + exists h, h. split; [|split; reflexivity].
      rewrite <- Hmh. unfold stamp_hit, count_access.
      destruct store, (policy_is policy "L"), (policy_is policy "F");
        reflexivity.
    + rewrite <- Hmh. unfold stamp_hit, count_access.
      destruct store, (policy_is policy "L"), (policy_is policy "F");
        reflexivity.
  - destruct Hmiss as (way & victim & g & n & a & f & mh & tr' & Hmiss).
    cbv zeta in Hmiss.
    destruct Hmiss as (_ & Hway & Hrd & _ & _ & _ & Hacc' & Htr & Hnext).
    rewrite Hacc in Hacc'. injection Hacc' as -> ->.
    eexists _, _, way, victim, true. split; [exact Hacc|].
    split.
    { split; [exact G'|]. split; [exact Hfa'|]. split; [exact Hh'|].
      unfold count_miss, count_access.
      destruct store, (policy_is policy "L"), (policy_is policy "F");
        reflexivity. }
    split.
    { split; [exact Hway|]. split; [exact Hrd|]. split; [discriminate|].
      reflexivity. }
    split.
    { unfold count_miss, count_access.
      destruct store, (policy_is policy "L"), (policy_is policy "F");
        repeat split; reflexivity. }
    split.
    { unfold count_miss, count_access.
      destruct store, (policy_is policy "L"), (policy_is policy "F"),
        (valid_dirty victim); repeat split; reflexivity. }
    split; [exact Htr|].
    destruct (miss_handler c) as [h|] eqn:Hmh; [|exact Hnext].
    destruct Hnext as (h1 & h2 & Hn1 & Hn2 & -> & Hi2).
    exists h1, h2. split; [reflexivity|]. split; [|exact Hn2].
    cbn [andb]. destruct (valid_dirty victim); [|exact Hn1].
    split; [exact Hn1|].
    destruct (Hserv h (dirty_addr c victim) (linesz c) true (Hh h Hmh)
                (dirty_addr_range c victim)) as (h' & Hx & Hi).
    congruence.
Qed.

End Accounts.

(** ** Traces *)

Lemma dirty_lines_nonneg (l : list Z) : 0 <= dirty_lines l.
Proof.
  induction l as [|t l IH]; simpl; [lia|].
  destruct (valid_dirty t); simpl; lia.
Qed.

Lemma dirty_lines_insert (l : list Z) (k : nat) (old x : Z) :
  l !! k = Some old ->
  dirty_lines (<[k := x]> l)
    = dirty_lines l - Z.b2z (valid_dirty old) + Z.b2z (valid_dirty x).
Proof.
  revert k. induction l as [|t l IH]; intros [|k]; simpl; try discriminate.
  - intros [= ->]. lia.
  - intros Hk. rewrite (IH k Hk). lia.
Qed.

Lemma dirty_lines_replicate (n : nat) : dirty_lines (replicate n 0) = 0.
Proof. induction n as [|n IH]; simpl; [reflexivity|exact IH]. Qed.

Lemma wrap64_add_l (a b : Z) : wrap64 (wrap64 a + b) = wrap64 (a + b).
Proof. unfold wrap64. apply Zplus_mod_idemp_l. Qed.

Lemma references_range (store : bool) (refs : list (Z * Z * bool)) :
  0 <= references store refs <= Z.of_nat (length refs).
Proof.
  induction refs as [|[[a b] s] refs IH]; simpl; [lia|].
  destruct (eqb s store); simpl; lia.
Qed.

Lemma forwards_app (tr tr' : list event) :
  forwards (tr ++ tr') = forwards tr ++ forwards tr'.
Proof. apply omap_app. Qed.

Section Traces.

Context {H : Type}.
Implicit Types c : cache_sim_t H.
Context (next_access : H -> Z -> Z -> bool -> option H).
Context (Inv : H -> Prop).

(** X8.  The access counters count the references of a trace, and the byte
    counters add up their sizes, in 64-bit arithmetic. *)
Theorem statistics_count_the_trace policy refs : forall c,
  geometry c -> fa_tags c = None ->
  policy_is policy "R" || policy_is policy "L" || policy_is policy "F"
    = true ->
  serves next_access Inv -> handler_ok Inv c ->
  Forall (fun ref : Z * Z * bool => 0 <= ref.1.1 < 2 ^ 64) refs ->
  exists c' tr,
    run next_access policy c refs = Some (c', tr) /\
    wrap64 (read_accesses c')
      = wrap64 (read_accesses c + references false refs) /\
    wrap64 (write_accesses c')
      = wrap64 (write_accesses c + references true refs) /\
    wrap64 (bytes_read c') = wrap64 (bytes_read c + bytes_of false refs) /\
    wrap64 (bytes_written c')
      = wrap64 (bytes_written c + bytes_of true refs).
Proof.
  induction refs as [|[[addr bytes] store] refs IH];
    intros c G Hfa Hpol Hserv Hh Hrefs.
  - exists c, []. simpl. rewrite !Z.add_0_r. auto.
  - apply Forall_cons in Hrefs as [Haddr Hrefs]. simpl in Haddr.
    destruct (access_accounts next_access Inv policy c addr bytes store
                G Hfa Hpol Haddr Hserv Hh)
      as (c1 & tr1 & way & old & miss & Hacc & (G1 & Hfa1 & Hh1 & _) & _
          & (Hra & Hwa & Hbr & Hbw) & _).
    destruct (IH c1 G1 Hfa1 Hpol Hserv Hh1 Hrefs)
      as (c' & tr & Hrun & Hra' & Hwa' & Hbr' & Hbw').
    exists c', (tr1 ++ tr). simpl. rewrite Hacc. simpl. rewrite Hrun. simpl.
    split; [reflexivity|].
    rewrite Hra', Hwa', Hbr', Hbw', Hra, Hwa, Hbr, Hbw.
    destruct store; simpl; rewrite ?wrap64_add_l;
      repeat split; f_equal; lia.
Qed.

(** X9.  While the access counters do not overflow, no miss counter exceeds its
    access counter: there are never more read misses than reads, nor more
    write misses than writes, and the accesses counted are those of the
    trace. *)
Theorem misses_bounded_by_accesses policy refs : forall c,
  geometry c -> fa_tags c = None ->
  policy_is policy "R" || policy_is policy "L" || policy_is policy "F"
    = true ->
  serves next_access Inv -> handler_ok Inv c ->
  Forall (fun ref : Z * Z * bool => 0 <= ref.1.1 < 2 ^ 64) refs ->
  0 <= read_misses c <= read_accesses c ->
  0 <= write_misses c <= write_accesses c ->
  read_accesses c + write_accesses c + Z.of_nat (length refs) < 2 ^ 64 ->
  exists c' tr,
    run next_access policy c refs = Some (c', tr) /\
    0 <= read_misses c' <= read_accesses c' /\
    0 <= write_misses c' <= write_accesses c' /\
    read_accesses c' + write_accesses c'
      = read_accesses c + write_accesses c + Z.of_nat (length refs).
Proof.
  induction refs as [|[[addr bytes] store] refs IH];
    intros c G Hfa Hpol Hserv Hh Hrefs Hr Hw Hlen.
  - exists c, []. simpl in *. split; [reflexivity|]. split; [exact Hr|].
    split; [exact Hw|]. lia.
  - apply Forall_cons in Hrefs as [Haddr Hrefs]. simpl in Haddr.
    simpl length in Hlen.
    destruct (access_accounts next_access Inv policy c addr bytes store
                G Hfa Hpol Haddr Hserv Hh)
      as (c1 & tr1 & way & old & miss & Hacc & (G1 & Hfa1 & Hh1 & _) & _
          & (Hra & Hwa & _) & (Hrm & Hwm & _) & _).
    destruct (IH c1 G1 Hfa1 Hpol Hserv Hh1 Hrefs)
      as (c' & tr & Hrun & Hr' & Hw' & Hsum).
    + rewrite Hrm, Hra.
      destruct store, miss; simpl; rewrite ?wrap64_small by lia; lia.
    + rewrite Hwm, Hwa.
      destruct store, miss; simpl; rewrite ?wrap64_small by lia; lia.
    + rewrite Hra, Hwa.
      destruct store; simpl; rewrite ?wrap64_small by lia; lia.
    + exists c', (tr1 ++ tr). simpl run. rewrite Hacc. simpl.
      rewrite Hrun. simpl.
      split; [reflexivity|]. split; [exact Hr'|]. split; [exact Hw'|].
      rewrite Hsum, Hra, Hwa.
      destruct store; simpl; rewrite ?wrap64_small by lia; lia.
Qed.

(** X10.  A trace of loads on a cache without dirty lines writes nothing back:
    the write-back counter stays, no write is forwarded to the next level, and
    no line becomes dirty. *)
Theorem loads_never_write_back policy refs : forall c,
  geometry c -> fa_tags c = None ->
  policy_is policy "R" || policy_is policy "L" || policy_is policy "F"
    = true ->
  serves next_access Inv -> handler_ok Inv c ->
  Forall (fun ref : Z * Z * bool => 0 <= ref.1.1 < 2 ^ 64 /\ ref.2 = false)
    refs ->
  dirty_lines (tags c) = 0 ->
  exists c' tr,
    run next_access policy c refs = Some (c', tr) /\
    writebacks c' = writebacks c /\
    dirty_lines (tags c') = 0 /\
    Forall (fun fw : Z * Z * bool => fw.2 = false) (forwards tr).
Proof.
  induction refs as [|[[addr bytes] store] refs IH];
    intros c G Hfa Hpol Hserv Hh Hrefs Hclean.
  - exists c, []. simpl. auto.
  - apply Forall_cons in Hrefs as [[Haddr Hload] Hrefs]. simpl in Haddr, Hload.
    subst store.
    destruct (access_accounts next_access Inv policy c addr bytes false
                G Hfa Hpol Haddr Hserv Hh)
      as (c1 & tr1 & way & old & miss & Hacc & (G1 & Hfa1 & Hh1 & _)
          & (Hway & Hrd & _ & Htags) & _ & (_ & _ & Hwb) & Htr & _).
    cbv zeta in Htags.
    assert (Hx : 0 <= Z.shiftr addr (idx_shift c) < 2 ^ 61).
    { apply line_address_range; [exact Haddr|destruct G; lia]. }
    pose proof (dirty_lines_insert (tags c) _ old
                  (if miss then line_tag c addr else old) Hrd) as Hins.
    rewrite <- Htags in Hins.
    pose proof (dirty_lines_nonneg (tags c1)) as Hnn.
    assert (Hold : valid_dirty old = false /\ dirty_lines (tags c1) = 0).
    { destruct miss.
      - unfold line_tag in Hins. rewrite (line_tag_not_dirty _ Hx) in Hins.
        destruct (valid_dirty old); simpl in Hins; split; auto; lia.
      - destruct (valid_dirty old) eqn:Hvd; [|split; auto; lia].
        exfalso. clear Hins.
        assert (Hpos : forall l k, l !! k = Some old -> 0 < dirty_lines l).
        { induction l as [|t l IHl]; intros [|k]; simpl; try discriminate.
          - intros [= ->]. rewrite Hvd. pose proof (dirty_lines_nonneg l).
            simpl. lia.
          - intros Hk. specialize (IHl k Hk).
            destruct (valid_dirty t); simpl; lia. }
        specialize (Hpos _ _ Hrd). lia. }
    destruct Hold as [Hold Hclean1].
    rewrite Hold, andb_false_r in Hwb.
    destruct (IH c1 G1 Hfa1 Hpol Hserv Hh1 Hrefs Hclean1)
      as (c' & tr & Hrun & Hwb' & Hclean' & Hfw).
    exists c', (tr1 ++ tr). simpl run. rewrite Hacc. simpl. rewrite Hrun.
    simpl. split; [reflexivity|]. split; [congruence|].
    split; [exact Hclean'|].
    rewrite forwards_app. apply Forall_app. split; [|exact Hfw].
    rewrite Htr, Hold.
    destruct miss, (miss_handler c); simpl; repeat constructor.
Qed.

(** X11.  Write-backs never outnumber stores: along a trace, the write-back
    counter and the number of dirty lines grow together by at most the number
    of stores of the trace. *)
Theorem writebacks_bounded_by_stores policy refs : forall c,
  geometry c -> fa_tags c = None ->
  policy_is policy "R" || policy_is policy "L" || policy_is policy "F"
    = true ->
  serves next_access Inv -> handler_ok Inv c ->
  Forall (fun ref : Z * Z * bool => 0 <= ref.1.1 < 2 ^ 64) refs ->
  0 <= writebacks c ->
  exists c' tr,
    run next_access policy c refs = Some (c', tr) /\
    0 <= writebacks c' /\
    writebacks c' + dirty_lines (tags c')
      <= writebacks c + dirty_lines (tags c) + references true refs.
Proof.
  induction refs as [|[[addr bytes] store] refs IH];
    intros c G Hfa Hpol Hserv Hh Hrefs Hwb0.
  - exists c, []. simpl. split; [reflexivity|]. lia.
  - apply Forall_cons in Hrefs as [Haddr Hrefs]. simpl in Haddr.
    destruct (access_accounts next_access Inv policy c addr bytes store
                G Hfa Hpol Haddr Hserv Hh)
      as (c1 & tr1 & way & old & miss & Hacc & (G1 & Hfa1 & Hh1 & _)
          & (Hway & Hrd & Hhit & Htags) & _ & (_ & _ & Hwb) & _).
    cbv zeta in Htags.
    assert (Hx : 0 <= Z.shiftr addr (idx_shift c) < 2 ^ 61).
    { apply line_address_range; [exact Haddr|destruct G; lia]. }
    pose proof (line_tag_clean c addr G Haddr) as Hcl.
    pose proof (dirty_lines_insert (tags c) _ old
                  (if store
                   then Z.lor (if miss then line_tag c addr else old) DIRTY
                   else if miss then line_tag c addr else old) Hrd) as Hins.
    rewrite <- Htags in Hins.
    assert (Hle : wrap64 (writebacks c + 1) <= writebacks c + 1).
    { unfold wrap64. apply Z.mod_le; lia. }
    pose proof (wrap64_range (writebacks c + 1)) as Hrg.
    assert (Hstep : 0 <= writebacks c1 /\
                    writebacks c1 + dirty_lines (tags c1)
                      <= writebacks c + dirty_lines (tags c) + Z.b2z store).
    { rewrite Hwb, Hins.
      destruct miss; cbn [andb].
      - assert (Hnew : valid_dirty (if store
                                    then Z.lor (line_tag c addr) DIRTY
                                    else line_tag c addr) = store).
        { destruct store.
          - now apply (clean_valid_dirty _ (Z.shiftr addr (idx_shift c))).
          - apply (line_tag_not_dirty _ Hx). }
        rewrite Hnew.
        destruct (valid_dirty old), store; simpl; lia.
      - specialize (Hhit eq_refl).
        destruct store.
        + rewrite (clean_valid_dirty old (Z.shiftr addr (idx_shift c)) Hhit).
          destruct (valid_dirty old); simpl; lia.
        + simpl. lia. }
    destruct Hstep as [Hwb1 Hstep].
    destruct (IH c1 G1 Hfa1 Hpol Hserv Hh1 Hrefs Hwb1)
      as (c' & tr & Hrun & Hwb' & Hle').
    exists c', (tr1 ++ tr). simpl run. rewrite Hacc. simpl. rewrite Hrun.
    simpl. split; [reflexivity|]. split; [exact Hwb'|].
    replace (eqb store true) with store by (now destruct store). lia.
Qed.

End Traces.

(** ** Traffic to the next level *)

Lemma shl64_aligned (x s : Z) : 0 <= s < 64 -> shl64 x s mod 2 ^ s = 0.
Proof.
  intros Hs. unfold shl64, wrap64.
  rewrite Z.shiftl_mul_pow2 by lia.
  replace (2 ^ 64) with (2 ^ s * 2 ^ (64 - s))
    by (rewrite <- Z.pow_add_r by lia; f_equal; lia).
  assert (0 < 2 ^ s) by (apply Z.pow_pos_nonneg; lia).
  assert (0 < 2 ^ (64 - s)) by (apply Z.pow_pos_nonneg; lia).
  rewrite Z.mul_comm. rewrite Zmult_mod_distr_l.
  rewrite Z.mul_comm. apply Z.mod_mul. lia.
Qed.

Ltac wrap64_lia := unfold wrap64 in *; Z.div_mod_to_equations; lia.

Section Traffic.

Context {H : Type}.
Implicit Types c : cache_sim_t H.
Context (next_access : H -> Z -> Z -> bool -> option H).
Context (Inv : H -> Prop).

(** X12.  With a next level attached, the requests forwarded along a trace are
    one read for every miss and one write for every write-back, each of one
    line, at an address that is a multiple of the line size. *)
Theorem forwards_match_counters policy refs : forall c h,
  geometry c -> fa_tags c = None ->
  policy_is policy "R" || policy_is policy "L" || policy_is policy "F"
    = true ->
  serves next_access Inv -> handler_ok Inv c ->
  miss_handler c = Some h ->
  Forall (fun ref : Z * Z * bool => 0 <= ref.1.1 < 2 ^ 64) refs ->
  exists c' tr h',
    run next_access policy c refs = Some (c', tr) /\
    miss_handler c' = Some h' /\
    wrap64 (read_misses c' + write_misses c')
      = wrap64 (read_misses c + write_misses c
                + references false (forwards tr)) /\
    wrap64 (writebacks c')
      = wrap64 (writebacks c + references true (forwards tr)) /\
    Forall (fun fw : Z * Z * bool =>
              fw.1.2 = linesz c /\ 0 <= fw.1.1 < 2 ^ 64 /\
              fw.1.1 mod linesz c = 0) (forwards tr).
Proof.
  induction refs as [|[[addr bytes] store] refs IH];
    intros c h G Hfa Hpol Hserv Hh Hmh Hrefs.
  - exists c, [], h. simpl. rewrite !Z.add_0_r. auto 10.
  - apply Forall_cons in Hrefs as [Haddr Hrefs]. simpl in Haddr.
    destruct (access_accounts next_access Inv policy c addr bytes store
                G Hfa Hpol Haddr Hserv Hh)
      as (c1 & tr1 & way & old & miss & Hacc & (G1 & Hfa1 & Hh1 & Hl1) & _
          & _ & (Hrm & Hwm & Hwb) & Htr & Hnext).
    rewrite Hmh in Hnext, Htr. destruct Hnext as (h1 & h2 & Hmh1 & _).
    destruct (IH c1 h2 G1 Hfa1 Hpol Hserv Hh1 Hmh1 Hrefs)
      as (c' & tr & h' & Hrun & Hmh' & Hm' & Hwb' & Hfw).
    exists c', (tr1 ++ tr), h'. simpl run. rewrite Hacc. simpl.
    rewrite Hrun. simpl.
    split; [reflexivity|]. split; [exact Hmh'|].
    rewrite forwards_app, Htr.
    assert (Hs : 0 <= idx_shift c < 64) by (destruct G; lia).
    assert (Hlz : linesz c = 2 ^ idx_shift c) by (destruct G; assumption).
    split; [|split].
    + rewrite Hm', Hrm, Hwm.
      destruct miss, store, (valid_dirty old); simpl; wrap64_lia.
    + rewrite Hwb', Hwb.
      destruct miss, (valid_dirty old); simpl; wrap64_lia.
    + apply Forall_app. split.
      * destruct miss; [|constructor].
        apply Forall_app. split.
        -- destruct (valid_dirty old); repeat constructor; simpl.
           ++ pose proof (dirty_addr_range c old). lia.
           ++ pose proof (dirty_addr_range c old). lia.
           ++ now apply dirty_addr_aligned.
        -- repeat constructor; simpl.
           ++ pose proof (fill_addr_range c addr Haddr). lia.
           ++ pose proof (fill_addr_range c addr Haddr). lia.
           ++ rewrite Hlz. rewrite <- line_address_aligned by lia.
              now apply shl64_aligned.
      * rewrite Hl1 in Hfw. exact Hfw.
Qed.

End Traffic.

(** ** Two levels *)

Section Hierarchy.

Context {H : Type}.
Context (next_access : H -> Z -> Z -> bool -> option H).
Context (Inv : H -> Prop).

Lemma run_app policy (c : cache_sim_t H) refs refs' :
  run next_access policy c (refs ++ refs') =
    '(c1, tr) ← run next_access policy c refs;
    '(c2, tr') ← run next_access policy c1 refs';
    Some (c2, tr ++ tr').
Proof.
  revert c. induction refs as [|[[a b] s] refs IH]; intros c; simpl.
  - destruct (run next_access policy c refs') as [[c2 tr']|]; reflexivity.
  - destruct (access next_access policy c a b s) as [[c1 tr1]|];
      simpl; [|reflexivity].
    rewrite IH.
    destruct (run next_access policy c1 refs) as [[c2 tr2]|];
      simpl; [|reflexivity].
    destruct (run next_access policy c2 refs') as [[c3 tr3]|];
      simpl; [|reflexivity].
    now rewrite app_assoc.
Qed.

(** X13.  A cache whose next level is a cache: the state that a trace leaves in
    the second level is the one that the second level reaches by running, on
    its own, the requests that the first level forwards. *)
Theorem next_level_runs_the_forwards policy refs :
  forall (l1 : cache_sim_t (cache_sim_t H)) (l2 : cache_sim_t H),
  geometry l1 -> fa_tags l1 = None -> miss_handler l1 = Some l2 ->
  geometry l2 -> fa_tags l2 = None -> handler_ok Inv l2 ->
  policy_is policy "R" || policy_is policy "L" || policy_is policy "F"
    = true ->
  serves next_access Inv ->
  Forall (fun ref : Z * Z * bool => 0 <= ref.1.1 < 2 ^ 64) refs ->
  exists l1' tr l2' tr2,
    run (as_next_level next_access policy) policy l1 refs = Some (l1', tr) /\
    miss_handler l1' = Some l2' /\
    run next_access policy l2 (forwards tr) = Some (l2', tr2) /\
    geometry l1' /\ geometry l2'.
Proof.
  set (Inv1 := fun c : cache_sim_t H =>
                 geometry c /\ fa_tags c = None /\ handler_ok Inv c).
  induction refs as [|[[addr bytes] store] refs IH];
    intros l1 l2 G1 Hfa1 Hmh G2 Hfa2 Hh2 Hpol Hserv Hrefs.
  - exists l1, [], l2, []. simpl. auto.
  - apply Forall_cons in Hrefs as [Haddr Hrefs]. simpl in Haddr.
    pose proof (cache_serves next_access Inv policy Hpol Hserv) as Hserv1.
    fold Inv1 in Hserv1.
    assert (Hh1 : handler_ok Inv1 l1).
    { intros h Hx. rewrite Hmh in Hx. injection Hx as <-.
      unfold Inv1. auto. }
    destruct (access_accounts (as_next_level next_access policy) Inv1
                policy l1 addr bytes store G1 Hfa1 Hpol Haddr Hserv1 Hh1)
      as (c1 & tr1 & way & old & miss & Hacc & (G1' & Hfa1' & Hh1' & _) & _
          & _ & _ & Htr & Hnext).
    rewrite Hmh in Hnext, Htr. destruct Hnext as (h1 & h2 & Hmh1 & Hn1 & Hn2).
    assert (Hi2 : Inv1 h2) by (apply Hh1'; exact Hmh1).
    destruct Hi2 as (Gh2 & Hfah2 & Hhh2).
    destruct (IH c1 h2 G1' Hfa1' Hmh1 Gh2 Hfah2 Hhh2 Hpol Hserv Hrefs)
      as (l1' & tr & l2' & tr2 & Hrun & Hmh' & Hrun2 & Gl1 & Gl2).
    assert (Hstep : exists t, run next_access policy l2 (forwards tr1)
                              = Some (h2, t)).
    { rewrite Htr. unfold as_next_level in Hn1, Hn2.
      destruct miss; cbn [andb] in Hn1.
      - destruct (valid_dirty old).
        + destruct Hn1 as [Hn1 _].
          destruct (access next_access policy l2 _ _ true)
            as [[x t1]|] eqn:Ha1; [|discriminate].
          injection Hn1 as ->.
          destruct (access next_access policy h1 _ _ false)
            as [[y t2]|] eqn:Ha2; [|discriminate].
          injection Hn2 as ->.
          simpl. rewrite Ha1. simpl. rewrite Ha2. simpl. eauto.
        + subst h1.
          destruct (access next_access policy l2 _ _ false)
            as [[y t2]|] eqn:Ha2; [|discriminate].
          injection Hn2 as ->.
          simpl. rewrite Ha2. simpl. eauto.
      - subst h1 h2. simpl. eauto. }
    destruct Hstep as (t & Hstep).
    exists l1', (tr1 ++ tr), l2', (t ++ tr2).
    simpl run. rewrite Hacc. simpl. rewrite Hrun. simpl.
    split; [reflexivity|]. split; [exact Hmh'|].
    rewrite forwards_app, run_app, Hstep. simpl. rewrite Hrun2. simpl.
    auto.
Qed.

End Hierarchy.

(** ** The tag map *)

Lemma tm_find_put (k v : Z) (m : tagmap) : tm_find k (tm_put k v m) = Some v.
Proof.
  induction m as [|[k' v'] m IH]; simpl.
  - now rewrite Z.eqb_refl.
  - destruct (Z.ltb_spec k k'); simpl; [now rewrite Z.eqb_refl|].
    destruct (Z.eqb_spec k k') as [->|Hne]; simpl.
    + now rewrite Z.eqb_refl.
    + destruct (Z.eqb_spec k k'); [contradiction|exact IH].
Qed.

Lemma tm_put_length (k v : Z) (m : tagmap) :
  (length (tm_put k v m) <= S (length m))%nat.
Proof.
  induction m as [|[k' v'] m IH]; simpl; [lia|].
  destruct (k <? k'); simpl; [lia|].
  destruct (k =? k'); simpl; lia.
Qed.

Lemma tm_find_key (k t : Z) (m : tagmap) :
  tm_find k m = Some t -> exists e, e ∈ m /\ e.1 = k.
Proof.
  induction m as [|[k' v'] m IH]; simpl; [discriminate|].
  destruct (Z.eqb_spec k k') as [->|Hne].
  - intros _. exists (k', v'). split; [left|reflexivity].
  - intros Hf. destruct (IH Hf) as (e & He & Hk).
    exists e. split; [now right|exact Hk].
Qed.

Lemma tm_put_present (k v t : Z) (m : tagmap) :
  tm_sorted m -> tm_find k m = Some t ->
  length (tm_put k v m) = length m.
Proof.
  induction m as [|[k' v'] m IH]; simpl; [discriminate|].
  intros [Hall Hs].
  destruct (Z.eqb_spec k k') as [->|Hne].
  - intros _. now rewrite Z.ltb_irrefl.
  - intros Hf. destruct (tm_find_key _ _ _ Hf) as (e & He & Hk).
    rewrite Forall_forall in Hall. specialize (Hall e He).
    destruct (Z.ltb_spec k k'); [lia|]. simpl. now rewrite IH.
Qed.

Lemma tm_put_above (k0 k v : Z) (m : tagmap) :
  k0 < k -> Forall (fun e : Z * Z => k0 < e.1) m ->
  Forall (fun e : Z * Z => k0 < e.1) (tm_put k v m).
Proof.
  intros Hk. induction m as [|[k' v'] m IH]; simpl; intros Hall.
  - repeat constructor. exact Hk.
  - apply Forall_cons in Hall as [Hk' Hall].
    destruct (k <? k'); [repeat constructor; assumption|].
    destruct (k =? k'); constructor; auto.
Qed.

Lemma tm_put_sorted (k v : Z) (m : tagmap) :
  tm_sorted m -> tm_sorted (tm_put k v m).
Proof.
  induction m as [|[k' v'] m IH]; simpl.
  - intros _. split; [constructor|exact I].
  - intros [Hall Hs].
    destruct (Z.ltb_spec k k').
    + simpl. split; [|split; assumption].
      constructor; [exact H|].
      eapply Forall_impl; [exact Hall|]. simpl. intros e He. lia.
    + destruct (Z.eqb_spec k k') as [->|Hne]; simpl.
      * split; assumption.
      * split; [|now apply IH]. apply tm_put_above; [lia|exact Hall].
Qed.

Lemma tm_delete_sorted (i : nat) (m : tagmap) :
  tm_sorted m -> tm_sorted (delete i m).
Proof.
  revert i. induction m as [|[k v] m IH]; intros [|i]; simpl; auto.
  - now intros [_ Hs].
  - intros [Hall Hs]. split; [|now apply IH].
    now apply Forall_delete.
Qed.

(** ** The fully-associative object *)

Section FullyAssociative.

Context {H : Type}.
Implicit Types c : cache_sim_t H.
Context (next_access : H -> Z -> Z -> bool -> option H).
Context (Inv : H -> Prop).

Lemma handler_ok_ext c c' :
  miss_handler c' = miss_handler c -> handler_ok Inv c -> handler_ok Inv c'.
Proof. intros Heq Hh h Hc'. apply Hh. congruence. Qed.

(** The end of a miss, whatever the class of the object: the write-back
    and the fill return, and leave all but the write-back counter and the
    next level as they were. *)
Lemma miss_tail policy c2 victim addr store tr0 :
  serves next_access Inv -> handler_ok Inv c2 -> 0 <= addr < 2 ^ 64 ->
  exists mh tr,
    let c4 := set_miss_handler mh
                (set_writebacks (if valid_dirty victim
                                 then wrap64 (writebacks c2 + 1)
                                 else writebacks c2) c2) in
    handler_ok Inv c4 /\
    ('(c3, tr_wb) ← writeback next_access c2 victim;
     '(c4, tr_fill) ← fill next_access c3 addr;
     c5 ← mark_new_line policy c4 addr store;
     Some (c5, tr0 ++ tr_wb ++ tr_fill))
    = (c5 ← mark_new_line policy c4 addr store; Some (c5, tr)).
Proof.
  intros Hserv Hh Haddr. unfold writeback, fill.
  destruct (valid_dirty victim).
  - destruct (forward_spec next_access Inv c2 (dirty_addr c2 victim)
                (linesz c2) true Hserv Hh (dirty_addr_range c2 victim))
      as (mh1 & -> & _ & Hh3).
    cbn [mbind option_bind].
    set (c3 := set_writebacks (wrap64 (writebacks (set_miss_handler mh1 c2)
                                       + 1))
                 (set_miss_handler mh1 c2)).
    destruct (forward_spec next_access Inv c3
                (Z.land addr (not64 (wrap64 (linesz c3 - 1)))) (linesz c3)
                false Hserv)
      as (mh2 & -> & _ & Hh4);
      [exact (handler_ok_ext _ c3 eq_refl Hh3)
      |apply fill_addr_range; exact Haddr|].
    cbn [mbind option_bind].
    exists mh2. eexists. split; [exact Hh4|reflexivity].
  - cbn [mbind option_bind].
    destruct (forward_spec next_access Inv c2
                (Z.land addr (not64 (wrap64 (linesz c2 - 1)))) (linesz c2)
                false Hserv Hh)
      as (mh2 & -> & _ & Hh4); [apply fill_addr_range; exact Haddr|].
    cbn [mbind option_bind].
    exists mh2. eexists. split; [exact Hh4|reflexivity].
Qed.

Lemma fa_victimize_spec c m addr :
  tm_sorted m -> 0 < ways c -> Z.of_nat (length m) <= ways c ->
  exists g m1 old,
    fa_cache_sim_t_victimize m c addr
      = Some (set_fa_tags
                (Some (tm_put (Z.shiftr addr (idx_shift c))
                         (Z.lor (Z.shiftr addr (idx_shift c)) VALID) m1))
                (set_lfsr g c), old) /\
    tm_sorted m1 /\ Z.of_nat (length m1) < ways c.
Proof.
  intros Hs Hw Hlen. unfold fa_cache_sim_t_victimize, tagmap in *.
  destruct (Z.eqb_spec (Z.of_nat (length m)) (ways c)) as [Hfull|Hroom].
  - destruct (lfsr_next (lfsr c)) as [r g] eqn:Hnext.
    cbv beta iota zeta. cbn [ways set_lfsr].
    destruct (Z.eqb_spec (ways c) 0) as [H0|_]; [lia|].
    assert (Hpos : 0 <= r mod ways c < ways c)
      by (apply Z.mod_pos_bound; lia).
    destruct (lookup_lt_is_Some_2 m (Z.to_nat (r mod ways c))) as [e He];
      [lia|].
    rewrite He. cbn [mbind option_bind].
    exists g, (delete (Z.to_nat (r mod ways c)) m), e.2.
    split; [reflexivity|]. split; [now apply tm_delete_sorted|].
    rewrite length_delete by eauto. lia.
  - cbn [mbind option_bind].
    exists (lfsr c), m, 0. split; [destruct c; reflexivity|].
    split; [exact Hs|lia].
Qed.

(** X14.  Under the random policy the fully-associative object serves every
    access, leaves the line in its tag map, and never holds more lines than it
    has ways; it does not use the tag array. *)
Theorem fa_random_keeps_capacity c m addr bytes store :
  fa_tags c = Some m -> tm_sorted m ->
  0 < ways c -> Z.of_nat (length m) <= ways c ->
  0 <= addr < 2 ^ 64 ->
  serves next_access Inv -> handler_ok Inv c ->
  exists c' tr m' t,
    access next_access "R" c addr bytes store = Some (c', tr) /\
    fa_tags c' = Some m' /\ tm_sorted m' /\
    Z.of_nat (length m') <= ways c' /\
    (ways c' = ways c /\ idx_shift c' = idx_shift c /\ tags c' = tags c) /\
    handler_ok Inv c' /\
    tm_find (Z.shiftr addr (idx_shift c)) m' = Some t.
Proof.
  intros Hfa Hs Hw Hlen Haddr Hserv Hh.
  set (ca := count_access "R" c bytes store).
  assert (Hca : fa_tags ca = Some m /\ idx_shift ca = idx_shift c /\
                ways ca = ways c /\ tags ca = tags c /\
                miss_handler ca = miss_handler c).
  { unfold ca, count_access. destruct store; auto. }
  destruct Hca as (Hfaa & Hia & Hwa & Hta & Hma).
  unfold access. fold ca. unfold check_tag. rewrite Hfaa.
  unfold fa_cache_sim_t_check_tag. rewrite Hia.
  set (key := Z.shiftr addr (idx_shift c)).
  destruct (tm_find key m) as [v|] eqn:Hfind.
  - cbn [mbind option_bind]. destruct store.
    + unfold or_dirty. rewrite Hfaa. cbn [mbind option_bind].
      rewrite Hfind. cbn [mbind option_bind].
      eexists _, _, _, _. split; [reflexivity|].
      split; [reflexivity|]. split; [now apply tm_put_sorted|].
      split.
      { cbn [ways set_fa_tags]. rewrite Hwa.
        rewrite (tm_put_present _ _ _ _ Hs Hfind). exact Hlen. }
      split; [auto|]. split; [exact (handler_ok_ext _ _ Hma Hh)|].
      apply tm_find_put.
    + eexists _, _, _, _. split; [reflexivity|].
      split; [exact Hfaa|]. split; [exact Hs|].
      split; [rewrite Hwa; exact Hlen|].
      split; [auto|]. split; [exact (handler_ok_ext _ _ Hma Hh)|].
      exact Hfind.
  - cbn [mbind option_bind].
    set (c0 := count_miss ca store).
    assert (Hc0 : fa_tags c0 = Some m /\ idx_shift c0 = idx_shift c /\
                  ways c0 = ways c /\ tags c0 = tags c /\
                  miss_handler c0 = miss_handler c).
    { unfold c0, count_miss. destruct store; auto. }
    destruct Hc0 as (Hfa0 & Hi0 & Hw0 & Ht0 & Hm0).
    unfold select_victim. change (policy_is "R" "R") with true. cbv iota.
    unfold victimize. rewrite Hfa0.
    destruct (fa_victimize_spec c0 m addr Hs)
      as (g & m1 & old & -> & Hs1 & Hl1);
      [lia|lia|].
    rewrite Hi0, Hw0 in *. fold key. cbn [mbind option_bind].
    set (c2 := set_fa_tags (Some (tm_put key (Z.lor key VALID) m1))
                 (set_lfsr g c0)).
    destruct (miss_tail "R" c2 old addr store (miss_trace c0 addr store)
                Hserv) as (mh & tr & Hh4 & ->);
      [exact (handler_ok_ext _ c2 Hm0 Hh)|exact Haddr|].
    set (c4 := set_miss_handler mh
                 (set_writebacks (if valid_dirty old
                                  then wrap64 (writebacks c2 + 1)
                                  else writebacks c2) c2)) in *.
    assert (Hfa4 : fa_tags c4 = Some (tm_put key (Z.lor key VALID) m1))
      by reflexivity.
    assert (Hput : (length (tm_put key (Z.lor key VALID) m1)
                    <= S (length m1))%nat)
      by apply tm_put_length.
    unfold mark_new_line. destruct store.
    + unfold check_tag. rewrite Hfa4. unfold fa_cache_sim_t_check_tag.
      replace (idx_shift c4) with (idx_shift c) by (symmetry; exact Hi0).
      fold key. rewrite tm_find_put. cbn [mbind option_bind].
      unfold or_dirty. rewrite Hfa4. cbn [mbind option_bind].
      rewrite tm_find_put. cbn [mbind option_bind].
      eexists _, _, _, _. split; [reflexivity|].
      split; [reflexivity|].
      split; [now apply tm_put_sorted, tm_put_sorted|].
      split.
      { cbn [ways set_fa_tags].
        rewrite (tm_put_present _ _ _ _ (tm_put_sorted _ _ _ Hs1)
                   (tm_find_put _ _ _)).
        change (ways c4) with (ways c0). lia. }
      split; [auto|]. split; [exact (handler_ok_ext _ _ eq_refl Hh4)|].
      apply tm_find_put.
    + cbn [mbind option_bind].
      eexists _, _, _, _. split; [reflexivity|].
      split; [exact Hfa4|]. split; [now apply tm_put_sorted|].
      split; [change (ways c4) with (ways c0); lia|].
      split; [auto|]. split; [exact Hh4|].
      apply tm_find_put.
Qed.

End FullyAssociative.

Section FullyAssociativeStamps.

Context {H : Type}.
Implicit Types c : cache_sim_t H.
Context (next_access : H -> Z -> Z -> bool -> option H).
Context (Inv : H -> Prop).

(** LRU and FIFO work on the tag array of any object, whatever its class:
    they leave the tag map alone. *)
Lemma stamped_victim policy c addr :
  geometry c ->
  policy_is policy "L" || policy_is policy "F" = true ->
  exists k g n a f victim,
    length a = length (LRUTime c) /\ length f = length (FIFOTime c) /\
    select_victim policy c addr
      = Some (installed c k (line_tag c addr) g n a f, victim).
Proof.
  intros G Hpol. unfold select_victim.
  destruct (String.eqb_spec policy "L") as [->|HL].
  - change (policy_is "L" "R") with false.
    change (policy_is "L" "L") with true. cbv iota.
    destruct (LRU_spec c addr G) as (way & v & n & a & _ & _ & Ha & ->).
    eexists _, _, _, _, _, _. split; [exact Ha|]. split; reflexivity.
  - unfold policy_is in Hpol.
    destruct (String.eqb_spec policy "L"); [contradiction|].
    destruct (String.eqb_spec policy "F") as [->|]; [|discriminate].
    change (policy_is "F" "R") with false.
    change (policy_is "F" "L") with false.
    change (policy_is "F" "F") with true. cbv iota.
    destruct (FIFO_spec c addr G) as (way & v & f & _ & _ & Hf & ->).
    eexists _, _, _, _, _, _. split; [reflexivity|]. split; [exact Hf|].
    reflexivity.
Qed.

(** A load on a fully-associative object with an empty tag map, under LRU
    or FIFO: it misses, and the map stays empty. *)
Lemma fa_stamped_load policy c addr bytes :
  geometry c -> fa_tags c = Some [] ->
  policy_is policy "L" || policy_is policy "F" = true ->
  0 <= addr < 2 ^ 64 ->
  serves next_access Inv -> handler_ok Inv c ->
  exists c' tr,
    access next_access policy c addr bytes false = Some (c', tr) /\
    geometry c' /\ fa_tags c' = Some [] /\ handler_ok Inv c' /\
    read_misses c' = wrap64 (read_misses c + 1) /\
    write_misses c' = write_misses c.
Proof.
  intros G Hfa Hpol Haddr Hserv Hh.
  set (ca := count_access policy c bytes false).
  set (c0 := count_miss ca false).
  pose proof (counted_geometry policy c bytes false G) as G0.
  pose proof (counted_frame policy c bytes false) as F0. cbv zeta in F0.
  fold ca in G0, F0. fold c0 in G0, F0.
  destruct F0 as (Hfa0 & Hm0 & _).
  unfold access, check_tag.
  rewrite (count_access_fa policy c bytes false), Hfa.
  unfold fa_cache_sim_t_check_tag. cbn [tm_find mbind option_bind].
  fold ca. fold c0.
  destruct (stamped_victim policy c0 addr G0 Hpol)
    as (k & g & n & a & f & victim & Ha & Hf & ->).
  cbn [mbind option_bind].
  set (c2 := installed c0 k (line_tag c0 addr) g n a f).
  destruct (miss_tail next_access Inv policy c2 victim addr false
              (miss_trace c0 addr false) Hserv)
    as (mh & tr & Hh4 & ->);
    [exact (handler_ok_ext Inv c c2 Hm0 Hh)|exact Haddr|].
  unfold mark_new_line. cbn [mbind option_bind].
  eexists _, _. split; [reflexivity|].
  split.
  { apply (geometry_ext c2); try reflexivity.
    now apply installed_geometry. }
  split; [etransitivity; [|exact Hfa]; etransitivity; [|exact Hfa0];
          reflexivity|].
  split; [exact Hh4|].
  unfold c2, c0, ca, count_miss, count_access.
  destruct (policy_is policy "L"), (policy_is policy "F"); split; reflexivity.
Qed.

(** X15.  Under LRU and FIFO the fully-associative object never hits: its
    victim selection fills the tag array, and its lookup reads the tag map,
    which stays empty.  Every load of a trace misses, and a store has no line
    to mark. *)
Theorem fa_stamped_policies_never_hit policy refs : forall c,
  geometry c -> fa_tags c = Some [] ->
  policy_is policy "L" || policy_is policy "F" = true ->
  serves next_access Inv -> handler_ok Inv c ->
  Forall (fun ref : Z * Z * bool => 0 <= ref.1.1 < 2 ^ 64 /\ ref.2 = false)
    refs ->
  exists c' tr,
    run next_access policy c refs = Some (c', tr) /\
    fa_tags c' = Some [] /\
    hit_sequence next_access policy c refs
      = Some (map (fun _ => false) refs) /\
    wrap64 (read_misses c')
      = wrap64 (read_misses c + Z.of_nat (length refs)) /\
    forall addr bytes, access next_access policy c' addr bytes true = None.
Proof.
  induction refs as [|[[addr bytes] store] refs IH];
    intros c G Hfa Hpol Hserv Hh Hrefs.
  - exists c, []. simpl. split; [reflexivity|]. split; [exact Hfa|].
    split; [reflexivity|]. split; [now rewrite Z.add_0_r|].
    intros addr bytes. unfold access, check_tag.
    rewrite (count_access_fa policy c bytes true), Hfa.
    unfold fa_cache_sim_t_check_tag. cbn [tm_find mbind option_bind].
    destruct (select_victim policy _ addr) as [[c2 v]|] eqn:Hsel;
      cbn [mbind option_bind]; [|reflexivity].
    destruct (writeback next_access c2 v) as [[c3 t3]|] eqn:Hwb;
      cbn [mbind option_bind]; [|reflexivity].
    destruct (fill next_access c3 addr) as [[c4 t4]|] eqn:Hfill;
      cbn [mbind option_bind]; [|reflexivity].
    assert (Hfa4 : fa_tags c4 = Some []).
    { assert (Hfa3 : fa_tags c3 = fa_tags c2).
      { unfold writeback, forward in Hwb.
        destruct (valid_dirty v); [|congruence].
        destruct (miss_handler c2) as [h|]; cbn [mbind option_bind] in Hwb.
        - destruct (next_access h _ _ true); cbn [mbind option_bind] in Hwb;
            [|discriminate].
          injection Hwb as <- _. reflexivity.
        - injection Hwb as <- _. reflexivity. }
      assert (Hfa43 : fa_tags c4 = fa_tags c3).
      { unfold fill, forward in Hfill.
        destruct (miss_handler c3) as [h|].
        - destruct (next_access h _ _ false); cbn [mbind option_bind] in Hfill;
            [|discriminate].
          injection Hfill as <- _. reflexivity.
        - injection Hfill as <- _. reflexivity. }
      rewrite Hfa43, Hfa3.
      pose proof (counted_geometry policy c bytes true G) as G0.
      destruct (stamped_victim policy _ addr G0 Hpol)
        as (k & g & n & a & f & victim & _ & _ & Hsel').
      rewrite Hsel' in Hsel. injection Hsel as <- _.
      destruct (counted_frame policy c bytes true) as (Hx & _).
      etransitivity; [|exact Hfa]. etransitivity; [|exact Hx].
      reflexivity. }
    unfold mark_new_line, check_tag. rewrite Hfa4.
    unfold fa_cache_sim_t_check_tag. reflexivity.
  - apply Forall_cons in Hrefs as [[Haddr Hload] Hrefs].
    simpl in Haddr, Hload. subst store.
    destruct (fa_stamped_load policy c addr bytes G Hfa Hpol Haddr Hserv Hh)
      as (c1 & tr1 & Hacc & G1 & Hfa1 & Hh1 & Hrm & Hwm).
    destruct (IH c1 G1 Hfa1 Hpol Hserv Hh1 Hrefs)
      as (c' & tr & Hrun & Hfa' & Hseq & Hrm' & Hst).
    exists c', (tr1 ++ tr). simpl. rewrite Hacc. simpl. rewrite Hrun, Hseq.
    simpl. split; [reflexivity|]. split; [exact Hfa'|].
    split.
    { do 3 f_equal. apply Z.eqb_neq. unfold misses. rewrite Hrm, Hwm.
      apply wrap64_succ_ne. }
    split; [|exact Hst].
    rewrite Hrm', Hrm. rewrite wrap64_add_l. f_equal. lia.
Qed.

(** X16.  With a policy character that is none of R, L, F, a load that misses
    installs nothing: the miss is counted and the fill is forwarded, and the
    tag array, the stamps, the policy counters and the write-back counter are
    as they were. *)
Theorem unknown_policy_installs_nothing policy c addr bytes :
  geometry c -> fa_tags c = None ->
  policy_is policy "R" || policy_is policy "L" || policy_is policy "F"
    = false ->
  0 <= addr < 2 ^ 64 ->
  serves next_access Inv -> handler_ok Inv c ->
  check_tag policy (count_access policy c bytes false) addr
    = Some (count_access policy c bytes false, None) ->
  exists c' tr,
    access next_access policy c addr bytes false = Some (c', tr) /\
    tags c' = tags c /\ LRUTime c' = LRUTime c /\ FIFOTime c' = FIFOTime c /\
    LRUCount c' = LRUCount c /\ FIFOCount c' = FIFOCount c /\
    writebacks c' = writebacks c /\
    read_misses c' = wrap64 (read_misses c + 1) /\
    forwards tr =
      match miss_handler c with
      | Some _ =>
          [(Z.land addr (not64 (wrap64 (linesz c - 1))), linesz c, false)]
      | None => []
      end /\
    check_tag policy (count_access policy c' bytes false) addr
      = Some (count_access policy c' bytes false, None).
Proof.
  intros G Hfa Hpol Haddr Hserv Hh Hmiss.
  apply orb_false_iff in Hpol as [Hpol HF].
  apply orb_false_iff in Hpol as [HR HL].
  unfold access. rewrite Hmiss. cbn [mbind option_bind].
  unfold select_victim. rewrite HR, HL, HF. cbn [mbind option_bind].
  unfold writeback. change (valid_dirty 0) with false.
  cbn [mbind option_bind].
  set (c0 := count_miss (count_access policy c bytes false) false).
  assert (Hc0 : miss_handler c0 = miss_handler c /\ linesz c0 = linesz c).
  { unfold c0, count_miss, count_access. rewrite HL, HF. auto. }
  destruct Hc0 as [Hm0 Hl0].
  unfold fill.
  destruct (forward_spec next_access Inv c0
              (Z.land addr (not64 (wrap64 (linesz c0 - 1)))) (linesz c0)
              false Hserv)
    as (mh & -> & _ & Hh4);
    [exact (handler_ok_ext Inv c c0 Hm0 Hh)
    |apply fill_addr_range; exact Haddr|].
  cbn [mbind option_bind]. unfold mark_new_line. cbn [mbind option_bind].
  assert (Hf0 : tags c0 = tags c /\ LRUTime c0 = LRUTime c /\
                FIFOTime c0 = FIFOTime c /\ LRUCount c0 = LRUCount c /\
                FIFOCount c0 = FIFOCount c /\ writebacks c0 = writebacks c /\
                read_misses c0 = wrap64 (read_misses c + 1)).
  { unfold c0, count_miss, count_access. rewrite HL, HF.
    repeat split; reflexivity. }
  destruct Hf0 as (Ht & Hlt & Hft & Hlc & Hfc & Hwb & Hrm).
  eexists _, _. split; [reflexivity|].
  do 7 (split; [assumption|]).
  split.
  { rewrite forwards_miss_trace, app_nil_l. rewrite Hm0, Hl0.
    destruct (miss_handler c); reflexivity. }
  eapply check_tag_miss_ext; [| | | | | |exact Hmiss];
    unfold c0, count_miss, count_access; rewrite ?HL, ?HF;
    try reflexivity; exact Hfa.
Qed.

End FullyAssociativeStamps.

(** ** The configuration string *)

Lemma strchr_append (a b : string) (ch : ascii) :
  strchr a ch = None -> strchr (a ++ b) ch = strchr b ch.
Proof.
  induction a as [|x a IH]; simpl; [reflexivity|].
  destruct (Ascii.eqb x ch); [discriminate|exact IH].
Qed.

Lemma length_append (a b : string) :
  String.length (a ++ b) = (String.length a + String.length b)%nat.
Proof. induction a as [|x a IH]; simpl; [reflexivity|now rewrite IH]. Qed.

Lemma range_append (a b : string) : range (a ++ b) b = a.
Proof.
  unfold range. rewrite length_append.
  replace (String.length a + String.length b - String.length b)%nat
    with (String.length a) by lia.
  induction a as [|x a IH]; simpl.
  - now destruct b.
  - now rewrite IH.
Qed.

Lemma digit_of_digit_char (d : Z) :
  0 <= d <= 9 ->
  digit_of (digit_char d) = Some d /\ isspace (digit_char d) = false /\
  Ascii.eqb (digit_char d) ":" = false /\
  Ascii.eqb (digit_char d) "-" = false /\
  Ascii.eqb (digit_char d) "+" = false.
Proof.
  intros Hd.
  assert (Hc : d = 0 \/ d = 1 \/ d = 2 \/ d = 3 \/ d = 4 \/ d = 5 \/ d = 6
               \/ d = 7 \/ d = 8 \/ d = 9) by lia.
  repeat (destruct Hc as [->|Hc]; [repeat split; reflexivity|]).
  subst. repeat split; reflexivity.
Qed.

Lemma strchr_numeral (ds : list Z) :
  Forall (fun d => 0 <= d <= 9) ds -> strchr (numeral ds) ":" = None.
Proof.
  induction 1 as [|d ds Hd _ IH]; simpl; [reflexivity|].
  destruct (digit_of_digit_char d Hd) as (_ & _ & -> & _). exact IH.
Qed.

Lemma atoi_digits_numeral (ds : list Z) (rest : string) (acc : Z) :
  Forall (fun d => 0 <= d <= 9) ds ->
  atoi_digits (numeral ds ++ rest) acc
    = atoi_digits rest (fold_left (fun acc d => 10 * acc + d) ds acc).
Proof.
  intros Hds. revert acc. induction Hds as [|d ds Hd _ IH]; intros acc; simpl.
  - reflexivity.
  - destruct (digit_of_digit_char d Hd) as (-> & _). apply IH.
Qed.

Lemma numeral_value_range (ds : list Z) :
  Forall (fun d => 0 <= d <= 9) ds -> 0 <= numeral_value ds.
Proof.
  intros Hds. unfold numeral_value.
  assert (Hacc : forall acc, 0 <= acc ->
            0 <= fold_left (fun acc d => 10 * acc + d) ds acc).
  { induction Hds as [|d ds Hd _ IH]; intros acc Hacc; simpl; [exact Hacc|].
    apply IH. lia. }
  apply Hacc. lia.
Qed.

(** A field of digits, up to the separator or to the end of the string, is
    read as its value. *)
Lemma atoi_numeral (ds : list Z) (rest : string) :
  Forall (fun d => 0 <= d <= 9) ds -> numeral_value ds < 2 ^ 31 ->
  rest = EmptyString \/ (exists r, rest = String ":" r) ->
  atoi (numeral ds ++ rest) = Some (numeral_value ds).
Proof.
  intros Hds Hv Hrest.
  pose proof (numeral_value_range ds Hds) as Hnn.
  assert (Hstop : forall acc, atoi_digits rest acc = acc).
  { intros acc. destruct Hrest as [->|[r ->]]; reflexivity. }
  unfold atoi.
  destruct Hds as [|d ds Hd Hds].
  - simpl. destruct Hrest as [->|[r ->]]; reflexivity.
  - destruct (digit_of_digit_char d Hd) as (Hdig & Hsp & _ & Hm & Hp).
    cbn [numeral foldr append skip_spaces]. rewrite Hsp.
    assert (Hsign : match String (digit_char d) (numeral ds ++ rest) with
                    | String "-" s' => (true, s')
                    | String "+" s' => (false, s')
                    | _ => (false, String (digit_char d) (numeral ds ++ rest))
                    end
                    = (false, String (digit_char d) (numeral ds ++ rest))).
    { assert (Hc : d = 0 \/ d = 1 \/ d = 2 \/ d = 3 \/ d = 4 \/ d = 5
                   \/ d = 6 \/ d = 7 \/ d = 8 \/ d = 9) by lia.
      repeat (destruct Hc as [->|Hc]; [reflexivity|]).
      subst. reflexivity. }
    fold (numeral ds). rewrite Hsign.
    change (String (digit_char d) (numeral ds ++ rest))
      with (numeral (d :: ds) ++ rest)%string.
    rewrite atoi_digits_numeral by (constructor; assumption).
    rewrite Hstop. fold (numeral_value (d :: ds)).
    destruct (Z.leb_spec (- 2 ^ 31) (numeral_value (d :: ds))); [|lia].
    destruct (Z.ltb_spec (numeral_value (d :: ds)) (2 ^ 31)); [|lia].
    reflexivity.
Qed.

Lemma append_assoc (a b c : string) : ((a ++ b) ++ c = a ++ b ++ c)%string.
Proof. induction a as [|x a IH]; simpl; [reflexivity|now rewrite IH]. Qed.

Lemma append_empty (a : string) : (a ++ "")%string = a.
Proof. induction a as [|x a IH]; simpl; [reflexivity|now rewrite IH]. Qed.

Lemma strchr_field (a b : string) :
  strchr a ":" = None ->
  strchr (a ++ String ":" b) ":" = Some (String ":" b).
Proof. intros Ha. now rewrite strchr_append. Qed.

(** X17.  A configuration of three fields of digits and a fourth field: the
    fields are read as the numbers of sets and ways and the line size, and the
    first character of the fourth field, if there is one, becomes the policy. *)
Theorem construct_reads_the_fields {H : Type}
    gen policy (ss ws ls : list Z) (fourth name : string) :
  Forall (fun d => 0 <= d <= 9) ss -> Forall (fun d => 0 <= d <= 9) ws ->
  Forall (fun d => 0 <= d <= 9) ls ->
  numeral_value ss < 2 ^ 31 -> numeral_value ws < 2 ^ 31 ->
  numeral_value ls < 2 ^ 31 ->
  @construct H gen policy
    (numeral ss ++ ":" ++ numeral ws ++ ":" ++ numeral ls ++ ":" ++ fourth)
    name
  = Some (construct_parsed gen (numeral_value ss) (numeral_value ws)
            (numeral_value ls) name,
          match fourth with
          | String a _ => String a EmptyString
          | EmptyString => EmptyString
          end).
Proof.
  intros Hss Hws Hls Hs Hw Hl. unfold construct.
  cbn [append].
  rewrite (strchr_field (numeral ss)) by now apply strchr_numeral.
  cbn [next_char].
  rewrite (strchr_field (numeral ws)) by now apply strchr_numeral.
  cbn [next_char].
  rewrite (strchr_field (numeral ls)) by now apply strchr_numeral.
  cbn [mbind option_bind next_char].
  replace (numeral ss ++ String ":" (numeral ws ++ String ":"
             (numeral ls ++ String ":" fourth)))%string
    with ((numeral ss ++ ":") ++ (numeral ws ++ String ":"
             (numeral ls ++ String ":" fourth)))%string
    by (now rewrite append_assoc).
  rewrite range_append.
  replace (numeral ws ++ String ":" (numeral ls ++ String ":" fourth))%string
    with ((numeral ws ++ ":") ++ (numeral ls ++ String ":" fourth))%string
    by (now rewrite append_assoc).
  rewrite range_append. rewrite range_append.
  rewrite (atoi_numeral ss ":") by eauto.
  rewrite (atoi_numeral ws ":") by eauto.
  replace (atoi (numeral ls)) with (atoi (numeral ls ++ ""))
    by (now rewrite append_empty).
  rewrite (atoi_numeral ls "") by eauto.
  cbn [mbind option_bind].
  pose proof (numeral_value_range ss Hss).
  pose proof (numeral_value_range ws Hws).
  pose proof (numeral_value_range ls Hls).
  rewrite !wrap64_small by lia. reflexivity.
Qed.

(** X18.  A configuration with fewer than two separators is refused: the usage
    text is printed, the process exits with status 1, and the policy is not
    assigned. *)
Theorem short_configuration_prints_usage {H : Type}
    gen policy (a b name : string) :
  strchr a ":" = None -> strchr b ":" = None ->
  @construct H gen policy a name = Some (Exit help_text 1, policy) /\
  @construct H gen policy (a ++ ":" ++ b) name
    = Some (Exit help_text 1, policy).
Proof.
  intros Ha Hb. unfold construct. split.
  - now rewrite Ha.
  - cbn [append]. rewrite (strchr_field a) by exact Ha.
    cbn [next_char]. now rewrite Hb.
Qed.

(** X19.  The form [sets:ways:blocksize] of the usage text, with three fields
    and no fourth, is not served: the third separator is looked for, and the
    null pointer that the search returns is used as the end of the third field
    and read for the policy. *)
Theorem three_field_configuration_is_undefined {H : Type}
    gen policy (a b c name : string) :
  strchr a ":" = None -> strchr b ":" = None -> strchr c ":" = None ->
  @construct H gen policy (a ++ ":" ++ b ++ ":" ++ c) name = None.
Proof.
  intros Ha Hb Hc. unfold construct. cbn [append].
  rewrite (strchr_field a) by exact Ha. cbn [next_char].
  rewrite (strchr_field b) by exact Hb. cbn [next_char].
  now rewrite Hc.
Qed.

(** ** Lines are resident once *)

Lemma valid_bit_or_dirty (t : Z) :
  Z.testbit (Z.lor t DIRTY) 63 = Z.testbit t 63.
Proof.
  rewrite Z.lor_spec. unfold DIRTY.
  rewrite (Z.pow2_bits_eqb 62 63) by lia. simpl. apply orb_false_r.
Qed.

Lemma valid_bit_line_tag (x : Z) : Z.testbit (Z.lor x VALID) 63 = true.
Proof.
  rewrite Z.lor_spec. unfold VALID.
  rewrite (Z.pow2_bits_eqb 63 63) by lia. simpl. apply orb_true_r.
Qed.

Lemma valid_bit_clean (t : Z) :
  Z.testbit (Z.land t (not64 DIRTY)) 63 = Z.testbit t 63.
Proof.
  rewrite Z.land_spec, not64_testbit by lia. unfold DIRTY.
  rewrite (Z.pow2_bits_eqb 62 63) by lia. simpl. apply andb_true_r.
Qed.

Section Distinct.

Context {H : Type}.
Implicit Types c : cache_sim_t H.
Context (next_access : H -> Z -> Z -> bool -> option H).
Context (Inv : H -> Prop).

(** The one tag word that an access writes: the word of the line that was
    hit, or the word of a line that no way of the set held. *)
Lemma access_cells policy c addr bytes store :
  geometry c -> fa_tags c = None ->
  policy_is policy "R" || policy_is policy "L" || policy_is policy "F"
    = true ->
  0 <= addr < 2 ^ 64 ->
  serves next_access Inv -> handler_ok Inv c ->
  exists c' tr way old new,
    access next_access policy c addr bytes store = Some (c', tr) /\
    (geometry c' /\ fa_tags c' = None /\ handler_ok Inv c') /\
    (sets c' = sets c /\ ways c' = ways c) /\
    0 <= way < ways c /\
    rd (tags c) (slot c (set_index c addr) way) = Some old /\
    tags c' = <[Z.to_nat (slot c (set_index c addr) way) := new]> (tags c) /\
    Z.testbit new 63 = true /\
    (Z.land new (not64 DIRTY) = Z.land old (not64 DIRTY) /\
     Z.testbit old 63 = true \/
     forall j, 0 <= j < ways c ->
       exists t, rd (tags c) (slot c (set_index c addr) j) = Some t /\
                 Z.land new (not64 DIRTY) <> Z.land t (not64 DIRTY)).
Proof.
  intros G Hfa Hpol Haddr Hserv Hh.
  destruct (access_keeps next_access Inv policy c addr bytes store
              G Hfa Hpol Haddr Hserv Hh) as (c' & tr & Hacc & Hkeep).
  pose proof (line_tag_clean c addr G Haddr) as Hclean.
  destruct (access_outcome next_access Inv policy c addr bytes store
              G Hfa Hpol Haddr Hserv Hh) as [Hhit|Hmiss].
  - destruct Hhit as (j & t & Hj & Hrd & Htag & _ & Hacc').
    rewrite Hacc in Hacc'. injection Hacc' as -> ->.
    assert (Hv : Z.testbit t 63 = true).
    { rewrite <- valid_bit_clean, <- Htag. apply valid_bit_line_tag. }
    eexists _, _, j, t, (if store then Z.lor t DIRTY else t).
    split; [exact Hacc|]. split; [exact Hkeep|].
    split.
    { unfold stamp_hit, count_access.
      destruct store, (policy_is policy "L"), (policy_is policy "F");
        split; reflexivity. }
    split; [exact Hj|]. split; [exact Hrd|].
    split.
    { destruct store; [reflexivity|].
      rewrite list_insert_id by exact Hrd.
      unfold stamp_hit, count_access.
      destruct (policy_is policy "L"), (policy_is policy "F"); reflexivity. }
    split; [destruct store; [rewrite valid_bit_or_dirty|]; exact Hv|].
    left. split; [|exact Hv].
    destruct store; [apply clean_or_dirty|reflexivity].
  - destruct Hmiss as (way & victim & g & n & a & f & mh & tr' & Hmiss).
    cbv zeta in Hmiss.
    destruct Hmiss as (Hct & Hway & Hrd & _ & _ & _ & Hacc' & _).
    rewrite Hacc in Hacc'. injection Hacc' as -> ->.
    eexists _, _, way, victim,
      (if store then Z.lor (line_tag c addr) DIRTY else line_tag c addr).
    split; [exact Hacc|]. split; [exact Hkeep|].
    split.
    { unfold count_miss, count_access.
      destruct store, (policy_is policy "L"), (policy_is policy "F");
        split; reflexivity. }
    split; [exact Hway|]. split; [exact Hrd|]. split; [reflexivity|].
    split.
    { destruct store; [rewrite valid_bit_or_dirty|];
        apply valid_bit_line_tag. }
    right. intros j Hj.
    pose proof (counted_cells policy c bytes store) as Hcc. cbv zeta in Hcc.
    destruct Hcc as (Hsa & _ & Hta & _ & _ & Hwa & _).
    destruct (check_tag_miss_cells policy _ addr _
                (eq_trans (count_access_fa policy c bytes store) Hfa)
                Hct j) as (t & Ht & Hne); [rewrite Hwa; exact Hj|].
    rewrite Hsa, Hta in *.
    replace (tags (count_access policy c bytes store)) with (tags c) in Ht
      by (unfold count_access;
          destruct (policy_is policy "L"), (policy_is policy "F"), store;
          reflexivity).
    exists t. split; [exact Ht|].
    destruct store; [rewrite clean_or_dirty|]; rewrite Hclean; exact Hne.
Qed.

(** X20.  No trace of references brings a line into two ways of a set. *)
Theorem no_line_is_resident_twice policy refs : forall c,
  geometry c -> fa_tags c = None ->
  policy_is policy "R" || policy_is policy "L" || policy_is policy "F"
    = true ->
  serves next_access Inv -> handler_ok Inv c ->
  Forall (fun ref : Z * Z * bool => 0 <= ref.1.1 < 2 ^ 64) refs ->
  lines_distinct c ->
  exists c' tr,
    run next_access policy c refs = Some (c', tr) /\ lines_distinct c'.
Proof.
  induction refs as [|[[addr bytes] store] refs IH];
    intros c G Hfa Hpol Hserv Hh Hrefs Hd.
  - exists c, []. split; [reflexivity|exact Hd].
  - apply Forall_cons in Hrefs as [Haddr Hrefs]. simpl in Haddr.
    destruct (access_cells policy c addr bytes store
                G Hfa Hpol Haddr Hserv Hh)
      as (c1 & tr1 & way & old & new & Hacc & (G1 & Hfa1 & Hh1)
          & (Hs & Hw) & Hway & Hrd & Htags & Hv & Hcase).
    assert (Hd1 : lines_distinct c1).
    { pose proof (set_index_range c addr G) as Hidx0.
      destruct (slot_in_range c _ way G Hidx0 Hway) as [Hk Hkr].
      assert (Hlen : (Z.to_nat (slot c (set_index c addr) way)
                      < length (tags c))%nat) by (destruct G; lia).
      assert (Hcell : forall idx i, 0 <= idx < sets c -> 0 <= i < ways c ->
                rd (tags c1) (slot c idx i)
                = if (idx =? set_index c addr) && (i =? way)
                  then Some new else rd (tags c) (slot c idx i)).
      { intros idx i Hidx Hi. rewrite Htags. unfold rd.
        destruct (slot_in_range c idx i G Hidx Hi) as [Hki Hkir].
        destruct (Z.eqb_spec idx (set_index c addr)) as [->|Hne];
          [destruct (Z.eqb_spec i way) as [->|Hne]|]; cbn [andb].
        - now apply list_lookup_insert_eq.
        - apply list_lookup_insert_ne. lia.
        - apply list_lookup_insert_ne. rewrite Hk, Hki. nia. }
      intros idx i j t t' Hidx Hi Hj Hne.
      rewrite Hs in Hidx. rewrite Hw in Hi, Hj.
      replace (slot c1 idx i) with (slot c idx i)
        by (unfold slot; now rewrite Hw).
      replace (slot c1 idx j) with (slot c idx j)
        by (unfold slot; now rewrite Hw).
      rewrite (Hcell idx i Hidx Hi), (Hcell idx j Hidx Hj).
      destruct (Z.eqb_spec idx (set_index c addr)) as [->|Hnidx];
        cbn [andb]; [|apply Hd; assumption].
      destruct (Z.eqb_spec i way) as [->|Hni],
               (Z.eqb_spec j way) as [->|Hnj]; try contradiction.
      - intros [= <-] Ht' _.
        destruct Hcase as [[Hcl Hvo]|Hmiss].
        + rewrite Hcl.
          apply (Hd (set_index c addr) way j old t'); assumption.
        + destruct (Hmiss j Hj) as (t0 & Ht0 & Hn0). congruence.
      - intros Ht [= <-] Hvt.
        destruct Hcase as [[Hcl Hvo]|Hmiss].
        + rewrite Hcl.
          apply (Hd (set_index c addr) i way t old); assumption.
        + destruct (Hmiss i Hi) as (t0 & Ht0 & Hn0).
          rewrite Ht in Ht0. injection Ht0 as <-. congruence.
      - apply Hd; assumption. }
    destruct (IH c1 G1 Hfa1 Hpol Hserv Hh1 Hrefs Hd1)
      as (c' & tr & Hrun & Hd').
    exists c', (tr1 ++ tr). simpl. rewrite Hacc. simpl. rewrite Hrun.
    split; [reflexivity|exact Hd'].
Qed.

End Distinct.

(** ** A cache without ways *)

Lemma init_valid {H : Type} gen sets0 ways0 linesz0 name0 :
  0 <= sets0 < 2 ^ 64 -> 0 <= linesz0 < 2 ^ 64 ->
  valid_geometry sets0 linesz0 ->
  @init H gen sets0 ways0 linesz0 name0 =
    Built (mk_cache sets0 ways0 linesz0 (idx_shift_loop 64 linesz0 0) name0
             false gen
             (replicate (Z.to_nat (wrap64 (sets0 * ways0))) 0) 0 0
             (replicate (Z.to_nat (wrap64 (sets0 * ways0))) 0)
             (replicate (Z.to_nat (wrap64 (sets0 * ways0))) 0)
             0 0 0 0 0 0 0 None None).
Proof.
  intros Hs Hl (Hps & Hpl & H8).
  apply (power_of_two_test sets0 Hs) in Hps.
  apply (power_of_two_test linesz0 Hl) in Hpl.
  unfold init. rewrite Hps. apply orb_false_iff in Hpl as [_ ->].
  destruct (Z.ltb_spec linesz0 8); [lia|]. reflexivity.
Qed.

(** X21.  [init] does not check the number of ways.  With no ways the object is
    built, with empty arrays, and no access to it is defined: the random policy
    divides by the number of ways, and LRU and FIFO index the empty arrays. *)
Theorem zero_ways_is_accepted_and_unusable {H : Type}
    (next_access : H -> Z -> Z -> bool -> option H)
    gen sets0 linesz0 name0 policy addr bytes store :
  0 <= sets0 < 2 ^ 64 -> 0 <= linesz0 < 2 ^ 64 ->
  valid_geometry sets0 linesz0 ->
  policy_is policy "R" || policy_is policy "L" || policy_is policy "F"
    = true ->
  exists c,
    @init H gen sets0 0 linesz0 name0 = Built c /\
    ways c = 0 /\ tags c = [] /\ LRUTime c = [] /\ FIFOTime c = [] /\
    access next_access policy c addr bytes store = None.
Proof.
  intros Hs Hl Hgeo Hpol.
  rewrite (init_valid gen sets0 0 linesz0 name0 Hs Hl Hgeo).
  rewrite Z.mul_0_r. change (Z.to_nat (wrap64 0)) with 0%nat.
  cbn [replicate].
  eexists. split; [reflexivity|]. do 4 (split; [reflexivity|]).
  unfold policy_is in Hpol.
  destruct (String.eqb_spec policy "R") as [->|HR];
    [destruct store; reflexivity|].
  destruct (String.eqb_spec policy "L") as [->|HL];
    [destruct store; reflexivity|].
  destruct (String.eqb_spec policy "F") as [->|HF];
    [destruct store; reflexivity|discriminate].
Qed.

(** ** LRU keeps the line just used *)

Lemma wrap_int_small (x : Z) : - 2 ^ 31 <= x < 2 ^ 31 -> wrap_int x = x.
Proof. intros Hx. unfold wrap_int. rewrite Z.mod_small by lia. lia. Qed.

Section Recency.

Context {H : Type}.
Implicit Types c : cache_sim_t H.

Lemma oldest_ext c c' time idx n i way count :
  ways c' = ways c ->
  oldest c' time idx n i way count = oldest c time idx n i way count.
Proof.
  intros Hw. revert i way count.
  induction n as [|n IH]; intros i way count; simpl; [reflexivity|].
  unfold slot. rewrite Hw. fold (slot c idx i).
  destruct (rd time (slot c idx i)) as [t|]; simpl; [|reflexivity].
  destruct (t <? count); apply IH.
Qed.

Context (next_access : H -> Z -> Z -> bool -> option H).
Context (Inv : H -> Prop).

(** An access under LRU, with the way that a miss picks: the first empty
    way of the set, or else the way that the scan of the stamps returns. *)
Lemma lru_access_outcome c addr bytes store :
  geometry c -> fa_tags c = None -> 0 <= addr < 2 ^ 64 ->
  serves next_access Inv -> handler_ok Inv c ->
  let ca := count_access "L" c bytes store in
  let c0 := count_miss ca store in
  let idx := set_index c addr in
  (exists j t,
     let k := slot c idx j in
     0 <= j < ways c /\ rd (tags c) k = Some t /\
     line_tag c addr = Z.land t (not64 DIRTY) /\
     access next_access "L" c addr bytes store
       = Some (if store
               then set_tags (<[Z.to_nat k := Z.lor t DIRTY]> (tags c))
                      (stamp_hit "L" ca k)
               else stamp_hit "L" ca k, [])) \/
  (exists e way victim mh tr,
     let k := slot c idx way in
     let l0 := wrap_int (LRUCount c + 1) in
     let n := match e with
              | Some _ => wrap_int (wrap_int (l0 + 1) + 1)
              | None => wrap_int (l0 + 1)
              end in
     let a := match e with
              | Some _ =>
                  <[Z.to_nat k := wrap_int (l0 + 1)]>
                    (<[Z.to_nat k := l0]> (LRUTime c))
              | None => <[Z.to_nat k := l0]> (LRUTime c)
              end in
     first_empty c idx (Z.to_nat (ways c)) 0 = Some e /\
     match e with
     | Some i => way = i
     | None =>
         oldest c (LRUTime c) idx (Z.to_nat (ways c)) 0 0 2147483647
           = Some way
     end /\
     0 <= way < ways c /\ rd (tags c) k = Some victim /\
     access next_access "L" c addr bytes store =
       Some (set_tags
               (<[Z.to_nat k := if store then Z.lor (line_tag c addr) DIRTY
                                else line_tag c addr]> (tags c))
               (set_lfsr (lfsr c)
                  (set_LRUCount n
                     (set_LRUTime (if store then <[Z.to_nat k := n]> a else a)
                        (set_FIFOTime (FIFOTime c)
                           (set_miss_handler mh
                              (set_writebacks
                                 (if valid_dirty victim
                                  then wrap64 (writebacks c + 1)
                                  else writebacks c) c0)))))),
             tr)).
Proof.
  intros G Hfa Haddr Hserv Hh ca c0 idx. subst ca c0 idx.
  set (ca := count_access "L" c bytes store).
  set (c0 := count_miss ca store).
  set (idx := set_index c addr).
  pose proof (count_access_geometry "L" c bytes store G) as Ga.
  pose proof (counted_geometry "L" c bytes store G) as G0.
  pose proof (counted_cells "L" c bytes store) as Hcc. cbv zeta in Hcc.
  fold ca in Ga, G0, Hcc. fold c0 in G0, Hcc.
  destruct Hcc as (Hsa & Hs0 & Hta & Ht0 & Hi0 & Hwa & Hw0 & Htg0 & Hl0
                   & Hf0 & Hg0 & Hn0 & _).
  assert (Hna : LRUCount ca = wrap_int (LRUCount c + 1)).
  { unfold ca, count_access. now destruct store. }
  destruct (check_tag_total "L" ca addr Ga) as (c1 & r & Hct);
    [unfold ca; rewrite count_access_fa; exact Hfa|].
  destruct r as [p|].
  - left.
    destruct (hit_spec next_access "L" c addr bytes store c1 p Hfa Hct)
      as (j & t & Hspec). cbv zeta in Hspec.
    destruct Hspec as (Hj & -> & Hrd & Htag & _ & -> & Hacc).
    exists j, t. cbv zeta. fold ca in Hacc. auto.
  - right.
    pose proof (check_tag_miss_inv _ _ _ _ Hct) as ->.
    destruct (LRU_result c0 addr G0)
      as (e & way & v & He & Hway & Hwr & Hv & HL).
    rewrite Hi0 in He, Hway, Hv, HL. fold idx in He, Hway, Hv, HL.
    rewrite Hw0 in He, Hway, Hwr.
    rewrite (first_empty_ext c c0) in He by assumption.
    rewrite Hl0 in Hway, HL. rewrite (oldest_ext c c0) in Hway by assumption.
    rewrite Htg0 in Hv. rewrite Ht0, Hn0, Hna, Hg0, Hf0 in HL.
    assert (Hslot : forall i, slot c0 idx i = slot c idx i).
    { intros i. unfold slot. now rewrite Hw0. }
    rewrite !Hslot in Hv, HL.
    assert (Hsel : select_victim "L" c0 addr = LRU c0 addr) by reflexivity.
    rewrite HL in Hsel.
    destruct (miss_result next_access Inv "L" c addr bytes store way v
                _ _ _ _ G Hfa eq_refl Haddr Hserv Hh Hct Hwr Hsel)
      as (mh & tr & Hacc & _).
    exists e, way, v, mh, tr. cbv zeta.
    split; [exact He|]. split; [exact Hway|]. split; [exact Hwr|].
    split; [exact Hv|].
    rewrite Hacc. change (policy_is "L" "L") with true.
    rewrite andb_true_r. reflexivity.
Qed.

(** After an access under LRU the way of the line holds the greatest stamp
    of its set, while the LRU counter is away from the end of its range. *)
Lemma lru_access_stamps c addr bytes store :
  geometry c -> fa_tags c = None -> 0 <= addr < 2 ^ 64 ->
  serves next_access Inv -> handler_ok Inv c ->
  (forall j s, 0 <= j < ways c ->
     rd (LRUTime c) (slot c (set_index c addr) j) = Some s ->
     s <= LRUCount c) ->
  - 2 ^ 31 <= LRUCount c -> LRUCount c + 4 < 2 ^ 31 ->
  exists c1 tr way t sw,
    access next_access "L" c addr bytes store = Some (c1, tr) /\
    (geometry c1 /\ fa_tags c1 = None /\ handler_ok Inv c1) /\
    (sets c1 = sets c /\ ways c1 = ways c /\ idx_shift c1 = idx_shift c) /\
    0 <= way < ways c /\
    rd (tags c1) (slot c (set_index c addr) way) = Some t /\
    Z.land t (not64 DIRTY) = line_tag c addr /\
    rd (LRUTime c1) (slot c (set_index c addr) way) = Some sw /\
    (forall j s, 0 <= j < ways c -> j <> way ->
       rd (LRUTime c1) (slot c (set_index c addr) j) = Some s -> s < sw) /\
    sw <= LRUCount c + 3.
Proof.
  intros G Hfa Haddr Hserv Hh Hbound Hlo Hhi.
  destruct (access_keeps next_access Inv "L" c addr bytes store
              G Hfa eq_refl Haddr Hserv Hh) as (c1 & tr & Hacc & Hkeep).
  pose proof (set_index_range c addr G) as Hidx.
  pose proof (line_tag_clean c addr G Haddr) as Hclean.
  assert (Hcell : forall w, 0 <= w < ways c ->
            (Z.to_nat (slot c (set_index c addr) w) < length (tags c))%nat /\
            (Z.to_nat (slot c (set_index c addr) w)
             < length (LRUTime c))%nat).
  { intros w Hw. destruct (slot_in_range c _ w G Hidx Hw) as [-> ?].
    destruct G. lia. }
  assert (Hother : forall w j, 0 <= w < ways c -> 0 <= j < ways c -> j <> w ->
            Z.to_nat (slot c (set_index c addr) w)
            <> Z.to_nat (slot c (set_index c addr) j)).
  { intros w j Hw Hj Hne.
    destruct (slot_in_range c _ w G Hidx Hw) as [-> ?].
    destruct (slot_in_range c _ j G Hidx Hj) as [-> ?]. lia. }
  assert (Hl0 : wrap_int (LRUCount c + 1) = LRUCount c + 1)
    by (apply wrap_int_small; lia).
  assert (Hl1 : wrap_int (LRUCount c + 1 + 1) = LRUCount c + 2)
    by (rewrite wrap_int_small; lia).
  assert (Hl2 : wrap_int (LRUCount c + 2 + 1) = LRUCount c + 3)
    by (rewrite wrap_int_small; lia).
  destruct (lru_access_outcome c addr bytes store G Hfa Haddr Hserv Hh)
    as [Hhit|Hmiss].
  - destruct Hhit as (j & t & Hj & Hrd & Htag & Hacc').
    rewrite Hacc in Hacc'. injection Hacc' as -> ->.
    destruct (Hcell j Hj) as [Hkt Hkl].
    exists (if store
            then set_tags (<[Z.to_nat (slot c (set_index c addr) j)
                             := Z.lor t DIRTY]> (tags c))
                   (stamp_hit "L" (count_access "L" c bytes store)
                      (slot c (set_index c addr) j))
            else stamp_hit "L" (count_access "L" c bytes store)
                   (slot c (set_index c addr) j)), [], j,
      (if store then Z.lor t DIRTY else t), (LRUCount c + 1).
    split; [exact Hacc|]. split; [exact Hkeep|].
    split; [destruct store; repeat split; reflexivity|].
    split; [exact Hj|].
    split.
    { destruct store; [|exact Hrd].
      unfold rd. cbn [tags set_tags]. now apply list_lookup_insert_eq. }
    split; [destruct store; [rewrite clean_or_dirty|]; now symmetry|].
    assert (Hlt : LRUTime (if store
                           then set_tags (<[Z.to_nat (slot c (set_index c addr) j)
                                            := Z.lor t DIRTY]> (tags c))
                                  (stamp_hit "L"
                                     (count_access "L" c bytes store)
                                     (slot c (set_index c addr) j))
                           else stamp_hit "L"
                                  (count_access "L" c bytes store)
                                  (slot c (set_index c addr) j))
                  = <[Z.to_nat (slot c (set_index c addr) j)
                      := LRUCount c + 1]> (LRUTime c)).
    { rewrite <- Hl0. destruct store; reflexivity. }
    rewrite Hlt. unfold rd.
    split; [now apply list_lookup_insert_eq|].
    split; [|lia].
    intros i s Hi Hne. rewrite list_lookup_insert_ne by (now apply Hother).
    intros Hs. specialize (Hbound i s Hi Hs). lia.
  - destruct Hmiss as (e & way & victim & mh & tr' & Hmiss).
    cbv zeta in Hmiss.
    destruct Hmiss as (_ & _ & Hway & Hrd & Hacc').
    rewrite Hacc in Hacc'. injection Hacc' as -> ->.
    destruct (Hcell way Hway) as [Hkt Hkl].
    rewrite Hl0, Hl1, Hl2 in *.
    eexists _, _, way,
      (if store then Z.lor (line_tag c addr) DIRTY else line_tag c addr),
      (match e, store with
       | Some _, true => LRUCount c + 3
       | Some _, false => LRUCount c + 2
       | None, true => LRUCount c + 2
       | None, false => LRUCount c + 1
       end).
    split; [exact Hacc|]. split; [exact Hkeep|].
    split; [destruct store; repeat split; reflexivity|].
    split; [exact Hway|].
    split; [unfold rd; cbn [tags set_tags]; now apply list_lookup_insert_eq|].
    split; [destruct store; [rewrite clean_or_dirty|]; exact Hclean|].
    cbn [LRUTime set_tags set_lfsr set_LRUCount set_LRUTime].
    unfold rd. split; [|split].
    + destruct e, store;
        apply list_lookup_insert_eq; rewrite ?length_insert; exact Hkl.
    + intros i s Hi Hne Hs.
      assert (Hs' : LRUTime c !! Z.to_nat (slot c (set_index c addr) i)
                    = Some s).
      { destruct e, store;
          rewrite ?list_lookup_insert_ne in Hs by (now apply Hother);
          exact Hs. }
      specialize (Hbound i s Hi Hs'). destruct e, store; lia.
    + destruct e, store; lia.
Qed.

(** An access under LRU does not evict the line of a way whose stamp is
    the greatest of its set, in a cache of at least two ways. *)
Lemma lru_spares_greatest_stamp c addr bytes store idx way t sw :
  geometry c -> fa_tags c = None -> 0 <= addr < 2 ^ 64 ->
  serves next_access Inv -> handler_ok Inv c ->
  2 <= ways c -> 0 <= idx < sets c -> 0 <= way < ways c ->
  rd (tags c) (slot c idx way) = Some t -> Z.testbit t 63 = true ->
  rd (LRUTime c) (slot c idx way) = Some sw ->
  (forall j s, 0 <= j < ways c -> j <> way ->
     rd (LRUTime c) (slot c idx j) = Some s -> s < sw) ->
  sw < 2147483647 ->
  exists c2 tr t2,
    access next_access "L" c addr bytes store = Some (c2, tr) /\
    (geometry c2 /\ fa_tags c2 = None /\ handler_ok Inv c2) /\
    (sets c2 = sets c /\ ways c2 = ways c /\ idx_shift c2 = idx_shift c) /\
    rd (tags c2) (slot c idx way) = Some t2 /\
    Z.land t2 (not64 DIRTY) = Z.land t (not64 DIRTY).
Proof.
  intros G Hfa Haddr Hserv Hh Hways Hidx Hway Ht Hv Hsw Hgreat Hmax.
  destruct (access_keeps next_access Inv "L" c addr bytes store
              G Hfa eq_refl Haddr Hserv Hh) as (c2 & tr & Hacc & Hkeep).
  pose proof (set_index_range c addr G) as Hidx2.
  destruct (slot_in_range c idx way G Hidx Hway) as [Hk Hkr].
  assert (Hlen : (Z.to_nat (slot c idx way) < length (tags c))%nat)
    by (destruct G; lia).
  destruct (lru_access_outcome c addr bytes store G Hfa Haddr Hserv Hh)
    as [Hhit|Hmiss].
  - destruct Hhit as (j & tj & Hj & Hrd & Htag & Hacc').
    rewrite Hacc in Hacc'. injection Hacc' as -> ->.
    destruct (slot_in_range c _ j G Hidx2 Hj) as [Hk2 Hkr2].
    destruct (Z.eq_dec (slot c (set_index c addr) j) (slot c idx way))
      as [Heq|Hne].
    + rewrite Heq in *. rewrite Ht in Hrd. injection Hrd as <-.
      exists (if store
              then set_tags (<[Z.to_nat (slot c idx way)
                               := Z.lor t DIRTY]> (tags c))
                     (stamp_hit "L" (count_access "L" c bytes store)
                        (slot c idx way))
              else stamp_hit "L" (count_access "L" c bytes store)
                     (slot c idx way)), [],
        (if store then Z.lor t DIRTY else t).
      split; [exact Hacc|]. split; [exact Hkeep|].
      split; [destruct store; repeat split; reflexivity|].
      split.
      * destruct store; [|exact Ht].
        unfold rd. cbn [tags set_tags]. now apply list_lookup_insert_eq.
      * destruct store; [apply clean_or_dirty|reflexivity].
    + eexists _, _, t. split; [exact Hacc|]. split; [exact Hkeep|].
      split; [destruct store; repeat split; reflexivity|].
      split; [|reflexivity].
      destruct store; [|exact Ht].
      unfold rd. cbn [tags set_tags]. rewrite list_lookup_insert_ne by lia.
      exact Ht.
  - destruct Hmiss as (e & way2 & victim & mh & tr' & Hmiss).
    cbv zeta in Hmiss.
    destruct Hmiss as (He & Hpick & Hway2 & Hrd & Hacc').
    rewrite Hacc in Hacc'. injection Hacc' as -> ->.
    destruct (slot_in_range c _ way2 G Hidx2 Hway2) as [Hk2 Hkr2].
    assert (Hne : slot c (set_index c addr) way2 <> slot c idx way).
    { intros Heq.
      assert (Hsame : set_index c addr = idx /\ way2 = way).
      { rewrite Hk, Hk2 in Heq.
        assert (set_index c addr = idx); [|subst; split; [reflexivity|lia]].
        destruct (Z.lt_trichotomy (set_index c addr) idx) as [Hlt|[Hx|Hgt]];
          [|exact Hx|]; exfalso.
        - assert ((set_index c addr + 1) * ways c <= idx * ways c)
            by (apply Z.mul_le_mono_nonneg_r; lia). lia.
        - assert ((idx + 1) * ways c <= set_index c addr * ways c)
            by (apply Z.mul_le_mono_nonneg_r; lia). lia. }
      destruct Hsame as [Hi ->]. rewrite Hi in *.
      destruct e as [i|].
      - subst i. apply first_empty_first in He as (_ & H0 & _).
        rewrite Ht in H0. injection H0 as ->. discriminate Hv.
      - apply oldest_least in Hpick as (m & Hm & Hall).
        set (j := if way =? 0 then 1 else 0).
        assert (Hj : 0 <= j < ways c /\ j <> way).
        { unfold j. destruct (Z.eqb_spec way 0); lia. }
        destruct Hj as [Hj Hjw].
        destruct (slot_in_range c idx j G Hidx Hj) as [Hkj Hkjr].
        destruct (rd_in_range (LRUTime c) (slot c idx j)) as [sj Hsj];
          [destruct G; lia|].
        pose proof (Hgreat j sj Hj Hjw Hsj) as Hlt.
        pose proof (Hall j sj ltac:(lia) Hsj) as Hle.
        destruct Hm as [[_ ->]|(_ & Hrdm & _)]; [lia|].
        rewrite Hsw in Hrdm. injection Hrdm as <-. lia. }
    eexists _, _, t. split; [exact Hacc|]. split; [exact Hkeep|].
    split; [destruct store; repeat split; reflexivity|].
    split; [|reflexivity].
    unfold rd. cbn [tags set_tags]. rewrite list_lookup_insert_ne by lia.
    exact Ht.
Qed.

(** X22.  Under LRU, in a cache of at least two ways, a line survives the
    access that follows its own: accessed again after one access to any other
    address, it hits.  The stamps of its set are at most the LRU counter, as
    they are from the construction on, and the counter is away from the end of
    the range of [int]. *)
Theorem lru_keeps_the_line_just_used
    c addr bytes store addr2 bytes2 store2 bytes3 store3 :
  geometry c -> fa_tags c = None -> 2 <= ways c ->
  0 <= addr < 2 ^ 64 -> 0 <= addr2 < 2 ^ 64 ->
  serves next_access Inv -> handler_ok Inv c ->
  (forall j s, 0 <= j < ways c ->
     rd (LRUTime c) (slot c (set_index c addr) j) = Some s ->
     s <= LRUCount c) ->
  - 2 ^ 31 <= LRUCount c -> LRUCount c + 4 < 2 ^ 31 ->
  exists c1 tr1 c2 tr2 c3,
    access next_access "L" c addr bytes store = Some (c1, tr1) /\
    access next_access "L" c1 addr2 bytes2 store2 = Some (c2, tr2) /\
    access next_access "L" c2 addr bytes3 store3 = Some (c3, []) /\
    read_misses c3 = read_misses c2 /\ write_misses c3 = write_misses c2.
Proof.
  intros G Hfa Hways Haddr Haddr2 Hserv Hh Hbound Hlo Hhi.
  destruct (lru_access_stamps c addr bytes store
              G Hfa Haddr Hserv Hh Hbound Hlo Hhi)
    as (c1 & tr1 & way & t & sw & Hacc1 & (G1 & Hfa1 & Hh1)
        & (Hs1 & Hw1 & Hi1) & Hway & Ht & Htag & Hsw & Hgreat & Hmax).
  pose proof (set_index_range c addr G) as Hidx.
  assert (Hslot1 : forall i, slot c1 (set_index c addr) i
                             = slot c (set_index c addr) i).
  { intros i. unfold slot. now rewrite Hw1. }
  assert (Hv : Z.testbit t 63 = true).
  { rewrite <- valid_bit_clean, Htag. apply valid_bit_line_tag. }
  destruct (lru_spares_greatest_stamp c1 addr2 bytes2 store2
              (set_index c addr) way t sw G1 Hfa1 Haddr2 Hserv Hh1)
    as (c2 & tr2 & t2 & Hacc2 & (G2 & Hfa2 & Hh2) & (Hs2 & Hw2 & Hi2)
        & Ht2 & Hcl2);
    try (rewrite ?Hs1, ?Hw1, ?Hslot1; assumption); [| |].
  { rewrite Hw1. intros j s Hj Hne. rewrite Hslot1. now apply Hgreat. }
  { lia. }
  rewrite Hslot1 in Ht2.
  set (ca := count_access "L" c2 bytes3 store3).
  pose proof (count_access_geometry "L" c2 bytes3 store3 G2) as Ga.
  pose proof (count_access_fa "L" c2 bytes3 store3) as Hfaa.
  pose proof (counted_cells "L" c2 bytes3 store3) as Hcc.
  cbv zeta in Hcc. fold ca in Ga, Hfaa, Hcc.
  destruct Hcc as (Hsa & _ & Hta & _ & _ & Hwa & _).
  assert (Hslot2 : slot c2 (set_index c2 addr) way
                   = slot c (set_index c addr) way).
  { unfold slot, set_index. now rewrite Hs2, Hw2, Hi2, Hs1, Hw1, Hi1. }
  assert (Hlt2 : line_tag c2 addr = line_tag c addr).
  { unfold line_tag. now rewrite Hi2, Hi1. }
  destruct (check_tag_found "L" ca addr way t2 Ga) as (cx & p & Hct).
  - congruence.
  - rewrite Hwa, Hw2, Hw1. exact Hway.
  - rewrite Hsa, Hslot2.
    replace (tags ca) with (tags c2); [exact Ht2|].
    unfold ca, count_access. destruct store3; reflexivity.
  - rewrite Hta, Hlt2, Hcl2. now symmetry.
  - destruct (hit_spec next_access "L" c2 addr bytes3 store3 cx p Hfa2 Hct)
      as (j & t3 & Hspec). cbv zeta in Hspec.
    destruct Hspec as (_ & _ & _ & _ & _ & -> & Hacc3).
    eexists c1, tr1, c2, tr2, _.
    split; [exact Hacc1|]. split; [exact Hacc2|]. split; [exact Hacc3|].
    unfold stamp_hit, count_access. destruct store3; split; reflexivity.
Qed.

End Recency.

(** ** The generator *)

Section Draws.

Context {H : Type}.
Implicit Types c : cache_sim_t H.
Context (next_access : H -> Z -> Z -> bool -> option H).
Context (Inv : H -> Prop).

(** X23.  The generator is drawn from once at every miss under the random
    policy, and never otherwise: not at a hit, and not under LRU or FIFO. *)
Theorem generator_draws_once_per_random_miss policy c addr bytes store :
  geometry c -> fa_tags c = None ->
  policy_is policy "R" || policy_is policy "L" || policy_is policy "F"
    = true ->
  0 <= addr < 2 ^ 64 ->
  serves next_access Inv -> handler_ok Inv c ->
  exists c' tr c1 r,
    access next_access policy c addr bytes store = Some (c', tr) /\
    check_tag policy (count_access policy c bytes store) addr
      = Some (c1, r) /\
    draws (lfsr c') = draws (lfsr c) /\
    drawn (lfsr c') =
      match r with
      | Some _ => drawn (lfsr c)
      | None => if policy_is policy "R" then S (drawn (lfsr c))
                else drawn (lfsr c)
      end.
Proof.
  intros G Hfa Hpol Haddr Hserv Hh.
  set (ca := count_access policy c bytes store).
  set (c0 := count_miss ca store).
  pose proof (counted_geometry policy c bytes store G) as G0.
  pose proof (counted_cells policy c bytes store) as Hcc. cbv zeta in Hcc.
  fold ca in Hcc, G0. fold c0 in Hcc, G0.
  destruct Hcc as (_ & _ & _ & _ & _ & _ & _ & _ & _ & _ & Hg0 & _).
  assert (Hfa0 : fa_tags c0 = None).
  { unfold c0, ca.
    now destruct (counted_frame policy c bytes store) as (-> & _). }
  destruct (access_outcome next_access Inv policy c addr bytes store
              G Hfa Hpol Haddr Hserv Hh) as [Hhit|Hmiss].
  - destruct Hhit as (j & t & _ & _ & _ & Hct & Hacc).
    eexists _, _, _, _. split; [exact Hacc|]. split; [exact Hct|].
    unfold stamp_hit, count_access.
    destruct store, (policy_is policy "L"), (policy_is policy "F");
      split; reflexivity.
  - destruct Hmiss as (way & victim & g & n & a & f & mh & tr & Hmiss).
    cbv zeta in Hmiss.
    destruct Hmiss as (Hct & _ & _ & _ & _ & Hsel & Hacc & _).
    fold ca in Hct, Hsel, Hacc. fold c0 in Hsel, Hacc.
    eexists _, _, _, _. split; [exact Hacc|]. split; [exact Hct|].
    cbn [lfsr set_tags set_lfsr].
    unfold select_victim, victimize in Hsel. rewrite Hfa0 in Hsel.
    destruct (policy_is policy "R").
    + destruct (victimize_spec c0 addr G0) as (v & _ & _ & Hv).
      rewrite Hv in Hsel.
      match type of Hsel with
      | Some (?A, _) = Some (?B, _) =>
          assert (Heq : A = B) by congruence
      end.
      apply installed_inj in Heq as (<- & _). rewrite Hg0.
      split; reflexivity.
    + destruct (policy_is policy "L").
      * destruct (LRU_result c0 addr G0) as (e & w & v & _ & _ & _ & _ & HL).
        rewrite HL in Hsel.
        match type of Hsel with
        | Some (?A, _) = Some (?B, _) =>
            assert (Heq : A = B) by congruence
        end.
        apply installed_inj in Heq as (<- & _). rewrite Hg0.
        split; reflexivity.
      * destruct (policy_is policy "F"); [|discriminate].
        destruct (FIFO_result c0 addr G0)
          as (e & w & v & _ & _ & _ & _ & HF).
        rewrite HF in Hsel.
        match type of Hsel with
        | Some (?A, _) = Some (?B, _) =>
            assert (Heq : A = B) by congruence
        end.
        apply installed_inj in Heq as (<- & _). rewrite Hg0.
        split; reflexivity.
Qed.

End Draws.

(** ** A cache that has just been built *)

(** X24.  A cache that has just been built holds no line: its first access
    misses, whatever the address, evicts nothing and forwards nothing. *)
Theorem first_access_misses {H : Type}
    (next_access : H -> Z -> Z -> bool -> option H)
    gen sets0 ways0 linesz0 name0 (c : cache_sim_t H)
    policy addr bytes store :
  init gen sets0 ways0 linesz0 name0 = Built c ->
  0 <= sets0 -> 0 <= linesz0 < 2 ^ 64 ->
  0 < ways0 -> sets0 * ways0 < 2 ^ 64 ->
  policy_is policy "R" || policy_is policy "L" || policy_is policy "F"
    = true ->
  0 <= addr < 2 ^ 64 ->
  exists c' tr,
    access next_access policy c addr bytes store = Some (c', tr) /\
    read_misses c' = (if store then 0 else 1) /\
    write_misses c' = (if store then 1 else 0) /\
    writebacks c' = 0 /\ forwards tr = [] /\
    dirty_lines (tags c') = Z.b2z store.
Proof.
  intros Hinit Hs Hl Hw Hcells Hpol Haddr.
  pose proof (init_geometry _ _ _ _ _ _ Hinit Hs Hl Hw Hcells) as G.
  apply init_built in Hinit as (Hc & _).
  assert (Hfa : fa_tags c = None) by (subst c; reflexivity).
  assert (Hmh : miss_handler c = None) by (subst c; reflexivity).
  assert (Hzero : Forall (fun t => t = 0) (tags c)).
  { subst c. cbn [tags]. apply Forall_replicate. reflexivity. }
  assert (Hcnt : read_misses c = 0 /\ write_misses c = 0 /\ writebacks c = 0)
    by (subst c; auto).
  destruct Hcnt as (Hrm0 & Hwm0 & Hwb0).
  assert (Hserv : serves next_access (fun _ => False))
    by (intros h a b s []).
  assert (Hh : handler_ok (fun _ : H => False) c)
    by (intros h Hx; congruence).
  destruct (access_accounts next_access (fun _ => False) policy c addr bytes
              store G Hfa Hpol Haddr Hserv Hh)
    as (c' & tr & way & old & miss & Hacc & _ & (Hway & Hrd & Hhit & Htags)
        & _ & (Hrm & Hwm & Hwb) & Htr & _).
  cbv zeta in Htags.
  assert (Hold : old = 0).
  { unfold rd in Hrd. exact (Forall_lookup_1 _ _ _ _ Hzero Hrd). }
  subst old.
  assert (Hx : 0 <= Z.shiftr addr (idx_shift c) < 2 ^ 61).
  { apply line_address_range; [exact Haddr|destruct G; lia]. }
  assert (Hm : miss = true).
  { destruct miss; [reflexivity|]. specialize (Hhit eq_refl).
    rewrite Z.land_0_l in Hhit.
    pose proof (tag_word_valid _ (proj1 Hx)) as Hv.
    unfold line_tag in Hhit. rewrite <- Hhit in Hv. lia. }
  subst miss. exists c', tr. split; [exact Hacc|].
  rewrite Hrm, Hwm, Hwb, Hrm0, Hwm0, Hwb0, Htr, Hmh.
  change (valid_dirty 0) with false.
  split; [now destruct store|]. split; [now destruct store|].
  split; [reflexivity|]. split; [reflexivity|].
  rewrite Htags, (dirty_lines_insert _ _ 0 _ Hrd).
  assert (Hd0 : dirty_lines (tags c) = 0).
  { subst c. cbn [tags]. apply dirty_lines_replicate. }
  rewrite Hd0. change (valid_dirty 0) with false.
  destruct store.
  - rewrite (clean_valid_dirty _ (Z.shiftr addr (idx_shift c)));
      [reflexivity|].
    now apply line_tag_clean.
  - unfold line_tag. rewrite (line_tag_not_dirty _ Hx). reflexivity.
Qed.

(** ** FIFO does not see hits *)

Section Arrival.

Context {H : Type}.
Implicit Types c : cache_sim_t H.

Lemma first_empty_same_zeros c c' idx n i :
  ways c' = ways c ->
  (forall k, match rd (tags c) k, rd (tags c') k with
             | Some t, Some t' => (t' =? 0) = (t =? 0)
             | None, None => True
             | _, _ => False
             end) ->
  first_empty c' idx n i = first_empty c idx n i.
Proof.
  intros Hw Hz. revert i. induction n as [|n IH]; intros i; simpl.
  - reflexivity.
  - replace (slot c' idx i) with (slot c idx i)
      by (unfold slot; now rewrite Hw).
    specialize (Hz (slot c idx i)).
    destruct (rd (tags c) (slot c idx i)) as [t|],
             (rd (tags c') (slot c idx i)) as [t'|];
      simpl; try contradiction; [|reflexivity].
    rewrite Hz. destruct (t =? 0); [reflexivity|apply IH].
Qed.

Context (next_access : H -> Z -> Z -> bool -> option H).
Context (Inv : H -> Prop).

(** X25.  Under FIFO a hit does not change which way the next miss replaces, in
    any set: the way that [FIFO] picks for an address after the hit is the one
    it picks before, with the same line in it. *)
Theorem fifo_ignores_hits c addr bytes store c1 p addr2 :
  geometry c -> fa_tags c = None ->
  0 <= addr < 2 ^ 64 ->
  serves next_access Inv -> handler_ok Inv c ->
  check_tag "F" (count_access "F" c bytes store) addr = Some (c1, Some p) ->
  exists c' way x v x' v',
    access next_access "F" c addr bytes store = Some (c', []) /\
    0 <= way < ways c /\
    FIFO c addr2 = Some (x, v) /\
    rd (tags c) (slot c (set_index c addr2) way) = Some v /\
    tags x = <[Z.to_nat (slot c (set_index c addr2) way)
               := line_tag c addr2]> (tags c) /\
    FIFO c' addr2 = Some (x', v') /\
    rd (tags c') (slot c (set_index c addr2) way) = Some v' /\
    tags x' = <[Z.to_nat (slot c (set_index c addr2) way)
                := line_tag c addr2]> (tags c') /\
    Z.land v' (not64 DIRTY) = Z.land v (not64 DIRTY).
Proof.
  intros G Hfa Haddr Hserv Hh Hct.
  destruct (access_keeps next_access Inv "F" c addr bytes store
              G Hfa eq_refl Haddr Hserv Hh) as (c' & tr & Hacc & G' & _).
  destruct (hit_spec next_access "F" c addr bytes store c1 p Hfa Hct)
    as (j & t & Hspec). cbv zeta in Hspec.
  destruct Hspec as (Hj & _ & Hrd & Htag & _ & -> & Hacc').
  rewrite Hacc in Hacc'. injection Hacc' as Hc' ->.
  set (k := slot c (set_index c addr) j) in *.
  assert (Hf : sets c' = sets c /\ ways c' = ways c /\
               idx_shift c' = idx_shift c /\ FIFOTime c' = FIFOTime c /\
               tags c' = if store then <[Z.to_nat k := Z.lor t DIRTY]> (tags c)
                         else tags c).
  { rewrite Hc'. unfold stamp_hit, count_access.
    destruct store; repeat split; reflexivity. }
  destruct Hf as (Hs & Hw & Hi & Hft & Htg).
  assert (Hv : Z.testbit t 63 = true).
  { rewrite <- valid_bit_clean, <- Htag. apply valid_bit_line_tag. }
  assert (Ht0 : (t =? 0) = false).
  { apply Z.eqb_neq. intros ->. discriminate Hv. }
  assert (Htd0 : (Z.lor t DIRTY =? 0) = false).
  { apply Z.eqb_neq. intros H0.
    assert (Hb : Z.testbit (Z.lor t DIRTY) 63 = true)
      by (rewrite valid_bit_or_dirty; exact Hv).
    rewrite H0 in Hb. discriminate Hb. }
  pose proof (set_index_range c addr G) as Hidx.
  destruct (slot_in_range c _ j G Hidx Hj) as [Hk Hkr]. fold k in Hk.
  assert (Hlen : (Z.to_nat k < length (tags c))%nat) by (destruct G; lia).
  assert (Hcells : forall q,
            match rd (tags c) q, rd (tags c') q with
            | Some u, Some u' =>
                (u' =? 0) = (u =? 0) /\
                Z.land u' (not64 DIRTY) = Z.land u (not64 DIRTY)
            | None, None => True
            | _, _ => False
            end).
  { intros q. rewrite Htg. unfold rd. destruct store.
    - destruct (Nat.eq_dec (Z.to_nat k) (Z.to_nat q)) as [Heq|Hne].
      + rewrite <- Heq. rewrite list_lookup_insert_eq by exact Hlen.
        unfold rd in Hrd. rewrite Hrd. split; [congruence|].
        apply clean_or_dirty.
      + rewrite list_lookup_insert_ne by exact Hne.
        destruct (tags c !! Z.to_nat q); auto.
    - destruct (tags c !! Z.to_nat q); auto. }
  assert (Hfe : forall idx n i,
            first_empty c' idx n i = first_empty c idx n i).
  { intros idx n i. apply first_empty_same_zeros; [exact Hw|].
    intros q. specialize (Hcells q).
    destruct (rd (tags c) q), (rd (tags c') q); try tauto. }
  destruct (FIFO_result c addr2 G)
    as (e & way & v & He & Hpick & Hway & Hrv & HF).
  destruct (FIFO_result c' addr2 G')
    as (e' & way' & v' & He' & Hpick' & Hway' & Hrv' & HF').
  assert (Hidx2 : set_index c' addr2 = set_index c addr2).
  { unfold set_index. now rewrite Hs, Hi. }
  assert (Hslot : forall i, slot c' (set_index c addr2) i
                            = slot c (set_index c addr2) i).
  { intros i. unfold slot. now rewrite Hw. }
  assert (Hlt : line_tag c' addr2 = line_tag c addr2).
  { unfold line_tag. now rewrite Hi. }
  rewrite Hidx2 in He', Hpick', HF', Hrv'. rewrite Hw in He', Hpick', Hway'.
  rewrite Hlt, !Hslot in HF'. rewrite Hslot in Hrv'.
  rewrite Hfe, He in He'. injection He' as <-.
  assert (way' = way).
  { destruct e; [congruence|].
    rewrite Hft, (oldest_ext c c') in Hpick' by exact Hw. congruence. }
  subst way'.
  eexists c', way, _, v, _, v'.
  split; [exact Hacc|]. split; [exact Hway|]. split; [exact HF|].
  split; [exact Hrv|]. split; [reflexivity|]. split; [exact HF'|].
  split; [exact Hrv'|]. split; [reflexivity|].
  specialize (Hcells (slot c (set_index c addr2) way)).
  rewrite Hrv, Hrv' in Hcells. tauto.
Qed.

End Arrival.

(** ** The further properties at work on concrete caches *)

Lemma empty_lines_distinct {H : Type} (c : cache_sim_t H) :
  Forall (fun t => t = 0) (tags c) -> lines_distinct c.
Proof.
  intros Hall idx i j t t' _ _ _ _ Ht _ Hv.
  unfold rd in Ht. rewrite (Forall_lookup_1 _ _ _ _ Hall Ht) in Hv.
  discriminate.
Qed.

Lemma last_level_serves : serves last_level (fun _ : unit => False).
Proof. intros h a b s []. Qed.

Lemma last_level_ok (c : cache_sim_t unit) :
  miss_handler c = None -> handler_ok (fun _ : unit => False) c.
Proof. intros Hc h Hh. congruence. Qed.

Lemma recorder_serves : serves recorder (fun _ => True).
Proof. intros h a b s _ _. eexists. split; [reflexivity|exact I]. Qed.

Lemma recorder_ok (c : cache_sim_t (list (Z * Z * bool))) :
  handler_ok (fun _ => True) c.
Proof. intros h _. exact I. Qed.

(** The references of a trace are 64-bit addresses. *)
Ltac trace_facts :=
  repeat (constructor;
          [simpl; first [lia | split; [lia|reflexivity]]|]);
  constructor.

Lemma run_in_bounds_witness :
  exists c' tr,
    run last_level "L" fresh_two_ways (reads [0; 8; 16]) = Some (c', tr) /\
    geometry c' /\ fa_tags c' = None /\
    handler_ok (fun _ : unit => False) c' /\
    sets c' = 1 /\ ways c' = 2 /\ linesz c' = 8 /\ idx_shift c' = 3 /\
    length (tags c') = 2%nat.
Proof.
  apply (run_in_bounds last_level (fun _ => False) "L" (reads [0; 8; 16])
           fresh_two_ways);
    [apply geometry_okP; reflexivity|reflexivity|reflexivity
    |exact last_level_serves|now apply last_level_ok|trace_facts].
Defined.

Lemma accessed_line_is_resident_witness :
  exists c' tr c'',
    access last_level "F" fresh_two_ways 0 1 false = Some (c', tr) /\
    access last_level "F" c' 7 1 true = Some (c'', []) /\
    read_misses c'' = read_misses c' /\ write_misses c'' = write_misses c' /\
    writebacks c'' = writebacks c' /\ miss_handler c'' = miss_handler c'.
Proof.
  apply (accessed_line_is_resident last_level (fun _ => False) "F"
           fresh_two_ways 0 1 false 7 1 true);
    [apply geometry_okP; reflexivity|reflexivity|reflexivity|lia|lia
    |reflexivity|exact last_level_serves|now apply last_level_ok].
Defined.

Lemma resident_word_decodes_to_line_address_witness :
  exists c' tr way t,
    access last_level "R" fresh_two_ways 29 1 true = Some (c', tr) /\
    0 <= way < ways c' /\
    rd (tags c') (slot c' (set_index c' 29) way) = Some t /\
    dirty_addr c' t = Z.land 29 (not64 (wrap64 (linesz c' - 1))) /\
    (true = true -> valid_dirty t = true).
Proof.
  apply (resident_word_decodes_to_line_address last_level (fun _ => False)
           "R" fresh_two_ways 29 1 true);
    [apply geometry_okP; reflexivity|reflexivity|reflexivity|lia
    |exact last_level_serves|now apply last_level_ok].
Defined.

Lemma access_changes_one_way_witness :
  exists c' tr way,
    access last_level "L" warm_two_ways 8 1 false = Some (c', tr) /\
    0 <= way < 2 /\
    length (tags c') = 2%nat /\
    (forall i, 0 <= i < 2 -> i <> way ->
       rd (tags c') (slot warm_two_ways (set_index warm_two_ways 8) i)
         = rd (tags warm_two_ways)
             (slot warm_two_ways (set_index warm_two_ways 8) i)) /\
    (forall idx i, 0 <= idx < 1 -> idx <> set_index warm_two_ways 8 ->
       0 <= i < 2 ->
       rd (tags c') (slot warm_two_ways idx i)
         = rd (tags warm_two_ways) (slot warm_two_ways idx i)).
Proof.
  apply (access_changes_one_way last_level (fun _ => False) "L"
           warm_two_ways 8 1 false);
    [apply geometry_okP; reflexivity|reflexivity|reflexivity|lia
    |exact last_level_serves|now apply last_level_ok].
Defined.

Lemma empty_way_is_filled_first_witness :
  (exists c',
     LRU (half_full_set (H := unit) (constant_draws 0)) 16 = Some (c', 0) /\
     tags c' = [Z.lor 2 VALID; Z.lor 5 VALID] /\
     LRUCount c' = 2 /\ rd (LRUTime c') 0 = Some 1 /\
     valid_dirty 0 = false) /\
  (exists c',
     FIFO (half_full_set (H := unit) (constant_draws 0)) 16 = Some (c', 0) /\
     tags c' = [Z.lor 2 VALID; Z.lor 5 VALID] /\
     FIFOCount c' = 0 /\ rd (FIFOTime c') 0 = Some 0).
Proof.
  apply (empty_way_is_filled_first
           (half_full_set (H := unit) (constant_draws 0)) 16 0);
    [apply geometry_okP; reflexivity|simpl; lia|reflexivity
    |intros j Hj; lia].
Defined.

Lemma full_set_evicts_least_stamp_witness :
  (exists way victim s c',
     LRU full_two_ways 24 = Some (c', victim) /\ 0 <= way < 2 /\
     rd (tags full_two_ways) (slot full_two_ways 0 way) = Some victim /\
     rd (LRUTime full_two_ways) (slot full_two_ways 0 way) = Some s /\
     (forall j sj, 0 <= j < 2 ->
        rd (LRUTime full_two_ways) (slot full_two_ways 0 j) = Some sj ->
        s <= sj /\ (j < way -> s < sj)) /\
     tags c' = <[Z.to_nat (slot full_two_ways 0 way) := Z.lor 3 VALID]>
                 (tags full_two_ways) /\
     LRUTime c' = <[Z.to_nat (slot full_two_ways 0 way) := 6]> [5; 3] /\
     LRUCount c' = 7) /\
  (exists way victim s c',
     FIFO full_two_ways 24 = Some (c', victim) /\ 0 <= way < 2 /\
     rd (tags full_two_ways) (slot full_two_ways 0 way) = Some victim /\
     rd (FIFOTime full_two_ways) (slot full_two_ways 0 way) = Some s /\
     (forall j sj, 0 <= j < 2 ->
        rd (FIFOTime full_two_ways) (slot full_two_ways 0 j) = Some sj ->
        s <= sj /\ (j < way -> s < sj)) /\
     tags c' = <[Z.to_nat (slot full_two_ways 0 way) := Z.lor 3 VALID]>
                 (tags full_two_ways) /\
     FIFOTime c' = <[Z.to_nat (slot full_two_ways 0 way) := 2]> [1; 2] /\
     FIFOCount c' = 2).
Proof.
  apply (full_set_evicts_least_stamp full_two_ways 24).
  - apply geometry_okP; reflexivity.
  - intros j Hj. assert (Hc : j = 0 \/ j = 1) by (simpl in Hj; lia).
    destruct Hc as [->| ->]; eexists; (split; [reflexivity|]);
      vm_compute; discriminate.
  - intros j s Hj Hs. assert (Hc : j = 0 \/ j = 1) by (simpl in Hj; lia).
    destruct Hc as [->| ->]; destruct Hs as [Hs|Hs]; vm_compute in Hs;
      injection Hs as <-; lia.
Defined.

Lemma policy_counters_per_access_witness :
  exists c' tr c1 r e,
    access last_level "L" fresh_two_ways 0 1 false = Some (c', tr) /\
    check_tag "L" (count_access "L" fresh_two_ways 1 false) 0
      = Some (c1, r) /\
    first_empty fresh_two_ways 0 2 0 = Some e /\
    ("L" = "R" ->
     LRUCount c' = 0 /\ FIFOCount c' = 0 /\
     LRUTime c' = [0; 0] /\ FIFOTime c' = [0; 0])%string /\
    ("L" = "F" ->
     FIFOCount c' = wrap_int (0 + 1) /\
     LRUCount c' = 0 /\ LRUTime c' = [0; 0])%string /\
    ("L" = "L" ->
     FIFOCount c' = 0 /\ FIFOTime c' = [0; 0] /\
     LRUCount c' =
       match r, e with
       | Some _, _ => wrap_int (0 + 1)
       | None, None => wrap_int (wrap_int (0 + 1) + 1)
       | None, Some _ => wrap_int (wrap_int (wrap_int (0 + 1) + 1) + 1)
       end)%string.
Proof.
  apply (policy_counters_per_access last_level (fun _ => False) "L"
           fresh_two_ways 0 1 false);
    [apply geometry_okP; reflexivity|reflexivity|reflexivity|lia
    |exact last_level_serves|now apply last_level_ok].
Defined.

Lemma statistics_count_the_trace_witness :
  exists c' tr,
    run last_level "R" fresh_two_ways [(0, 4, false); (8, 2, true)]
      = Some (c', tr) /\
    wrap64 (read_accesses c') = wrap64 (0 + 1) /\
    wrap64 (write_accesses c') = wrap64 (0 + 1) /\
    wrap64 (bytes_read c') = wrap64 (0 + (4 + 0)) /\
    wrap64 (bytes_written c') = wrap64 (0 + (0 + (2 + 0))).
Proof.
  apply (statistics_count_the_trace last_level (fun _ => False) "R"
           [(0, 4, false); (8, 2, true)] fresh_two_ways);
    [apply geometry_okP; reflexivity|reflexivity|reflexivity
    |exact last_level_serves|now apply last_level_ok|trace_facts].
Defined.

Lemma misses_bounded_by_accesses_witness :
  exists c' tr,
    run last_level "L" fresh_two_ways (reads [0; 8; 0; 16])
      = Some (c', tr) /\
    0 <= read_misses c' <= read_accesses c' /\
    0 <= write_misses c' <= write_accesses c' /\
    read_accesses c' + write_accesses c' = 0 + 0 + 4.
Proof.
  apply (misses_bounded_by_accesses last_level (fun _ => False) "L"
           (reads [0; 8; 0; 16]) fresh_two_ways);
    [apply geometry_okP; reflexivity|reflexivity|reflexivity
    |exact last_level_serves|now apply last_level_ok|trace_facts
    |simpl; lia|simpl; lia|simpl; lia].
Defined.

Lemma loads_never_write_back_witness :
  exists c' tr,
    run last_level "F" fresh_two_ways (reads [0; 8; 16]) = Some (c', tr) /\
    writebacks c' = 0 /\ dirty_lines (tags c') = 0 /\
    Forall (fun fw : Z * Z * bool => fw.2 = false) (forwards tr).
Proof.
  apply (loads_never_write_back last_level (fun _ => False) "F"
           (reads [0; 8; 16]) fresh_two_ways);
    [apply geometry_okP; reflexivity|reflexivity|reflexivity
    |exact last_level_serves|now apply last_level_ok|trace_facts
    |reflexivity].
Defined.

Lemma writebacks_bounded_by_stores_witness :
  exists c' tr,
    run recorder "L" dirty_line [(16, 1, false); (40, 1, true)]
      = Some (c', tr) /\
    0 <= writebacks c' /\
    writebacks c' + dirty_lines (tags c') <= 0 + 1 + 1.
Proof.
  apply (writebacks_bounded_by_stores recorder (fun _ => True) "L"
           [(16, 1, false); (40, 1, true)] dirty_line);
    [apply geometry_okP; reflexivity|reflexivity|reflexivity
    |exact recorder_serves|apply recorder_ok|trace_facts|simpl; lia].
Defined.

Lemma forwards_match_counters_witness :
  exists c' tr h',
    run recorder "L" dirty_line [(16, 1, false)] = Some (c', tr) /\
    miss_handler c' = Some h' /\
    wrap64 (read_misses c' + write_misses c')
      = wrap64 (0 + 0 + references false (forwards tr)) /\
    wrap64 (writebacks c')
      = wrap64 (0 + references true (forwards tr)) /\
    Forall (fun fw : Z * Z * bool =>
              fw.1.2 = 8 /\ 0 <= fw.1.1 < 2 ^ 64 /\ fw.1.1 mod 8 = 0)
      (forwards tr).
Proof.
  apply (forwards_match_counters recorder (fun _ => True) "L"
           [(16, 1, false)] dirty_line []);
    [apply geometry_okP; reflexivity|reflexivity|reflexivity
    |exact recorder_serves|apply recorder_ok|reflexivity|trace_facts].
Defined.

Lemma next_level_runs_the_forwards_witness :
  exists l1' tr l2' tr2,
    run (as_next_level last_level "L") "L" two_levels (reads [0; 8; 0])
      = Some (l1', tr) /\
    miss_handler l1' = Some l2' /\
    run last_level "L" fresh_two_ways (forwards tr) = Some (l2', tr2) /\
    geometry l1' /\ geometry l2'.
Proof.
  apply (next_level_runs_the_forwards last_level (fun _ => False) "L"
           (reads [0; 8; 0]) two_levels fresh_two_ways);
    [apply geometry_okP; reflexivity|reflexivity|reflexivity
    |apply geometry_okP; reflexivity|reflexivity|now apply last_level_ok
    |reflexivity|exact last_level_serves|trace_facts].
Defined.

Lemma fa_random_keeps_capacity_witness :
  exists c' tr m' t,
    access last_level "R" fresh_fully_associative 64 1 true
      = Some (c', tr) /\
    fa_tags c' = Some m' /\ tm_sorted m' /\
    Z.of_nat (length m') <= ways c' /\
    (ways c' = 8 /\ idx_shift c' = 6 /\ tags c' = replicate 8 0) /\
    handler_ok (fun _ : unit => False) c' /\
    tm_find (Z.shiftr 64 6) m' = Some t.
Proof.
  apply (fa_random_keeps_capacity last_level (fun _ => False)
           fresh_fully_associative [] 64 1 true);
    [reflexivity|exact I|simpl; lia|simpl; lia|lia
    |exact last_level_serves|now apply last_level_ok].
Defined.

Lemma fa_stamped_policies_never_hit_witness :
  exists c' tr,
    run last_level "L" fresh_fully_associative (reads [0; 0]) = Some (c', tr) /\
    fa_tags c' = Some [] /\
    hit_sequence last_level "L" fresh_fully_associative (reads [0; 0])
      = Some [false; false] /\
    wrap64 (read_misses c') = wrap64 (0 + 2) /\
    forall addr bytes, access last_level "L" c' addr bytes true = None.
Proof.
  apply (fa_stamped_policies_never_hit last_level (fun _ => False) "L"
           (reads [0; 0]) fresh_fully_associative);
    [apply geometry_okP; reflexivity|reflexivity|reflexivity
    |exact last_level_serves|now apply last_level_ok|trace_facts].
Defined.

Lemma unknown_policy_installs_nothing_witness :
  exists c' tr,
    access last_level "X" fresh_two_ways 0 1 false = Some (c', tr) /\
    tags c' = [0; 0] /\ LRUTime c' = [0; 0] /\ FIFOTime c' = [0; 0] /\
    LRUCount c' = 0 /\ FIFOCount c' = 0 /\ writebacks c' = 0 /\
    read_misses c' = wrap64 (0 + 1) /\
    forwards tr = [] /\
    check_tag "X" (count_access "X" c' 1 false) 0
      = Some (count_access "X" c' 1 false, None).
Proof.
  apply (unknown_policy_installs_nothing last_level (fun _ => False) "X"
           fresh_two_ways 0 1);
    [apply geometry_okP; reflexivity|reflexivity|reflexivity|lia
    |exact last_level_serves|now apply last_level_ok|reflexivity].
Defined.

Lemma no_line_is_resident_twice_witness :
  exists c' tr,
    run last_level "R" fresh_two_ways
      [(0, 1, false); (16, 1, true); (0, 1, true)] = Some (c', tr) /\
    lines_distinct c'.
Proof.
  apply (no_line_is_resident_twice last_level (fun _ => False) "R"
           [(0, 1, false); (16, 1, true); (0, 1, true)] fresh_two_ways);
    [apply geometry_okP; reflexivity|reflexivity|reflexivity
    |exact last_level_serves|now apply last_level_ok|trace_facts
    |apply empty_lines_distinct; repeat constructor].
Defined.

Lemma zero_ways_is_accepted_and_unusable_witness :
  exists c : cache_sim_t unit,
    init (constant_draws 0) 4 0 64 "" = Built c /\
    ways c = 0 /\ tags c = [] /\ LRUTime c = [] /\ FIFOTime c = [] /\
    access last_level "L" c 0 1 false = None.
Proof.
  apply (zero_ways_is_accepted_and_unusable last_level (constant_draws 0)
           4 64 "" "L" 0 1 false);
    [lia|lia| |reflexivity].
  split; [exists 2; split; [lia|reflexivity]|].
  split; [exists 6; split; [lia|reflexivity]|lia].
Defined.

Lemma construct_reads_the_fields_witness :
  @construct unit (constant_draws 0) "" "64:4:32:L" "D$"
  = Some (construct_parsed (constant_draws 0) 64 4 32 "D$", "L"%string).
Proof.
  apply (construct_reads_the_fields (H := unit) (constant_draws 0) ""
           [6; 4] [4] [3; 2] "L" "D$");
    try (repeat (constructor; [lia|]); constructor);
    vm_compute; reflexivity.
Defined.

Lemma short_configuration_prints_usage_witness :
  @construct unit (constant_draws 0) "R" "64" "D$"
    = Some (Exit help_text 1, "R"%string) /\
  @construct unit (constant_draws 0) "R" "64:4" "D$"
    = Some (Exit help_text 1, "R"%string).
Proof.
  apply (short_configuration_prints_usage (H := unit) (constant_draws 0)
           "R" "64" "4" "D$"); reflexivity.
Defined.

Lemma three_field_configuration_is_undefined_witness :
  @construct unit (constant_draws 0) "R" "64:4:32" "D$" = None.
Proof.
  apply (three_field_configuration_is_undefined (H := unit)
           (constant_draws 0) "R" "64" "4" "32" "D$"); reflexivity.
Defined.

Lemma lru_keeps_the_line_just_used_witness :
  exists c1 tr1 c2 tr2 c3,
    access last_level "L" fresh_two_ways 0 1 false = Some (c1, tr1) /\
    access last_level "L" c1 8 1 true = Some (c2, tr2) /\
    access last_level "L" c2 0 1 false = Some (c3, []) /\
    read_misses c3 = read_misses c2 /\ write_misses c3 = write_misses c2.
Proof.
  apply (lru_keeps_the_line_just_used last_level (fun _ => False)
           fresh_two_ways 0 1 false 8 1 true 1 false);
    [apply geometry_okP; reflexivity|reflexivity|simpl; lia|lia|lia
    |exact last_level_serves|now apply last_level_ok| |simpl; lia|simpl; lia].
  intros j s Hj Hs. assert (Hc : j = 0 \/ j = 1) by (simpl in Hj; lia).
  destruct Hc as [->| ->]; vm_compute in Hs; injection Hs as <-; simpl; lia.
Defined.

Lemma generator_draws_once_per_random_miss_witness :
  exists c' tr c1 r,
    access last_level "R" fresh_two_ways 0 1 false = Some (c', tr) /\
    check_tag "R" (count_access "R" fresh_two_ways 1 false) 0
      = Some (c1, r) /\
    draws (lfsr c') = draws (constant_draws 0) /\
    drawn (lfsr c') =
      match r with
      | Some _ => 0%nat
      | None => if policy_is "R" "R" then 1%nat else 0%nat
      end.
Proof.
  apply (generator_draws_once_per_random_miss last_level (fun _ => False)
           "R" fresh_two_ways 0 1 false);
    [apply geometry_okP; reflexivity|reflexivity|reflexivity|lia
    |exact last_level_serves|now apply last_level_ok].
Defined.

Lemma first_access_misses_witness :
  exists c' tr,
    access last_level "F" fresh_four_sets 192 8 true = Some (c', tr) /\
    read_misses c' = 0 /\ write_misses c' = 1 /\
    writebacks c' = 0 /\ forwards tr = [] /\
    dirty_lines (tags c') = 1.
Proof.
  apply (first_access_misses last_level (constant_draws 0) 4 2 64 ""
           fresh_four_sets "F" 192 8 true);
    [vm_compute; reflexivity|lia|lia|lia|lia|reflexivity|lia].
Defined.

Lemma fifo_ignores_hits_witness :
  exists c' way x v x' v',
    access last_level "F" warm_two_ways 0 1 true = Some (c', []) /\
    0 <= way < 2 /\
    FIFO warm_two_ways 8 = Some (x, v) /\
    rd (tags warm_two_ways) (slot warm_two_ways 0 way) = Some v /\
    tags x = <[Z.to_nat (slot warm_two_ways 0 way) := Z.lor 1 VALID]>
               (tags warm_two_ways) /\
    FIFO c' 8 = Some (x', v') /\
    rd (tags c') (slot warm_two_ways 0 way) = Some v' /\
    tags x' = <[Z.to_nat (slot warm_two_ways 0 way) := Z.lor 1 VALID]>
                (tags c') /\
    Z.land v' (not64 DIRTY) = Z.land v (not64 DIRTY).
Proof.
  apply (fifo_ignores_hits last_level (fun _ => False) warm_two_ways 0 1
           true (count_access "F" warm_two_ways 1 true) (InArray 0) 8);
    [apply geometry_okP; reflexivity|reflexivity|lia
    |exact last_level_serves|now apply last_level_ok
    |vm_compute; reflexivity].
Defined.
